(** * Pedometer: step detection and counting (pedometer.c / pedometer.h)

    A shallow embedding of the core of the pedometer: the second-order
    IIR filter primitive [apply_filter], the per-sample front end
    [step_algo_preproc], the batch detector and classifier
    [step_algo_run], the initialisation done by [main] and the body of
    [main]'s sample loop.

    C [float] values are IEEE-754 binary32 numbers, modelled with the
    Standard Library's executable [spec_float] operations at precision 24
    and maximal exponent 128: every operation on two [float]s rounds to
    nearest even in binary32 (no excess precision, no fused
    multiply-add).  Constants written without the [f] suffix
    are C [double]s (binary64); a [float] compared with one of them is
    first converted, exactly, to binary64.  [unsigned int] variables are
    integers with the wrap-around modulo 2^32 written out.  Arrays are
    lists updated in place with stdpp's insert and read with the total
    lookup. *)

From Stdlib Require Import ZArith Bool Lia.
From Stdlib Require Import QArith Qpower Lqa.
From Stdlib Require Import Floats.SpecFloat.
From stdpp Require Import base list.

Local Open Scope Z_scope.

(** ** Machine arithmetic *)

Module F32.

Definition prec : Z := 24.
Definition emax : Z := 128.

(** A C [float]. *)
Definition float : Type := spec_float.

Definition zero : float := S754_zero false.

Definition add : float -> float -> float := SFadd prec emax.
Definition sub : float -> float -> float := SFsub prec emax.
Definition mul : float -> float -> float := SFmul prec emax.
Definition div : float -> float -> float := SFdiv prec emax.

(** [x < y], [x <= y] on two floats. *)
Definition ltb : float -> float -> bool := SFltb.
Definition leb : float -> float -> bool := SFleb.
(** [x > y], [x >= y]: the same comparisons with the operands swapped. *)
Definition gtb (x y : float) : bool := SFltb y x.
Definition geb (x y : float) : bool := SFleb y x.

(** Conversion of an integer to [float] (round to nearest even). *)
Definition of_Z (z : Z) : float := binary_normalize prec emax z 0 false.

(** The [float] nearest to the decimal literal [p / q]. *)
Definition lit (p q : Z) : float :=
  SFdiv prec emax
    (match p with
     | Z0 => S754_zero false
     | Zpos m => S754_finite false m 0
     | Zneg m => S754_finite true m 0
     end)
    (match q with
     | Zpos m => S754_finite false m 0
     | _ => S754_zero false
     end).

(** Conversion [(unsigned int) x] of a non-negative float: truncation. *)
Definition to_uint (x : float) : Z :=
  match x with
  | S754_finite false m e =>
      (if 0 <=? e then Z.shiftl (Zpos m) e else Z.shiftr (Zpos m) (- e))
        mod 2 ^ 32
  | _ => 0
  end.

End F32.

Module F64.

Definition prec : Z := 53.
Definition emax : Z := 1024.

(** A C [double]. *)
Definition double : Type := spec_float.

(** The [double] nearest to the decimal literal [p / q]. *)
Definition lit (p q : Z) : double :=
  SFdiv prec emax
    (match p with
     | Z0 => S754_zero false
     | Zpos m => S754_finite false m 0
     | Zneg m => S754_finite true m 0
     end)
    (match q with
     | Zpos m => S754_finite false m 0
     | _ => S754_zero false
     end).

(** The usual arithmetic conversion of a [float] operand to [double];
    it is exact, only the representation is renormalised. *)
Definition of_float (x : F32.float) : double :=
  match x with
  | S754_finite s m e => binary_normalize prec emax (cond_Zopp s (Zpos m)) e s
  | _ => x
  end.

Definition ltb : double -> double -> bool := SFltb.
Definition leb : double -> double -> bool := SFleb.
Definition gtb (x y : double) : bool := SFltb y x.
Definition geb (x y : double) : bool := SFleb y x.
Definition opp : double -> double := SFopp.
Definition fabs : double -> double := SFabs.

End F64.

Abbreviation float := F32.float.

Global Instance float_inhabited : Inhabited float := populate F32.zero.

(** [unsigned int] arithmetic wraps modulo 2^32. *)
Definition u32 (z : Z) : Z := z mod 2 ^ 32.

(** ** pedometer.h *)

Definition EPSILON : F64.double := F64.lit 1 1000000.

Definition SENSOR_SAMP_FREQ : Z := 104.
Definition SENSOR_SAMP_INTVL : float :=
  F32.div (F32.lit 1 1) (F32.of_Z SENSOR_SAMP_FREQ).
Definition BUFF_FACTOR : Z := 2.
Definition SAMP_BUFF_LEN : Z := SENSOR_SAMP_FREQ / BUFF_FACTOR.
Definition MAX_TC_SAMPLES : Z := 20.

(** Filter data struct for a 2nd order filter. *)
Record filter_t : Type := Build_filter_t {
  b0 : float;
  b1 : float;
  b2 : float;
  a1 : float;
  a2 : float;
  prev_in : float;
  prev_prev_in : float;
  prev_out : float;
  prev_prev_out : float;
  TC_samples : Z
}.

Inductive motion_type_t : Type := STATIC | WALK | HOP | RUN.

Global Instance motion_type_eq_dec : EqDecision motion_type_t.
Proof. solve_decision. Defined.

(** Algorithm output data structure. *)
Module Out.
Record algo_out_t : Type := Build_algo_out_t {
  step_count : Z;
  step_type : motion_type_t;
  prev_max : float;
  prev_min : float;
  prev_max_ts : float;
  prev_min_ts : float
}.
End Out.
Abbreviation algo_out_t := Out.algo_out_t.

(** ** Program state

    The file-scope variables of pedometer.c that the core touches, and
    the function-local statics of [step_algo_preproc] and [step_algo_run].
    The x and z filter instances and the rows [CHX], [CHZ] of [AccBuff]
    are initialised by [main] but never read or written afterwards. *)
Record state : Type := Build_state {
  lp_filter_y : filter_t;
  ll_filter_y : filter_t;
  step_algo_output : algo_out_t;
  AccBuff_CHY : list float;        (* AccBuff[CHY][SAMP_BUFF_LEN] *)
  AccBuff_TS : list float;         (* AccBuff[CHZ + 1][SAMP_BUFF_LEN] *)
  num_steps_walk : Z;
  num_steps_run : Z;
  num_steps_hop : Z;
  count : Z;                       (* static in step_algo_preproc *)
  prev_amp_est : float;            (* statics of step_algo_run *)
  prev_freq_est : float;
  amp_est_hold : Z;
  freq_est_hold : Z;
  prevAccDer : float;
  AccFilt : list float;            (* SAMP_BUFF_LEN + MAX_TC_SAMPLES *)
  TimeStamps : list float;         (* SAMP_BUFF_LEN + MAX_TC_SAMPLES *)
  AccDer : list float              (* SAMP_BUFF_LEN *)
}.

(** ** apply_filter *)

Definition apply_filter (filt_data : filter_t) (in_data : float)
  : filter_t * float :=
  let out_data :=
    F32.sub
      (F32.sub
         (F32.add
            (F32.add (F32.mul (b0 filt_data) in_data)
                     (F32.mul (b1 filt_data) (prev_in filt_data)))
            (F32.mul (b2 filt_data) (prev_prev_in filt_data)))
         (F32.mul (a1 filt_data) (prev_out filt_data)))
      (F32.mul (a2 filt_data) (prev_prev_out filt_data)) in
  ({| b0 := b0 filt_data;
      b1 := b1 filt_data;
      b2 := b2 filt_data;
      a1 := a1 filt_data;
      a2 := a2 filt_data;
      prev_in := in_data;
      prev_prev_in := prev_in filt_data;
      prev_out := out_data;
      prev_prev_out := prev_out filt_data;
      TC_samples := TC_samples filt_data |},
   out_data).

(** ** step_algo_preproc *)

(** One input row: the timestamp and the six sensor channels. *)
Record sample : Type := Build_sample {
  timestamp : float;
  arx : float;
  ary : float;
  arz : float;
  grx : float;
  gry : float;
  grz : float
}.

Definition step_algo_preproc (st : state) (smp : sample) : state * Z :=
  let filtered := apply_filter (lp_filter_y st) (ary smp) in
  let lp := filtered.1 in
  let ary_flt := filtered.2 in
  let buf_y := <[Z.to_nat (count st) := ary_flt]> (AccBuff_CHY st) in
  let buf_ts := <[Z.to_nat (count st) := timestamp smp]> (AccBuff_TS st) in
  let count1 := u32 (count st + 1) in
  let ret_val := if count1 =? SAMP_BUFF_LEN then 1 else 0 in
  let count2 := if count1 =? SAMP_BUFF_LEN then 0 else count1 in
  ({| lp_filter_y := lp;
      ll_filter_y := ll_filter_y st;
      step_algo_output := step_algo_output st;
      AccBuff_CHY := buf_y;
      AccBuff_TS := buf_ts;
      num_steps_walk := num_steps_walk st;
      num_steps_run := num_steps_run st;
      num_steps_hop := num_steps_hop st;
      count := count2;
      prev_amp_est := prev_amp_est st;
      prev_freq_est := prev_freq_est st;
      amp_est_hold := amp_est_hold st;
      freq_est_hold := freq_est_hold st;
      prevAccDer := prevAccDer st;
      AccFilt := AccFilt st;
      TimeStamps := TimeStamps st;
      AccDer := AccDer st |},
   ret_val).

(** ** step_algo_run *)

Definition VERY_HIGH_VAL : Z := 100000.
Definition NO_DETECT_DUR_SEC : float := F32.lit 2 10.
Definition CLOSE_TO_ZERO : F64.double := F64.lit 15 10.
Definition MAX_TIME_PERIOD_SEC : float := F32.lit 15 10.
Definition SMALL_AMP : F64.double := F64.lit 5 1.
Definition LARGE_AMP : F64.double := F64.lit 15 1.
Definition SLOW_FREQ : F64.double := F64.lit 5 10.
Definition FAST_FREQ : F64.double := F64.lit 22 10.

(** The local variables of [step_algo_run] that the detection loop reads
    and writes, with the live value of the static [prevAccDer]. *)
Record locals : Type := Build_locals {
  prev_max_val : float;
  prev_max_ts : float;
  prev_min_val : float;
  prev_min_ts : float;
  new_max_val : float;
  new_max_ts : float;
  new_min_val : float;
  new_min_ts : float;
  avg_max_val : float;
  avg_min_val : float;
  avg_time_period : float;
  amp_est : float;
  count_max_det : Z;
  count_min_det : Z;
  prevAccDer_cur : float
}.

Definition set_prevAccDer (v : float) (l : locals) : locals :=
  Build_locals (prev_max_val l) (prev_max_ts l) (prev_min_val l) (prev_min_ts l)
    (new_max_val l) (new_max_ts l) (new_min_val l) (new_min_ts l)
    (avg_max_val l) (avg_min_val l) (avg_time_period l) (amp_est l)
    (count_max_det l) (count_min_det l) v.

Definition set_new_max_val (v : float) (l : locals) : locals :=
  Build_locals (prev_max_val l) (prev_max_ts l) (prev_min_val l) (prev_min_ts l)
    v (new_max_ts l) (new_min_val l) (new_min_ts l)
    (avg_max_val l) (avg_min_val l) (avg_time_period l) (amp_est l)
    (count_max_det l) (count_min_det l) (prevAccDer_cur l).

Definition set_new_max_ts (v : float) (l : locals) : locals :=
  Build_locals (prev_max_val l) (prev_max_ts l) (prev_min_val l) (prev_min_ts l)
    (new_max_val l) v (new_min_val l) (new_min_ts l)
    (avg_max_val l) (avg_min_val l) (avg_time_period l) (amp_est l)
    (count_max_det l) (count_min_det l) (prevAccDer_cur l).

Definition set_new_min (v t : float) (l : locals) : locals :=
  Build_locals (prev_max_val l) (prev_max_ts l) (prev_min_val l) (prev_min_ts l)
    (new_max_val l) (new_max_ts l) v t
    (avg_max_val l) (avg_min_val l) (avg_time_period l) (amp_est l)
    (count_max_det l) (count_min_det l) (prevAccDer_cur l).

Definition set_prev_max_ts (v : float) (l : locals) : locals :=
  Build_locals (prev_max_val l) v (prev_min_val l) (prev_min_ts l)
    (new_max_val l) (new_max_ts l) (new_min_val l) (new_min_ts l)
    (avg_max_val l) (avg_min_val l) (avg_time_period l) (amp_est l)
    (count_max_det l) (count_min_det l) (prevAccDer_cur l).

Definition set_prev_min_ts (v : float) (l : locals) : locals :=
  Build_locals (prev_max_val l) (prev_max_ts l) (prev_min_val l) v
    (new_max_val l) (new_max_ts l) (new_min_val l) (new_min_ts l)
    (avg_max_val l) (avg_min_val l) (avg_time_period l) (amp_est l)
    (count_max_det l) (count_min_det l) (prevAccDer_cur l).

(** Lines 309-313: the body of the innermost [if] of the max branch. *)
Definition commit_max (l : locals) : locals :=
  {| prev_max_val := new_max_val l;
     prev_max_ts := new_max_ts l;
     prev_min_val := prev_min_val l;
     prev_min_ts := prev_min_ts l;
     new_max_val := new_max_val l;
     new_max_ts := new_max_ts l;
     new_min_val := new_min_val l;
     new_min_ts := new_min_ts l;
     avg_max_val := F32.add (avg_max_val l) (new_max_val l);
     avg_min_val := avg_min_val l;
     avg_time_period :=
       F32.add (avg_time_period l) (F32.sub (new_max_ts l) (prev_max_ts l));
     amp_est := amp_est l;
     count_max_det := u32 (count_max_det l + 1);
     count_min_det := count_min_det l;
     prevAccDer_cur := prevAccDer_cur l |}.

(** Lines 332-339: the body of the innermost [if] of the min branch. *)
Definition commit_min (l : locals) : locals :=
  {| prev_max_val := prev_max_val l;
     prev_max_ts := prev_max_ts l;
     prev_min_val := new_min_val l;
     prev_min_ts := new_min_ts l;
     new_max_val := new_max_val l;
     new_max_ts := new_max_ts l;
     new_min_val := new_min_val l;
     new_min_ts := new_min_ts l;
     avg_max_val := avg_max_val l;
     avg_min_val := F32.add (avg_min_val l) (new_min_val l);
     avg_time_period :=
       F32.add (avg_time_period l) (F32.sub (new_min_ts l) (prev_min_ts l));
     amp_est := F32.add (amp_est l) (F32.sub (prev_max_val l) (new_min_val l));
     count_max_det := count_max_det l;
     count_min_det := u32 (count_min_det l + 1);
     prevAccDer_cur := prevAccDer_cur l |}.

(** Distance between two samples to be compared. *)
Definition delta : nat := 1.

(** The test of line 295: the detector looks for the next max when it
    holds, for the next min otherwise. *)
Definition max_search (l : locals) : bool :=
  F32.leb (prev_max_ts l) (prev_min_ts l).

(** The zero-crossing tests of lines 297 and 321 on the derivative. *)
Definition falling_zc (der : list float) (i : nat) (l : locals) : bool :=
  F64.ltb (F64.of_float (der !!! i)) (F64.opp EPSILON)
  && F32.geb (prevAccDer_cur l) F32.zero.

Definition rising_zc (der : list float) (i : nat) (l : locals) : bool :=
  F64.gtb (F64.of_float (der !!! i)) EPSILON
  && F32.leb (prevAccDer_cur l) F32.zero.

(** The dead-time tests of lines 299 and 323: [t - prev_ts > 0.2f]. *)
Definition dead_time_passed (t prev_ts : float) : bool :=
  F32.gtb (F32.sub t prev_ts) NO_DETECT_DUR_SEC.

(** The separation tests of lines 308 and 331: [hi - lo > 1.5]. *)
Definition separated (hi lo : float) : bool :=
  F64.gtb (F64.of_float (F32.sub hi lo)) CLOSE_TO_ZERO.

(** The max branch of the detection loop body (lines 297-317). *)
Definition search_max (der filt ts : list float) (i : nat) (l : locals)
  : locals :=
  if falling_zc der i l then
    if dead_time_passed (ts !!! i) (prev_max_ts l) then
      let l := set_new_max_val (filt !!! i) l in
      if F64.gtb (F64.fabs (F64.of_float (new_max_val l))) CLOSE_TO_ZERO then
        let l := set_new_max_ts (ts !!! i) l in
        let l :=
          if F32.gtb (new_max_ts l) (F32.add (prev_max_ts l) MAX_TIME_PERIOD_SEC)
          then set_prev_max_ts (F32.sub (new_max_ts l) MAX_TIME_PERIOD_SEC) l
          else l in
        if separated (new_max_val l) (prev_min_val l)
        then commit_max l
        else l
      else l
    else l
  else l.

(** The min branch of the detection loop body (lines 321-342). *)
Definition search_min (der filt ts : list float) (i : nat) (l : locals)
  : locals :=
  if rising_zc der i l then
    if dead_time_passed (ts !!! i) (prev_min_ts l) then
      let l := set_new_min (filt !!! i) (ts !!! i) l in
      let l :=
        if F32.gtb (new_min_ts l) (F32.add (prev_min_ts l) MAX_TIME_PERIOD_SEC)
        then set_prev_min_ts (F32.sub (new_min_ts l) MAX_TIME_PERIOD_SEC) l
        else l in
      if separated (prev_max_val l) (new_min_val l)
      then commit_min l
      else l
    else l
  else l.

(** One iteration of the detection loop (lines 292-343). *)
Definition detect_iter (der filt ts : list float) (l : locals) (i : nat)
  : locals :=
  let l :=
    if (delta <=? i)%nat then set_prevAccDer (der !!! (i - delta)%nat) l
    else l in
  if max_search l
  then search_max der filt ts i l
  else search_min der filt ts i l.

(** The loop indices [0 .. SAMP_BUFF_LEN - 1]. *)
Definition frame_indices : list nat := seq 0 (Z.to_nat SAMP_BUFF_LEN).

(** One iteration of the first loop (lines 280-287): the derivative of the
    frame and the extended buffers.  [TC] is the local [TC_samples]. *)
Definition deriv_iter (TC : Z) (buf_y buf_ts : list float)
    (acc : filter_t * list float * list float * list float) (i : nat)
  : filter_t * list float * list float * list float :=
  let '(ll, der, filt, ts) := acc in
  let d := (apply_filter ll (buf_y !!! i)).2 in
  ((apply_filter ll (buf_y !!! i)).1,
   <[i := d]> der,
   <[Z.to_nat (u32 (TC + Z.of_nat i)) := buf_y !!! i]> filt,
   <[Z.to_nat (u32 (TC + Z.of_nat i)) := buf_ts !!! i]> ts).

(** One iteration of the loop that saves the last [TC_samples] entries for
    the next run (lines 376-379). *)
Definition save_iter (TC : Z) (buf_y buf_ts : list float)
    (acc : list float * list float) (i : nat) : list float * list float :=
  let '(filt, ts) := acc in
  let j := Z.to_nat (u32 (SAMP_BUFF_LEN - TC + Z.of_nat i)) in
  (<[i := buf_y !!! j]> filt, <[i := buf_ts !!! j]> ts).

(** The locals at the entry of the detection loop (lines 248-274). *)
Definition init_locals (st : state) : locals :=
  {| prev_max_val := Out.prev_max (step_algo_output st);
     prev_max_ts := Out.prev_max_ts (step_algo_output st);
     prev_min_val := Out.prev_min (step_algo_output st);
     prev_min_ts := Out.prev_min_ts (step_algo_output st);
     new_max_val := F32.of_Z (- VERY_HIGH_VAL);
     new_max_ts := F32.zero;
     new_min_val := F32.of_Z VERY_HIGH_VAL;
     new_min_ts := F32.zero;
     avg_max_val := F32.zero;
     avg_min_val := F32.zero;
     avg_time_period := F32.zero;
     amp_est := F32.zero;
     count_max_det := 0;
     count_min_det := 0;
     prevAccDer_cur := prevAccDer st |}.

(** The derivative, the extended buffers and the lead-lag filter after
    the first loop. *)
Definition run_deriv (st : state)
  : filter_t * list float * list float * list float :=
  fold_left
    (deriv_iter (TC_samples (ll_filter_y st)) (AccBuff_CHY st) (AccBuff_TS st))
    frame_indices
    (ll_filter_y st, AccDer st, AccFilt st, TimeStamps st).

(** The locals after the detection loop. *)
Definition run_detect (st : state) : locals :=
  let first_loop := run_deriv st in
  let der := first_loop.1.1.2 in
  let filt := first_loop.1.2 in
  let ts := first_loop.2 in
  fold_left (detect_iter der filt ts) frame_indices (init_locals st).

(** Lines 346-357: the amplitude estimate and its hold counter. *)
Definition amp_update (l : locals) (prev_amp : float) (hold : Z) : float * Z :=
  let r :=
    if 0 <? count_min_det l
    then (F32.div (amp_est l) (F32.of_Z (count_min_det l)), 0)
    else (prev_amp, u32 (hold + 1)) in
  if BUFF_FACTOR <? r.2 then (F32.zero, 0) else r.

(** Lines 359-373: the frequency estimate and its hold counter. *)
Definition freq_update (l : locals) (prev_freq : float) (hold : Z) : float * Z :=
  let n := u32 (count_max_det l + count_min_det l) in
  let period :=
    if 0 <? n then F32.div (avg_time_period l) (F32.of_Z n)
    else avg_time_period l in
  let r :=
    if F64.gtb (F64.of_float period) EPSILON
    then (F32.div (F32.of_Z 1) period, 0)
    else (prev_freq, u32 (hold + 1)) in
  if BUFF_FACTOR <? r.2 then (F32.zero, 0) else r.

(** Lines 391-424: the motion class, and the per-class counter that the
    batch's steps go to.  The result is the label and the new values of
    [num_steps_walk], [num_steps_run] and [num_steps_hop]. *)
Definition classify (amp freq : float) (n walk run hop : Z)
  : motion_type_t * Z * Z * Z :=
  if F64.leb (F64.of_float amp) SMALL_AMP then
    if F64.leb (F64.of_float freq) SLOW_FREQ
    then (STATIC, walk, run, hop)
    else (WALK, u32 (walk + n), run, hop)
  else if F64.geb (F64.of_float amp) LARGE_AMP then
    if F64.geb (F64.of_float freq) FAST_FREQ
    then (RUN, walk, u32 (run + n), hop)
    else (HOP, walk, run, u32 (hop + n))
  else
    if F64.geb (F64.of_float freq) FAST_FREQ
    then (RUN, walk, u32 (run + n), hop)
    else (WALK, u32 (walk + n), run, hop).

Definition step_algo_run (st : state) : state :=
  let TC := TC_samples (ll_filter_y st) in
  let first_loop := run_deriv st in
  let ll := first_loop.1.1.1 in
  let der := first_loop.1.1.2 in
  let filt := first_loop.1.2 in
  let ts := first_loop.2 in
  let l := run_detect st in
  let amp := amp_update l (prev_amp_est st) (amp_est_hold st) in
  let freq := freq_update l (prev_freq_est st) (freq_est_hold st) in
  let saved :=
    fold_left (save_iter TC (AccBuff_CHY st) (AccBuff_TS st))
              (seq 0 (Z.to_nat TC)) (filt, ts) in
  let cls :=
    classify amp.1 freq.1 (count_min_det l)
             (num_steps_walk st) (num_steps_run st) (num_steps_hop st) in
  {| lp_filter_y := lp_filter_y st;
     ll_filter_y := ll;
     step_algo_output :=
       {| Out.step_count :=
            u32 (Out.step_count (step_algo_output st) + count_min_det l);
          Out.step_type := cls.1.1.1;
          Out.prev_max := prev_max_val l;
          Out.prev_min := prev_min_val l;
          Out.prev_max_ts := prev_max_ts l;
          Out.prev_min_ts := prev_min_ts l |};
     AccBuff_CHY := AccBuff_CHY st;
     AccBuff_TS := AccBuff_TS st;
     num_steps_walk := cls.1.1.2;
     num_steps_run := cls.1.2;
     num_steps_hop := cls.2;
     count := count st;
     prev_amp_est := amp.1;
     prev_freq_est := freq.1;
     amp_est_hold := amp.2;
     freq_est_hold := freq.2;
     prevAccDer := der !!! Z.to_nat (SAMP_BUFF_LEN - 1);
     AccFilt := saved.1;
     TimeStamps := saved.2;
     AccDer := der |}.

(** ** main: initialisation and the body of the sample loop *)

Definition timeconst_samp (tau : float) : Z :=
  let t := u32 (F32.to_uint (F32.mul (F32.of_Z SENSOR_SAMP_FREQ) tau) + 1) in
  if MAX_TC_SAMPLES <? t then MAX_TC_SAMPLES else t.

(** The 2nd order low pass filter, 3 Hz cut-off. *)
Definition lp_filter_init : filter_t :=
  {| b0 := F32.lit 72269463 10000000000;
     b1 := F32.lit 14453893 1000000000;
     b2 := F32.lit 72269463 10000000000;
     a1 := F32.lit (-17455322) 10000000;
     a2 := F32.lit 77444003 100000000;
     prev_in := F32.zero;
     prev_prev_in := F32.zero;
     prev_out := F32.zero;
     prev_prev_out := F32.zero;
     TC_samples := timeconst_samp (F32.lit 75 1000) |}.

(** The 2nd order lead-lag filter, 4 Hz cut-off. *)
Definition ll_filter_init : filter_t :=
  {| b0 := F32.lit 25369363 10000000;
     b1 := F32.zero;
     b2 := F32.lit (-25369363) 10000000;
     a1 := F32.lit (-16641912) 10000000;
     a2 := F32.lit 71297842 100000000;
     prev_in := F32.zero;
     prev_prev_in := F32.zero;
     prev_out := F32.zero;
     prev_prev_out := F32.zero;
     TC_samples := timeconst_samp (F32.lit 6 100) |}.

(** The state when [main] enters its sample loop: the initialised filters
    and output struct, and the zero-initialised statics. *)
Definition init_state : state :=
  {| lp_filter_y := lp_filter_init;
     ll_filter_y := ll_filter_init;
     step_algo_output :=
       {| Out.step_count := 0;
          Out.step_type := STATIC;
          Out.prev_max := F32.zero;
          Out.prev_min := F32.zero;
          Out.prev_max_ts := F32.zero;
          Out.prev_min_ts := F32.zero |};
     AccBuff_CHY := replicate (Z.to_nat SAMP_BUFF_LEN) F32.zero;
     AccBuff_TS := replicate (Z.to_nat SAMP_BUFF_LEN) F32.zero;
     num_steps_walk := 0;
     num_steps_run := 0;
     num_steps_hop := 0;
     count := 0;
     prev_amp_est := F32.zero;
     prev_freq_est := F32.zero;
     amp_est_hold := 0;
     freq_est_hold := 0;
     prevAccDer := F32.zero;
     AccFilt := replicate (Z.to_nat (SAMP_BUFF_LEN + MAX_TC_SAMPLES)) F32.zero;
     TimeStamps := replicate (Z.to_nat (SAMP_BUFF_LEN + MAX_TC_SAMPLES)) F32.zero;
     AccDer := replicate (Z.to_nat SAMP_BUFF_LEN) F32.zero |}.

(** Lines 166-170: one sample is pushed, and the detector runs when the
    front end says the buffer is full.  The result carries the flag. *)
Definition process_sample (st : state) (smp : sample) : state * Z :=
  let pushed := step_algo_preproc st smp in
  let st1 := pushed.1 in
  let run_step_algo := pushed.2 in
  if run_step_algo =? 1 then (step_algo_run st1, run_step_algo)
  else (st1, run_step_algo).

(** What [main] observes after each sample: the flag, the total, the
    label and the three per-class counters. *)
Definition output : Type := Z * Z * motion_type_t * Z * Z * Z.

Definition observe (st : state) (flag : Z) : output :=
  (flag,
   Out.step_count (step_algo_output st),
   Out.step_type (step_algo_output st),
   num_steps_walk st, num_steps_run st, num_steps_hop st).

(** The sample loop over a sequence of samples: the final state and the
    observations, one per sample. *)
Fixpoint process (st : state) (smps : list sample) : state * list output :=
  match smps with
  | [] => (st, [])
  | smp :: rest =>
      let done := process_sample st smp in
      let st1 := done.1 in
      let flag := done.2 in
      let later := process st1 rest in
      (later.1, observe st1 flag :: later.2)
  end.

(** The state after a sequence of samples. *)
Definition run_samples (st : state) (smps : list sample) : state :=
  fold_left (fun s smp => fst (process_sample s smp)) smps st.

(** The timestamps [main] synthesises: [timestamp += SENSOR_SAMP_INTVL]
    before each row, starting from [0.0f]. *)
Fixpoint main_samples (t : float) (arys : list float) : list sample :=
  match arys with
  | [] => []
  | y :: rest =>
      let t' := F32.add t SENSOR_SAMP_INTVL in
      {| timestamp := t'; arx := F32.zero; ary := y; arz := F32.zero;
         grx := F32.zero; gry := F32.zero; grz := F32.zero |}
        :: main_samples t' rest
  end.

(** ** Views of one detector run

    The arrays the detection loop reads, and the locals at the start of
    each of its iterations, for the run entered in state [st]. *)

(** [AccDer] after the first loop: the derivative [d] of the frame. *)
Definition batch_der (st : state) : list float := (run_deriv st).1.1.2.

(** [AccFilt] and [TimeStamps] after the first loop: the extended arrays
    [s_ext] and [ts_ext] of the frame. *)
Definition s_ext (st : state) : list float := (run_deriv st).1.2.
Definition ts_ext (st : state) : list float := (run_deriv st).2.

(** The locals when the detection loop reaches index [i]. *)
Definition locals_before (st : state) (i : nat) : locals :=
  fold_left (detect_iter (batch_der st) (s_ext st) (ts_ext st))
            (seq 0 i) (init_locals st).

(** Iteration [i] of the run commits a maximum (a minimum) when it
    moves [count_max_det] ([count_min_det]). *)
Definition commits_max (st : state) (i : nat) : Prop :=
  count_max_det (locals_before st (S i)) <> count_max_det (locals_before st i).

Definition commits_min (st : state) (i : nat) : Prop :=
  count_min_det (locals_before st (S i)) <> count_min_det (locals_before st i).

(** The states in which the detector is entered while the samples
    [smps] are pushed from [st], oldest first. *)
Fixpoint detector_entries (st : state) (smps : list sample) : list state :=
  match smps with
  | [] => []
  | smp :: rest =>
      let pushed := step_algo_preproc st smp in
      let st1 := pushed.1 in
      if pushed.2 =? 1
      then st1 :: detector_entries (step_algo_run st1) rest
      else detector_entries st1 rest
  end.

(** ** States a C execution can be in

    Every [unsigned int] holds a value below 2^32, the arrays have their
    declared lengths, the buffer index is inside the buffer and the delay
    of the lead-lag filter respects the cap [MAX_TC_SAMPLES]. *)

Definition is_uint (z : Z) : Prop := 0 <= z < 2 ^ 32.

Record valid_state (st : state) : Prop := Build_valid_state {
  valid_count : 0 <= count st < SAMP_BUFF_LEN;
  valid_TC : 0 <= TC_samples (ll_filter_y st) <= MAX_TC_SAMPLES;
  valid_step_count : is_uint (Out.step_count (step_algo_output st));
  valid_walk : is_uint (num_steps_walk st);
  valid_run : is_uint (num_steps_run st);
  valid_hop : is_uint (num_steps_hop st);
  valid_amp_hold : is_uint (amp_est_hold st);
  valid_freq_hold : is_uint (freq_est_hold st);
  valid_buf_y : length (AccBuff_CHY st) = Z.to_nat SAMP_BUFF_LEN;
  valid_buf_ts : length (AccBuff_TS st) = Z.to_nat SAMP_BUFF_LEN;
  valid_filt : length (AccFilt st) = Z.to_nat (SAMP_BUFF_LEN + MAX_TC_SAMPLES);
  valid_ts : length (TimeStamps st) = Z.to_nat (SAMP_BUFF_LEN + MAX_TC_SAMPLES);
  valid_der : length (AccDer st) = Z.to_nat SAMP_BUFF_LEN
}.

(** ** Specification vocabulary

    The notions the statements below are written in, and the inputs
    they are evaluated at. *)

(** Two samples that agree on the channels the core reads. *)
Definition same_core_input (a b : sample) : Prop :=
  timestamp a = timestamp b /\ ary a = ary b.

(** Two rows with the same timestamp and vertical acceleration and
    different values on every other channel. *)
Definition row_a : sample :=
  {| timestamp := F32.lit 1 104; arx := F32.of_Z 1; ary := F32.of_Z 10;
     arz := F32.of_Z 2; grx := F32.of_Z 3; gry := F32.of_Z 4;
     grz := F32.of_Z 5 |}.

Definition row_b : sample :=
  {| timestamp := F32.lit 1 104; arx := F32.of_Z (-7); ary := F32.of_Z 10;
     arz := F32.of_Z 0; grx := F32.of_Z 9; gry := F32.of_Z (-1);
     grz := F32.of_Z 8 |}.

(** The locals on which iteration [i] takes its decisions: the incoming
    ones, with [prevAccDer] refreshed from the derivative (line 293). *)
Definition at_index (der : list float) (i : nat) (l : locals) : locals :=
  if (delta <=? i)%nat then set_prevAccDer (der !!! (i - delta)%nat) l else l.

(** The locals on which iteration [i] of the run decides. *)
Definition deciding (st : state) (i : nat) : locals :=
  at_index (batch_der st) i (locals_before st i).

(** Iteration [i] of the run examines a candidate minimum: the detector
    looks for a min, the derivative crosses zero upwards and the dead
    time since the recorded minimum has passed. *)
Definition min_candidate (st : state) (i : nat) : bool :=
  negb (max_search (deciding st i))
  && rising_zc (batch_der st) i (deciding st i)
  && dead_time_passed (ts_ext st !!! i) (prev_min_ts (locals_before st i)).

(** The peak-to-trough separation [prev_max_val - new_min_val] that the
    candidate minimum of iteration [i] is judged on. *)
Definition swing (st : state) (i : nat) : float :=
  F32.sub (prev_max_val (locals_before st i)) (s_ext st !!! i).

(** Every candidate minimum of the run has a swing below [CLOSE_TO_ZERO]. *)
Definition small_swings (st : state) : Prop :=
  forall i, (i < 52)%nat -> min_candidate st i = true ->
    F64.ltb (F64.of_float (swing st i)) CLOSE_TO_ZERO = true.

(** Iteration [i] of the run examines a candidate maximum. *)
Definition max_candidate (st : state) (i : nat) : bool :=
  max_search (deciding st i)
  && falling_zc (batch_der st) i (deciding st i)
  && dead_time_passed (ts_ext st !!! i) (prev_max_ts (locals_before st i)).

(** The minima committed in the detector runs that ended with the label
    [STATIC], over the samples [smps] pushed from [st]. *)
Definition stationary_steps (st : state) (smps : list sample) : Z :=
  foldr
    (fun e acc =>
       (if decide (Out.step_type (step_algo_output (step_algo_run e)) = STATIC)
        then count_min_det (run_detect e) else 0) + acc)
    0 (detector_entries st smps).

(** One pass over the indices [idx] of the detection loop, from the
    locals [l]: every candidate minimum met has a swing below
    [CLOSE_TO_ZERO]. *)
Fixpoint swings_check (der filt ts : list float) (idx : list nat) (l : locals)
  : bool :=
  match idx with
  | [] => true
  | i :: rest =>
      implb (negb (max_search (at_index der i l))
             && rising_zc der i (at_index der i l)
             && dead_time_passed (ts !!! i) (prev_min_ts l))
            (F64.ltb (F64.of_float (F32.sub (prev_max_val l) (filt !!! i)))
                     CLOSE_TO_ZERO)
      && swings_check der filt ts rest (detect_iter der filt ts l i)
  end.

(** A row with the given timestamp and vertical acceleration. *)
Definition sample_at (t y : float) : sample :=
  {| timestamp := t; arx := F32.zero; ary := y; arz := F32.zero;
     grx := F32.zero; gry := F32.zero; grz := F32.zero |}.

(** One frame at 10 m/s2 followed by one frame at [y] m/s2. *)
Definition two_levels (y : float) : list float :=
  replicate 52 (F32.of_Z 10) ++ replicate 52 y.

Global Instance state_inhabited : Inhabited state := populate init_state.

(** The state in which the detector is entered for the [n]-th time. *)
Definition entry (n : nat) (smps : list sample) : state :=
  detector_entries init_state smps !!! n.

(** [main]'s timestamps over one frame at 10 m/s2 and one at 9.5 m/s2:
    the first run commits a maximum at index 31, the second run meets a
    candidate minimum at index 31 and rejects it. *)
Definition small_dip : list sample :=
  main_samples F32.zero (two_levels (F32.lit 95 10)).

(** A clock that reads 2^26 s, where a [float] cannot resolve 1.5 s,
    over one frame at 10 m/s2 and one at 7 m/s2. *)
Definition late_clock : list sample :=
  map (sample_at (F32.of_Z (2 ^ 26))) (two_levels (F32.of_Z 7)).

(** A triangle wave between [lo] and [lo + 1] m/s2, rising first, with
    [half] samples from trough to crest. *)
Definition triangle (lo : Z) (half : nat) (n : nat) : float :=
  let k := Z.of_nat (n mod (2 * half)) in
  let h := Z.of_nat half in
  let d := if k <? h then k else 2 * h - k in
  F32.div (F32.of_Z (lo * h + d)) (F32.of_Z h).

(** [main]'s timestamps over [len] samples of a slow wave between -11
    and -10 m/s2 (a period of 4 s, a swing of 1 m/s2). *)
Definition slow_wave (len : nat) : list sample :=
  main_samples F32.zero (map (triangle (-11) 208) (seq 0 len)).

(** The numbers of maxima and of minima committed in each detector run. *)
Definition batch_commits (st : state) (smps : list sample) : list (Z * Z) :=
  map (fun e => let l := run_detect e in (count_max_det l, count_min_det l))
      (detector_entries st smps).

(** Front-end calls only: the samples [smps] pushed into the frame
    buffer with no detector run. *)
Definition pushes (st : state) (smps : list sample) : state :=
  fold_left (fun s smp => (step_algo_preproc s smp).1) smps st.

(** One pass over the indices [idx] of the detection loop, from the
    locals [l]: the candidates examined, in loop order, each with its
    kind ([true] for a candidate maximum, [false] for a candidate
    minimum) and its value. *)
Fixpoint candidates_from (der filt ts : list float) (idx : list nat) (l : locals)
  : list (bool * float) :=
  match idx with
  | [] => []
  | i :: rest =>
      let l0 := at_index der i l in
      (if max_search l0 then
         if falling_zc der i l0 && dead_time_passed (ts !!! i) (prev_max_ts l)
         then [(true, filt !!! i)] else []
       else
         if rising_zc der i l0 && dead_time_passed (ts !!! i) (prev_min_ts l)
         then [(false, filt !!! i)] else [])
      ++ candidates_from der filt ts rest (detect_iter der filt ts l i)
  end.

(** The candidates of one run of the detector. *)
Definition run_candidates (st : state) : list (bool * float) :=
  candidates_from (batch_der st) (s_ext st) (ts_ext st) (seq 0 52) (init_locals st).

(** The candidates of all the runs over an input. *)
Definition input_candidates (st : state) (smps : list sample) : list (bool * float) :=
  flat_map run_candidates (detector_entries st smps).

(** The values of the candidate maxima, and of the candidate minima,
    of a list of candidates. *)
Definition maxima (cs : list (bool * float)) : list float :=
  map snd (filter (fun c => fst c = true) cs).

Definition minima (cs : list (bool * float)) : list float :=
  map snd (filter (fun c => fst c = false) cs).

(** Powers of two, as rationals: the weights of the binary digits. *)
Definition pow2 (e : Z) : Q := (2 ^ e)%Q.

(** The position of a fraction [f] of the unit interval that a rounding
    location stands for. *)
Definition locq (f : Q) (l : location) : Prop :=
  match l with
  | loc_Exact => (f == 0)%Q
  | loc_Inexact Lt => (0 < f /\ f < 1 # 2)%Q
  | loc_Inexact Eq => (f == 1 # 2)%Q
  | loc_Inexact Gt => ((1 # 2) < f /\ f < 1)%Q
  end.

(** A shift record stands for the rational [y] when its mantissa is the
    integer part of [y] and its two bits locate the fractional part. *)
Definition represents (y : Q) (mrs : shr_record) : Prop :=
  0 <= shr_m mrs /\ locq (y - inject_Z (shr_m mrs)) (loc_of_shr_record mrs).

(** The rational a float stands for; 0 for the infinities and NaN. *)
Definition valq (x : spec_float) : Q :=
  match x with
  | S754_finite s m e =>
      if s then (- (inject_Z (Zpos m) * pow2 e))%Q
      else (inject_Z (Zpos m) * pow2 e)%Q
  | _ => 0%Q
  end.

(** Zero or a finite number. *)
Definition is_finite (x : spec_float) : bool :=
  match x with
  | S754_zero _ | S754_finite _ _ _ => true
  | _ => false
  end.

(** The rational of magnitude [r] and sign bit [s]. *)
Definition signed (s : bool) (r : Q) : Q := if s then (- r)%Q else r.

(** A float of the format that is zero or a finite number. *)
Definition fin (prec emax : Z) (x : spec_float) : Prop :=
  valid_binary prec emax x = true /\ is_finite x = true.

(** A finite [float], and a finite [double]. *)
Definition fin32 (x : float) : Prop := fin F32.prec F32.emax x.
Definition fin64 (x : F64.double) : Prop := fin F64.prec F64.emax x.

(** A timestamp the clock can show: a finite [float] between 0 and
    2^20 seconds (twelve days). *)
Definition in_range (t : float) : bool :=
  valid_binary F32.prec F32.emax t && is_finite t
  && F32.leb F32.zero t && F32.leb t (F32.of_Z (2 ^ 20)).

(** The same, on the rational the timestamp stands for. *)
Definition clock_ok (t : float) : Prop :=
  fin32 t /\ (0 <= valq t <= 1048576)%Q.

(** A timestamp the detector can have recorded: one of the clock, or
    one moved back by the clamp, which can fall just below 0. *)
Definition recorded_ok (t : float) : Prop :=
  fin32 t /\ (- (2) <= valq t <= 1048576)%Q.

(** The period sum after [n] commits: each term is between 0.19 and
    1.6 seconds. *)
Definition period_ok (n : Z) (s : float) : Prop :=
  fin32 s /\ (inject_Z n * (19 # 100) <= valq s <= inject_Z n * (8 # 5))%Q.

(** What holds of the detector's locals before iteration [i] of a run
    over timestamps of the clock: the recorded timestamps are of the
    clock or clamped from it, at most [i] extrema are committed, and the
    period sum has a term between 0.19 and 1.6 s for each of them. *)
Definition loop_ok (i : Z) (l : locals) : Prop :=
  recorded_ok (prev_max_ts l) /\ recorded_ok (prev_min_ts l) /\
  0 <= count_max_det l /\ 0 <= count_min_det l /\
  count_max_det l + count_min_det l <= i /\
  period_ok (count_max_det l + count_min_det l) (avg_time_period l).

(** What holds of the state between two calls. *)
Definition state_ok (st : state) : Prop :=
  recorded_ok (Out.prev_max_ts (step_algo_output st)) /\
  recorded_ok (Out.prev_min_ts (step_algo_output st)) /\
  Forall clock_ok (AccBuff_TS st) /\ Forall clock_ok (TimeStamps st).

(** * Verification *)

(** ** Lengths and ranges *)

Lemma u32_range z : is_uint (u32 z).
Proof. unfold is_uint, u32. apply Z.mod_pos_bound. lia. Qed.

Lemma u32_small z : is_uint z -> u32 z = z.
Proof. unfold is_uint, u32. intros. apply Z.mod_small. lia. Qed.

Lemma is_uint_0 : is_uint 0.
Proof. unfold is_uint. lia. Qed.

Lemma deriv_fold_lengths TC by_ bts idx acc :
  let r := fold_left (deriv_iter TC by_ bts) idx acc in
  TC_samples r.1.1.1 = TC_samples acc.1.1.1 /\
  length r.1.1.2 = length acc.1.1.2 /\
  length r.1.2 = length acc.1.2 /\
  length r.2 = length acc.2.
Proof.
  revert acc. induction idx as [|i idx IH]; intros acc; cbn [fold_left]; [done|].
  destruct (IH (deriv_iter TC by_ bts acc i)) as (-> & -> & -> & ->).
  destruct acc as [[[ll der] filt] ts]. cbn [deriv_iter fst snd]. cbv zeta. cbn [fst snd apply_filter TC_samples].
  by rewrite !length_insert.
Qed.

Lemma save_fold_lengths TC by_ bts idx acc :
  let r := fold_left (save_iter TC by_ bts) idx acc in
  length r.1 = length acc.1 /\ length r.2 = length acc.2.
Proof.
  revert acc. induction idx as [|i idx IH]; intros acc; cbn [fold_left]; [done|].
  destruct (IH (save_iter TC by_ bts acc i)) as (-> & ->).
  destruct acc as [filt ts]. cbn [save_iter fst snd]. by rewrite !length_insert.
Qed.

Lemma amp_update_hold l p h : is_uint (amp_update l p h).2.
Proof.
  unfold amp_update. cbv zeta.
  destruct (BUFF_FACTOR <? _); [apply is_uint_0|].
  destruct (0 <? _); cbn [snd]; [apply is_uint_0 | apply u32_range].
Qed.

Lemma freq_update_hold l p h : is_uint (freq_update l p h).2.
Proof.
  unfold freq_update. cbv zeta.
  destruct (BUFF_FACTOR <? _); [apply is_uint_0|].
  destruct (F64.gtb _ _); cbn [snd]; [apply is_uint_0 | apply u32_range].
Qed.

Lemma classify_range amp freq n w r h :
  is_uint w -> is_uint r -> is_uint h ->
  is_uint (classify amp freq n w r h).1.1.2 /\
  is_uint (classify amp freq n w r h).1.2 /\
  is_uint (classify amp freq n w r h).2.
Proof.
  intros Hw Hr Hh. unfold classify.
  destruct (F64.leb _ SMALL_AMP); [destruct (F64.leb _ SLOW_FREQ)|
    destruct (F64.geb _ LARGE_AMP); destruct (F64.geb _ FAST_FREQ)];
    cbn [fst snd]; (split; [|split]); auto using u32_range.
Qed.

(** Reading a field of the state after a function that rebuilds it. *)
Ltac state_proj :=
  cbv zeta;
  cbn [lp_filter_y ll_filter_y step_algo_output AccBuff_CHY AccBuff_TS
       num_steps_walk num_steps_run num_steps_hop count prev_amp_est
       prev_freq_est amp_est_hold freq_est_hold prevAccDer AccFilt
       TimeStamps AccDer Out.step_count Out.step_type Out.prev_max
       Out.prev_min Out.prev_max_ts Out.prev_min_ts fst snd].

Lemma SAMP_BUFF_LEN_val : SAMP_BUFF_LEN = 52.
Proof. reflexivity. Qed.

Lemma init_valid : valid_state init_state.
Proof. split; vm_compute; try reflexivity; split; congruence. Qed.

Lemma run_valid st : valid_state st -> valid_state (step_algo_run st).
Proof.
  intros [Hc HTC Hs Hw Hr Hh Ha Hf Hby Hbt Hfi Hts Hd].
  pose proof (deriv_fold_lengths (TC_samples (ll_filter_y st))
                (AccBuff_CHY st) (AccBuff_TS st) frame_indices
                (ll_filter_y st, AccDer st, AccFilt st, TimeStamps st))
    as (E1 & E2 & E3 & E4).
  cbv zeta in E1, E2, E3, E4. cbn [fst snd] in E1, E2, E3, E4.
  fold (run_deriv st) in E1, E2, E3, E4.
  split; unfold step_algo_run; state_proj.
  - exact Hc.
  - rewrite E1. exact HTC.
  - apply u32_range.
  - by apply classify_range.
  - by apply classify_range.
  - by apply classify_range.
  - apply amp_update_hold.
  - apply freq_update_hold.
  - exact Hby.
  - exact Hbt.
  - rewrite (proj1 (save_fold_lengths _ _ _ _ _)). cbn [fst]. congruence.
  - rewrite (proj2 (save_fold_lengths _ _ _ _ _)). cbn [snd]. congruence.
  - congruence.
Qed.

Lemma preproc_count st smp :
  0 <= count st < SAMP_BUFF_LEN ->
  (step_algo_preproc st smp).2 = (if count st + 1 =? SAMP_BUFF_LEN then 1 else 0) /\
  count (step_algo_preproc st smp).1 =
    (if count st + 1 =? SAMP_BUFF_LEN then 0 else count st + 1).
Proof.
  rewrite SAMP_BUFF_LEN_val. intros Hc.
  unfold step_algo_preproc; state_proj.
  rewrite SAMP_BUFF_LEN_val, u32_small by (unfold is_uint; lia). done.
Qed.

Lemma preproc_valid st smp :
  valid_state st -> valid_state (step_algo_preproc st smp).1.
Proof.
  intros [Hc HTC Hs Hw Hr Hh Ha Hf Hby Hbt Hfi Hts Hd].
  split; try (unfold step_algo_preproc; state_proj; rewrite ?length_insert;
    first [exact HTC|exact Hs|exact Hw|exact Hr|exact Hh|exact Ha|exact Hf|exact Hby|exact Hbt|exact Hfi|exact Hts|exact Hd]).
  rewrite (proj2 (preproc_count st smp Hc)).
  rewrite SAMP_BUFF_LEN_val in *. destruct (Z.eqb_spec (count st + 1) 52); lia.
Qed.

Lemma process_sample_valid st smp :
  valid_state st -> valid_state (process_sample st smp).1.
Proof.
  intros H. unfold process_sample; cbv zeta.
  destruct (_ =? 1); cbn [fst]; auto using run_valid, preproc_valid.
Qed.

Lemma run_samples_snoc st smps smp :
  run_samples st (smps ++ [smp]) = (process_sample (run_samples st smps) smp).1.
Proof. unfold run_samples. by rewrite fold_left_app. Qed.

Lemma run_samples_valid st smps :
  valid_state st -> valid_state (run_samples st smps).
Proof.
  intros H. induction smps as [|smp smps IH] using rev_ind; [done|].
  rewrite run_samples_snoc. by apply process_sample_valid.
Qed.

(** ** The filter primitive *)

(** C7. [apply_filter] returns
    [b0*x + b1*x_prev + b2*x_prev_prev - a1*y_prev - a2*y_prev_prev],
    shifts the two input and the two output histories, and leaves the
    coefficients (and the delay constant) as they were. *)
Theorem apply_filter_spec (f : filter_t) (x : float) :
  let y :=
    F32.sub
      (F32.sub
         (F32.add
            (F32.add (F32.mul (b0 f) x) (F32.mul (b1 f) (prev_in f)))
            (F32.mul (b2 f) (prev_prev_in f)))
         (F32.mul (a1 f) (prev_out f)))
      (F32.mul (a2 f) (prev_prev_out f)) in
  let f' := (apply_filter f x).1 in
  (apply_filter f x).2 = y /\
  (prev_prev_in f' = prev_in f /\ prev_in f' = x /\
   prev_prev_out f' = prev_out f /\ prev_out f' = y) /\
  (b0 f' = b0 f /\ b1 f' = b1 f /\ b2 f' = b2 f /\
   a1 f' = a1 f /\ a2 f' = a2 f /\ TC_samples f' = TC_samples f).
Proof. repeat split. Qed.

(** ** The front end *)

Lemma preproc_same_core st a b :
  same_core_input a b -> step_algo_preproc st a = step_algo_preproc st b.
Proof. intros [Ht Hy]. unfold step_algo_preproc. by rewrite Ht, Hy. Qed.

Lemma process_sample_same_core st a b :
  same_core_input a b -> process_sample st a = process_sample st b.
Proof.
  intros H. unfold process_sample. by rewrite (preproc_same_core st a b H).
Qed.

(** C9. Two sample sequences that agree in [timestamp] and [ary] give
    the same final state and the same observations at every sample,
    whatever their [arx], [arz], [grx], [gry], [grz] are. *)
Theorem unused_channels_noninterference (st : state) (s1 s2 : list sample) :
  Forall2 same_core_input s1 s2 -> process st s1 = process st s2.
Proof.
  intros H. revert st.
  induction H as [|a b s1 s2 Hab _ IH]; intros st; [done|].
  cbn [process]. rewrite (process_sample_same_core st a b Hab).
  by rewrite IH.
Qed.

Lemma unused_channels_noninterference_witness :
  Forall2 same_core_input (replicate 60 row_a) (replicate 60 row_b) /\
  process init_state (replicate 60 row_a) = process init_state (replicate 60 row_b).
Proof.
  assert (H : Forall2 same_core_input (replicate 60 row_a) (replicate 60 row_b)).
  { apply Forall2_replicate. split; reflexivity. }
  split; [exact H | exact (unused_channels_noninterference init_state _ _ H)].
Defined.

Lemma process_sample_cases st smp :
  0 <= count st < SAMP_BUFF_LEN ->
  process_sample st smp =
    if count st + 1 =? SAMP_BUFF_LEN
    then (step_algo_run (step_algo_preproc st smp).1, 1)
    else ((step_algo_preproc st smp).1, 0).
Proof.
  intros Hc. unfold process_sample; cbv zeta.
  rewrite (proj1 (preproc_count st smp Hc)).
  by destruct (count st + 1 =? SAMP_BUFF_LEN).
Qed.

Lemma process_sample_count st smp :
  0 <= count st < SAMP_BUFF_LEN ->
  count (process_sample st smp).1 =
    if count st + 1 =? SAMP_BUFF_LEN then 0 else count st + 1.
Proof.
  intros Hc. rewrite (process_sample_cases st smp Hc).
  pose proof (proj2 (preproc_count st smp Hc)) as H.
  destruct (count st + 1 =? SAMP_BUFF_LEN); cbn [fst]; [|exact H].
  unfold step_algo_run; state_proj. exact H.
Qed.

Lemma mod52_step (n : nat) :
  Z.of_nat ((n + 1) mod 52) =
    if Z.of_nat (n mod 52) + 1 =? 52 then 0 else Z.of_nat (n mod 52) + 1.
Proof.
  rewrite !Nat2Z.inj_mod, Nat2Z.inj_add.
  destruct (Z.eqb_spec (Z.of_nat n mod Z.of_nat 52 + 1) 52) as [E|E];
    change (Z.of_nat 52) with 52 in *; change (Z.of_nat 1) with 1 in *;
    Z.div_mod_to_equations; lia.
Qed.

Lemma count_run_samples smps :
  count (run_samples init_state smps) = Z.of_nat (length smps mod 52).
Proof.
  induction smps as [|smp smps IH] using rev_ind; [done|].
  rewrite run_samples_snoc, length_app. cbn [length].
  pose proof (run_samples_valid init_state smps init_valid) as Hv.
  rewrite (process_sample_count _ smp (valid_count _ Hv)), IH, SAMP_BUFF_LEN_val.
  symmetry. apply mod52_step.
Qed.

(** C6. After any sequence of samples pushed from the initial state,
    the front end filters [ary] with the low-pass filter, stores the
    smoothed value and the timestamp at index [count] of the frame
    buffer and touches no other entry, and increments [count]; it
    returns 1 and resets [count] to 0 exactly when [count] has reached
    [SAMP_BUFF_LEN = 52], that is on every 52nd sample, and returns 0
    otherwise; [main]'s loop body runs the detector on exactly the
    calls that returned 1. *)
Theorem preproc_frames (smps : list sample) (smp : sample) :
  let st := run_samples init_state smps in
  let st' := (step_algo_preproc st smp).1 in
  let ret_val := (step_algo_preproc st smp).2 in
  let n := Z.to_nat (count st) in
  SAMP_BUFF_LEN = 52 /\
  count st = Z.of_nat (length smps mod 52) /\
  lp_filter_y st' = (apply_filter (lp_filter_y st) (ary smp)).1 /\
  AccBuff_CHY st' !! n = Some (apply_filter (lp_filter_y st) (ary smp)).2 /\
  AccBuff_TS st' !! n = Some (timestamp smp) /\
  (forall j, j <> n ->
     AccBuff_CHY st' !! j = AccBuff_CHY st !! j /\
     AccBuff_TS st' !! j = AccBuff_TS st !! j) /\
  ((ret_val = 1 /\ count st + 1 = SAMP_BUFF_LEN /\ count st' = 0) \/
   (ret_val = 0 /\ count st + 1 <> SAMP_BUFF_LEN /\ count st' = count st + 1)) /\
  (ret_val = 1 <-> ((length smps + 1) mod 52)%nat = 0%nat) /\
  process_sample st smp =
    (if ret_val =? 1 then step_algo_run st' else st', ret_val).
Proof.
  intros st st' ret_val n.
  pose proof (run_samples_valid init_state smps init_valid) as Hv.
  fold st in Hv. destruct Hv as [Hc _ _ _ _ _ _ _ Hby Hbt _ _ _].
  pose proof (count_run_samples smps) as Hcnt. fold st in Hcnt.
  destruct (preproc_count st smp Hc) as [Hr Hc']. fold ret_val in Hr. fold st' in Hc'.
  assert (Hn : (n < 52)%nat) by (subst n; rewrite SAMP_BUFF_LEN_val in Hc; lia).
  split; [reflexivity|]. split; [exact Hcnt|]. split; [reflexivity|].
  split. { apply list_lookup_insert_eq. rewrite Hby. exact Hn. }
  split. { apply list_lookup_insert_eq. rewrite Hbt. exact Hn. }
  split. { intros j Hj. split; apply list_lookup_insert_ne; intros E; exact (Hj (eq_sym E)). }
  split.
  { rewrite Hr, Hc'. destruct (Z.eqb_spec (count st + 1) SAMP_BUFF_LEN); auto. }
  split.
  { rewrite Hr, Hcnt, SAMP_BUFF_LEN_val.
    pose proof (mod52_step (length smps)) as Hm.
    destruct (Z.eqb_spec (Z.of_nat (length smps mod 52) + 1) 52); split; intros; lia. }
  unfold process_sample; cbv zeta. fold st' ret_val.
  by destruct (ret_val =? 1).
Qed.

(** ** One iteration of the detection loop *)

Ltac locals_proj :=
  cbv zeta;
  cbn [prev_max_val prev_max_ts prev_min_val prev_min_ts new_max_val
       new_max_ts new_min_val new_min_ts avg_max_val avg_min_val
       avg_time_period amp_est count_max_det count_min_det prevAccDer_cur
       set_prevAccDer set_new_max_val set_new_max_ts set_new_min
       set_prev_max_ts set_prev_min_ts commit_max commit_min].

Lemma u32_succ_neq c : u32 (c + 1) <> c.
Proof. unfold u32. Z.div_mod_to_equations. lia. Qed.

Lemma at_index_fields der i l :
  let l0 := at_index der i l in
  prev_max_val l0 = prev_max_val l /\ prev_max_ts l0 = prev_max_ts l /\
  prev_min_val l0 = prev_min_val l /\ prev_min_ts l0 = prev_min_ts l /\
  count_max_det l0 = count_max_det l /\ count_min_det l0 = count_min_det l /\
  max_search l0 = max_search l.
Proof. unfold at_index, max_search. by destruct (delta <=? i)%nat. Qed.

Lemma detect_iter_at_index der filt ts l i :
  detect_iter der filt ts l i =
    if max_search (at_index der i l)
    then search_max der filt ts i (at_index der i l)
    else search_min der filt ts i (at_index der i l).
Proof. reflexivity. Qed.

(** What the max branch can do to the fields the claims speak of. *)
Lemma search_max_effect der filt ts i l :
  let l' := search_max der filt ts i l in
  prev_min_val l' = prev_min_val l /\ prev_min_ts l' = prev_min_ts l /\
  count_min_det l' = count_min_det l /\
  ((count_max_det l' = count_max_det l /\ prev_max_val l' = prev_max_val l /\
    (prev_max_ts l' = prev_max_ts l \/
     (dead_time_passed (ts !!! i) (prev_max_ts l) = true /\
      prev_max_ts l' = F32.sub (ts !!! i) MAX_TIME_PERIOD_SEC))) \/
   (count_max_det l' = u32 (count_max_det l + 1) /\
    falling_zc der i l = true /\
    dead_time_passed (ts !!! i) (prev_max_ts l) = true /\
    separated (filt !!! i) (prev_min_val l) = true /\
    prev_max_val l' = filt !!! i /\ prev_max_ts l' = ts !!! i)).
Proof.
  unfold search_max.
  destruct (falling_zc der i l) eqn:Hz; [|by auto 10].
  destruct (dead_time_passed (ts !!! i) (prev_max_ts l)) eqn:Hd; [|by auto 10].
  locals_proj.
  destruct (F64.gtb (F64.fabs (F64.of_float (filt !!! i))) CLOSE_TO_ZERO);
    [|locals_proj; by auto 10].
  destruct (F32.gtb (ts !!! i) (F32.add (prev_max_ts l) MAX_TIME_PERIOD_SEC));
    locals_proj;
    (destruct (separated (filt !!! i) (prev_min_val l)) eqn:Hs;
       locals_proj; do 3 (split; [reflexivity|]); [right|left]; auto 10).
Qed.

(** What the min branch can do to the same fields. *)
Lemma search_min_effect der filt ts i l :
  let l' := search_min der filt ts i l in
  prev_max_val l' = prev_max_val l /\ prev_max_ts l' = prev_max_ts l /\
  count_max_det l' = count_max_det l /\
  ((count_min_det l' = count_min_det l /\ prev_min_val l' = prev_min_val l /\
    (prev_min_ts l' = prev_min_ts l \/
     (dead_time_passed (ts !!! i) (prev_min_ts l) = true /\
      prev_min_ts l' = F32.sub (ts !!! i) MAX_TIME_PERIOD_SEC))) \/
   (count_min_det l' = u32 (count_min_det l + 1) /\
    rising_zc der i l = true /\
    dead_time_passed (ts !!! i) (prev_min_ts l) = true /\
    separated (prev_max_val l) (filt !!! i) = true /\
    prev_min_val l' = filt !!! i /\ prev_min_ts l' = ts !!! i)).
Proof.
  unfold search_min.
  destruct (rising_zc der i l) eqn:Hz; [|by auto 10].
  destruct (dead_time_passed (ts !!! i) (prev_min_ts l)) eqn:Hd; [|by auto 10].
  locals_proj.
  destruct (F32.gtb (ts !!! i) (F32.add (prev_min_ts l) MAX_TIME_PERIOD_SEC));
    locals_proj;
    (destruct (separated (prev_max_val l) (filt !!! i)) eqn:Hs;
       locals_proj; do 3 (split; [reflexivity|]); [right|left]; auto 10).
Qed.

(** ** Order facts on the float comparison *)

Lemma SFcompare_antisym x y :
  SFcompare y x = option_map CompOpp (SFcompare x y).
Proof.
  destruct x as [sx|sx| |sx mx ex], y as [sy|sy| |sy my ey]; cbn [SFcompare option_map];
    try reflexivity;
    try (destruct sx; reflexivity); try (destruct sy; reflexivity);
    try (destruct sx, sy; reflexivity).
  rewrite (Z.compare_antisym ex ey).
  pose proof (Pos.compare_cont_antisym mx my Eq) as H. cbn [CompOpp] in H.
  rewrite <- H.
  destruct sx, sy; cbn [CompOpp option_map]; try reflexivity;
    destruct (ex ?= ey); cbn [CompOpp]; try reflexivity.
Qed.

Lemma SFltb_asym x y : SFltb x y = true -> SFltb y x = false.
Proof.
  unfold SFltb. rewrite (SFcompare_antisym x y).
  by destruct (SFcompare x y) as [[]|].
Qed.

(** ** The detection loop of one run *)

Lemma locals_before_S st i :
  locals_before st (S i) =
    detect_iter (batch_der st) (s_ext st) (ts_ext st) (locals_before st i) i.
Proof. unfold locals_before. by rewrite seq_S, fold_left_app. Qed.

Lemma run_detect_locals st :
  run_detect st = locals_before st (Z.to_nat SAMP_BUFF_LEN).
Proof.
  unfold run_detect, locals_before, batch_der, s_ext, ts_ext, frame_indices.
  reflexivity.
Qed.

(** The effect of iteration [i] of a run on the detector variables. *)
Lemma iteration_effect st i :
  let l := locals_before st i in
  let l' := locals_before st (S i) in
  (max_search (deciding st i) = true /\
   prev_min_val l' = prev_min_val l /\ prev_min_ts l' = prev_min_ts l /\
   count_min_det l' = count_min_det l /\
   ((count_max_det l' = count_max_det l /\ prev_max_val l' = prev_max_val l /\
     (prev_max_ts l' = prev_max_ts l \/
      (dead_time_passed (ts_ext st !!! i) (prev_max_ts l) = true /\
       prev_max_ts l' = F32.sub (ts_ext st !!! i) MAX_TIME_PERIOD_SEC))) \/
    (count_max_det l' = u32 (count_max_det l + 1) /\
     falling_zc (batch_der st) i (deciding st i) = true /\
     dead_time_passed (ts_ext st !!! i) (prev_max_ts l) = true /\
     separated (s_ext st !!! i) (prev_min_val l) = true /\
     prev_max_val l' = s_ext st !!! i /\ prev_max_ts l' = ts_ext st !!! i))) \/
  (max_search (deciding st i) = false /\
   prev_max_val l' = prev_max_val l /\ prev_max_ts l' = prev_max_ts l /\
   count_max_det l' = count_max_det l /\
   ((count_min_det l' = count_min_det l /\ prev_min_val l' = prev_min_val l /\
     (prev_min_ts l' = prev_min_ts l \/
      (dead_time_passed (ts_ext st !!! i) (prev_min_ts l) = true /\
       prev_min_ts l' = F32.sub (ts_ext st !!! i) MAX_TIME_PERIOD_SEC))) \/
    (count_min_det l' = u32 (count_min_det l + 1) /\
     rising_zc (batch_der st) i (deciding st i) = true /\
     dead_time_passed (ts_ext st !!! i) (prev_min_ts l) = true /\
     separated (prev_max_val l) (s_ext st !!! i) = true /\
     prev_min_val l' = s_ext st !!! i /\ prev_min_ts l' = ts_ext st !!! i))).
Proof.
  cbv zeta. rewrite locals_before_S, detect_iter_at_index. fold (deciding st i).
  destruct (at_index_fields (batch_der st) i (locals_before st i))
    as (E1 & E2 & E3 & E4 & E5 & E6 & _).
  fold (deciding st i) in E1, E2, E3, E4, E5, E6.
  destruct (max_search (deciding st i)); [left|right]; (split; [reflexivity|]).
  - pose proof (search_max_effect (batch_der st) (s_ext st) (ts_ext st) i (deciding st i)) as H.
    cbv zeta in H. rewrite E1, E2, E3, E4, E5, E6 in H. exact H.
  - pose proof (search_min_effect (batch_der st) (s_ext st) (ts_ext st) i (deciding st i)) as H.
    cbv zeta in H. rewrite E1, E2, E3, E4, E5, E6 in H. exact H.
Qed.

Lemma counts_bounded st i :
  (i <= 52)%nat ->
  0 <= count_max_det (locals_before st i) <= Z.of_nat i /\
  0 <= count_min_det (locals_before st i) <= Z.of_nat i.
Proof.
  induction i as [|i IH]; intros Hi.
  - unfold locals_before. cbn [seq fold_left init_locals count_max_det count_min_det]. lia.
  - destruct IH as [IHa IHb]; [lia|].
    destruct (iteration_effect st i) as [(_ & _ & _ & Em & [(Ea & _)|(Ea & _)])
                                        |(_ & _ & _ & Ea & [(Em & _)|(Em & _)])];
      rewrite Ea, Em, ?u32_small by (unfold is_uint; lia); lia.
Qed.

(** ** Amplitude gating *)

Lemma commit_min_gate st i :
  commits_min st i ->
  min_candidate st i = true /\
  F64.gtb (F64.of_float (swing st i)) CLOSE_TO_ZERO = true.
Proof.
  unfold commits_min, min_candidate, swing.
  destruct (iteration_effect st i) as [(_ & _ & _ & Em & _)
      |(Hm & _ & _ & _ & [(Em & _)|(_ & Hz & Hd & Hs & _)])]; intros Hc.
  - by rewrite Em in Hc.
  - by rewrite Em in Hc.
  - by rewrite Hm, Hz, Hd.
Qed.

Lemma small_swings_no_min st i :
  small_swings st -> (i <= 52)%nat -> count_min_det (locals_before st i) = 0.
Proof.
  intros Hq. induction i as [|i IH]; intros Hi; [reflexivity|].
  destruct (decide (count_min_det (locals_before st (S i)) =
                    count_min_det (locals_before st i))) as [E|E].
  - rewrite E. apply IH. lia.
  - destruct (commit_min_gate st i E) as [Hc Hs].
    apply Hq in Hc; [|lia]. apply SFltb_asym in Hc.
    unfold F64.gtb in Hs. unfold F64.ltb in Hc. congruence.
Qed.

Lemma run_step_count st :
  Out.step_count (step_algo_output (step_algo_run st)) =
    u32 (Out.step_count (step_algo_output st) + count_min_det (run_detect st)).
Proof. reflexivity. Qed.

Lemma small_swings_step_count st :
  valid_state st -> small_swings st ->
  Out.step_count (step_algo_output (step_algo_run st)) =
    Out.step_count (step_algo_output st).
Proof.
  intros Hv Hq. rewrite run_step_count, run_detect_locals.
  rewrite (small_swings_no_min st _ Hq) by (vm_compute; lia).
  rewrite Z.add_0_r. apply u32_small, Hv.
Qed.

Lemma run_samples_cons st smp smps :
  run_samples st (smp :: smps) = run_samples (process_sample st smp).1 smps.
Proof. reflexivity. Qed.

Lemma small_swings_run st smps :
  valid_state st ->
  (forall e, e ∈ detector_entries st smps -> small_swings e) ->
  forall k,
    Out.step_count (step_algo_output (run_samples st (take k smps))) =
      Out.step_count (step_algo_output st).
Proof.
  revert st. induction smps as [|smp smps IH]; intros st Hv Hq k.
  { by rewrite take_nil. }
  destruct k as [|k]; [reflexivity|].
  cbn [take]. rewrite run_samples_cons.
  cbn [detector_entries] in Hq. cbv zeta in Hq.
  pose proof (preproc_valid st smp Hv) as Hv1.
  unfold process_sample; cbv zeta.
  destruct ((step_algo_preproc st smp).2 =? 1); cbn [fst].
  - rewrite IH.
    + etrans; [apply small_swings_step_count; [exact Hv1|]|reflexivity].
      apply Hq. constructor.
    + by apply run_valid.
    + intros e He. apply Hq. by constructor.
  - rewrite IH; [reflexivity|exact Hv1|exact Hq].
Qed.

(** What the test of line 331 guarantees.  A minimum is committed, and
    hence [count_min_det] and [step_count] move, only at a candidate
    minimum that lies more than [CLOSE_TO_ZERO] below the recorded
    [prev_max_val], which is the last committed maximum or, before any,
    the initial 0.0; so when every candidate minimum of every run over
    an input is closer than that to the recorded value, [step_count]
    is after every sample what it was at the start. *)
Theorem amplitude_gating (st : state) (smps : list sample) :
  valid_state st ->
  (forall e, e ∈ detector_entries st smps -> small_swings e) ->
  (forall e i, commits_min e i ->
     min_candidate e i = true /\
     F64.gtb (F64.of_float (swing e i)) CLOSE_TO_ZERO = true) /\
  (forall k,
     Out.step_count (step_algo_output (run_samples st (take k smps))) =
       Out.step_count (step_algo_output st)).
Proof.
  intros Hv Hq. split.
  - intros e i. apply commit_min_gate.
  - by apply small_swings_run.
Qed.

(** ** Dead-time gating *)

Lemma commit_max_gate st i :
  commits_max st i ->
  dead_time_passed (ts_ext st !!! i) (prev_max_ts (locals_before st i)) = true /\
  prev_max_val (locals_before st (S i)) = s_ext st !!! i /\
  prev_max_ts (locals_before st (S i)) = ts_ext st !!! i.
Proof.
  unfold commits_max.
  destruct (iteration_effect st i) as [(_ & _ & _ & _ & [(Em & _)|(_ & _ & Hd & _ & Hv & Ht)])
      |(_ & _ & _ & Em & _)]; intros Hc; try by rewrite Em in Hc.
  auto.
Qed.

Lemma commit_min_record st i :
  commits_min st i ->
  dead_time_passed (ts_ext st !!! i) (prev_min_ts (locals_before st i)) = true /\
  prev_min_val (locals_before st (S i)) = s_ext st !!! i /\
  prev_min_ts (locals_before st (S i)) = ts_ext st !!! i.
Proof.
  unfold commits_min.
  destruct (iteration_effect st i) as [(_ & _ & _ & Em & _)
      |(_ & _ & _ & _ & [(Em & _)|(_ & _ & Hd & _ & Hv & Ht)])]; intros Hc;
    try by rewrite Em in Hc.
  auto.
Qed.

(** While the dead time since the recorded maximum has not passed, the
    record and the count of maxima stay as they are. *)
Lemma max_window st i j :
  (i <= j)%nat ->
  (forall k, (i <= k < j)%nat ->
     dead_time_passed (ts_ext st !!! k) (prev_max_ts (locals_before st i)) = false) ->
  prev_max_ts (locals_before st j) = prev_max_ts (locals_before st i) /\
  count_max_det (locals_before st j) = count_max_det (locals_before st i).
Proof.
  induction j as [|j IH]; intros Hij Hw.
  { by replace i with 0%nat by lia. }
  destruct (decide (i = S j)) as [->|Hne]; [done|].
  destruct IH as [IHt IHc]; [lia|intros k Hk; apply Hw; lia|].
  pose proof (Hw j ltac:(lia)) as Hj. rewrite <- IHt in Hj.
  destruct (iteration_effect st j) as [(_ & _ & _ & _ & [(Ec & _ & [Et|[Hd _]])|(_ & _ & Hd & _)])
      |(_ & _ & Et & Ec & _)]; try congruence; split; congruence.
Qed.

Lemma min_window st i j :
  (i <= j)%nat ->
  (forall k, (i <= k < j)%nat ->
     dead_time_passed (ts_ext st !!! k) (prev_min_ts (locals_before st i)) = false) ->
  prev_min_ts (locals_before st j) = prev_min_ts (locals_before st i) /\
  count_min_det (locals_before st j) = count_min_det (locals_before st i).
Proof.
  induction j as [|j IH]; intros Hij Hw.
  { by replace i with 0%nat by lia. }
  destruct (decide (i = S j)) as [->|Hne]; [done|].
  destruct IH as [IHt IHc]; [lia|intros k Hk; apply Hw; lia|].
  pose proof (Hw j ltac:(lia)) as Hj. rewrite <- IHt in Hj.
  destruct (iteration_effect st j) as [(_ & _ & Et & Ec & _)
      |(_ & _ & _ & _ & [(Ec & _ & [Et|[Hd _]])|(_ & _ & Hd & _)])]; try congruence; split; congruence.
Qed.

Lemma locals_before_0 st : locals_before st 0 = init_locals st.
Proof. reflexivity. Qed.

(** C5. For each kind of extremum: a commit is admitted only if its
    timestamp exceeds the recorded timestamp of that kind by more than
    [NO_DETECT_DUR_SEC], and the commit records its own timestamp;
    hence after a commit at index [i] no later index [j] of the run
    commits the same kind while the timestamps from [i+1] to [j] are
    not more than [NO_DETECT_DUR_SEC] beyond the committed one; and at
    the start of a run the same holds with the timestamp carried in
    [prev_max_ts] ([prev_min_ts]) from the runs before. *)
Theorem dead_time_gating (st : state) :
  (forall i, commits_max st i ->
     dead_time_passed (ts_ext st !!! i) (prev_max_ts (locals_before st i)) = true /\
     prev_max_ts (locals_before st (S i)) = ts_ext st !!! i) /\
  (forall i, commits_min st i ->
     dead_time_passed (ts_ext st !!! i) (prev_min_ts (locals_before st i)) = true /\
     prev_min_ts (locals_before st (S i)) = ts_ext st !!! i) /\
  (forall i j, commits_max st i -> (i < j)%nat ->
     (forall k, (i < k <= j)%nat ->
        dead_time_passed (ts_ext st !!! k) (ts_ext st !!! i) = false) ->
     ~ commits_max st j) /\
  (forall i j, commits_min st i -> (i < j)%nat ->
     (forall k, (i < k <= j)%nat ->
        dead_time_passed (ts_ext st !!! k) (ts_ext st !!! i) = false) ->
     ~ commits_min st j) /\
  (forall j,
     (forall k, (k <= j)%nat ->
        dead_time_passed (ts_ext st !!! k)
          (Out.prev_max_ts (step_algo_output st)) = false) ->
     ~ commits_max st j) /\
  (forall j,
     (forall k, (k <= j)%nat ->
        dead_time_passed (ts_ext st !!! k)
          (Out.prev_min_ts (step_algo_output st)) = false) ->
     ~ commits_min st j).
Proof.
  split; [|split; [|split; [|split; [|split]]]].
  - intros i Hc. destruct (commit_max_gate st i Hc) as (? & ? & ?). auto.
  - intros i Hc. destruct (commit_min_record st i Hc) as (? & ? & ?). auto.
  - intros i j Hc Hij Hw Hj.
    destruct (commit_max_gate st i Hc) as (_ & _ & Ht).
    destruct (max_window st (S i) j) as [Et _]; [lia| |].
    { intros k Hk. rewrite Ht. apply Hw. lia. }
    destruct (commit_max_gate st j Hj) as (Hd & _).
    rewrite Et, Ht, Hw in Hd by lia. discriminate.
  - intros i j Hc Hij Hw Hj.
    destruct (commit_min_record st i Hc) as (_ & _ & Ht).
    destruct (min_window st (S i) j) as [Et _]; [lia| |].
    { intros k Hk. rewrite Ht. apply Hw. lia. }
    destruct (commit_min_record st j Hj) as (Hd & _).
    rewrite Et, Ht, Hw in Hd by lia. discriminate.
  - intros j Hw Hj.
    destruct (max_window st 0 j) as [Et _]; [lia| |].
    { intros k Hk. apply Hw. lia. }
    destruct (commit_max_gate st j Hj) as (Hd & _).
    rewrite Et in Hd. rewrite locals_before_0 in Hd.
    cbn [init_locals prev_max_ts] in Hd. rewrite Hw in Hd by lia. discriminate.
  - intros j Hw Hj.
    destruct (min_window st 0 j) as [Et _]; [lia| |].
    { intros k Hk. apply Hw. lia. }
    destruct (commit_min_record st j Hj) as (Hd & _).
    rewrite Et in Hd. rewrite locals_before_0 in Hd.
    cbn [init_locals prev_min_ts] in Hd. rewrite Hw in Hd by lia. discriminate.
Qed.

(** ** The extended arrays *)

Lemma ext_index TC i :
  0 <= TC <= MAX_TC_SAMPLES -> (i < 52)%nat ->
  Z.to_nat (u32 (TC + Z.of_nat i)) = (Z.to_nat TC + i)%nat.
Proof.
  unfold MAX_TC_SAMPLES. intros HTC Hi.
  rewrite u32_small by (unfold is_uint; lia). lia.
Qed.

(** The first loop writes the frame behind the first [TC] entries of the
    extended arrays and leaves these entries, and everything after the
    frame, as they were. *)
Lemma deriv_fold_ext TC by_ bts n acc :
  0 <= TC <= MAX_TC_SAMPLES -> (n <= 52)%nat ->
  length acc.1.2 = 72%nat -> length acc.2 = 72%nat ->
  let K := Z.to_nat TC in
  let r := fold_left (deriv_iter TC by_ bts) (seq 0 n) acc in
  forall m,
    r.1.2 !!! m = (if decide (K <= m < K + n)%nat then by_ !!! (m - K)%nat
                   else acc.1.2 !!! m) /\
    r.2 !!! m = (if decide (K <= m < K + n)%nat then bts !!! (m - K)%nat
                 else acc.2 !!! m).
Proof.
  intros HTC Hn Hl1 Hl2 K. cbv zeta.
  induction n as [|n IH]; intros m.
  { cbn [seq fold_left]. case_decide; [lia|done]. }
  rewrite seq_S, fold_left_app. cbn [fold_left plus].
  pose proof (deriv_fold_lengths TC by_ bts (seq 0 n) acc) as (_ & _ & L1 & L2).
  cbv zeta in L1, L2.
  destruct (IH ltac:(lia) m) as [IH1 IH2].
  destruct (fold_left (deriv_iter TC by_ bts) (seq 0 n) acc) as [[[ll der] filt] ts].
  cbn [fst snd] in *. cbn [deriv_iter]. cbv zeta. cbn [fst snd].
  rewrite (ext_index TC n HTC) by lia. fold K.
  rewrite !list_lookup_total_insert, L1, L2, Hl1, Hl2, IH1, IH2.
  unfold MAX_TC_SAMPLES in HTC.
  repeat case_decide; try lia; split; try reflexivity;
    match goal with H : _ /\ _ |- _ => destruct H as [-> _] end;
    f_equal; lia.
Qed.

Lemma ext_arrays st i :
  valid_state st -> (i < 52)%nat ->
  let K := Z.to_nat (TC_samples (ll_filter_y st)) in
  s_ext st !!! i =
    (if decide (i < K)%nat then AccFilt st !!! i
     else AccBuff_CHY st !!! (i - K)%nat) /\
  ts_ext st !!! i =
    (if decide (i < K)%nat then TimeStamps st !!! i
     else AccBuff_TS st !!! (i - K)%nat) /\
  s_ext st !!! (K + i)%nat = AccBuff_CHY st !!! i /\
  ts_ext st !!! (K + i)%nat = AccBuff_TS st !!! i.
Proof.
  intros Hv Hi K.
  pose proof (deriv_fold_ext (TC_samples (ll_filter_y st)) (AccBuff_CHY st)
                (AccBuff_TS st) 52
                (ll_filter_y st, AccDer st, AccFilt st, TimeStamps st)
                (valid_TC _ Hv) ltac:(lia) (valid_filt _ Hv) (valid_ts _ Hv)) as H.
  cbv zeta in H. cbn [fst snd] in H. fold K in H.
  change (fold_left _ (seq 0 52) _) with (run_deriv st) in H.
  fold (s_ext st) (ts_ext st) in H.
  destruct (H i) as [H1 H2]. destruct (H (K + i)%nat) as [H3 H4].
  rewrite H1, H2, H3, H4.
  repeat case_decide; try lia; repeat split; f_equal; lia.
Qed.

Lemma deciding_fields st i :
  prev_max_ts (deciding st i) = prev_max_ts (locals_before st i) /\
  prev_min_ts (deciding st i) = prev_min_ts (locals_before st i).
Proof.
  destruct (at_index_fields (batch_der st) i (locals_before st i))
    as (_ & E2 & _ & E4 & _). by split.
Qed.

Lemma examined_max st i :
  max_candidate st i = true ->
  new_max_val (locals_before st (S i)) = s_ext st !!! i.
Proof.
  unfold max_candidate. rewrite <- (proj1 (deciding_fields st i)).
  rewrite locals_before_S, detect_iter_at_index. fold (deciding st i).
  intros [[-> Hz]%andb_prop Hd]%andb_prop.
  unfold search_max. rewrite Hz, Hd. locals_proj.
  destruct (F64.gtb _ CLOSE_TO_ZERO); [|reflexivity]. locals_proj.
  destruct (F32.gtb _ _); locals_proj; destruct (separated _ _); reflexivity.
Qed.

Lemma examined_min st i :
  min_candidate st i = true ->
  new_min_val (locals_before st (S i)) = s_ext st !!! i /\
  new_min_ts (locals_before st (S i)) = ts_ext st !!! i.
Proof.
  unfold min_candidate. rewrite <- (proj2 (deciding_fields st i)).
  rewrite locals_before_S, detect_iter_at_index. fold (deciding st i).
  intros [[Hm%negb_true_iff Hz]%andb_prop Hd]%andb_prop.
  rewrite Hm. unfold search_min. rewrite Hz, Hd. locals_proj.
  destruct (F32.gtb _ _); locals_proj; destruct (separated _ _); by split.
Qed.

(** C1, as the code has it.  At every index [i] of the detection loop the
    candidate the detector examines, and the value and timestamp it
    commits, are the entries at index [i] of the extended arrays, not
    at [K + i]: for [i >= K] the sample [i - K] of the current frame,
    for [i < K] the entry [i] of the tail carried from the frame
    before.  The entry at [K + i] is sample [i] of the current frame. *)
Theorem candidate_index (st : state) (i : nat) :
  let K := Z.to_nat (TC_samples (ll_filter_y st)) in
  (max_candidate st i = true ->
     new_max_val (locals_before st (S i)) = s_ext st !!! i) /\
  (min_candidate st i = true ->
     new_min_val (locals_before st (S i)) = s_ext st !!! i /\
     new_min_ts (locals_before st (S i)) = ts_ext st !!! i) /\
  (commits_max st i ->
     prev_max_val (locals_before st (S i)) = s_ext st !!! i /\
     prev_max_ts (locals_before st (S i)) = ts_ext st !!! i) /\
  (commits_min st i ->
     prev_min_val (locals_before st (S i)) = s_ext st !!! i /\
     prev_min_ts (locals_before st (S i)) = ts_ext st !!! i) /\
  (valid_state st -> (i < 52)%nat ->
     s_ext st !!! i =
       (if decide (i < K)%nat then AccFilt st !!! i
        else AccBuff_CHY st !!! (i - K)%nat) /\
     ts_ext st !!! i =
       (if decide (i < K)%nat then TimeStamps st !!! i
        else AccBuff_TS st !!! (i - K)%nat) /\
     s_ext st !!! (K + i)%nat = AccBuff_CHY st !!! i /\
     ts_ext st !!! (K + i)%nat = AccBuff_TS st !!! i).
Proof.
  intros K. split; [apply examined_max|]. split; [apply examined_min|].
  split. { intros Hc. by destruct (commit_max_gate st i Hc) as (_ & ? & ?). }
  split. { intros Hc. by destruct (commit_min_record st i Hc) as (_ & ? & ?). }
  apply ext_arrays.
Qed.

(** ** The counters *)

(** What one detector run does to the four counters: the total gets the
    batch's [count_min_det], and so does the per-class counter of the
    batch's label, unless the label is [STATIC]. *)
Lemma run_counters st :
  let n := count_min_det (run_detect st) in
  let st' := step_algo_run st in
  Out.step_count (step_algo_output st') =
    u32 (Out.step_count (step_algo_output st) + n) /\
  match Out.step_type (step_algo_output st') with
  | STATIC =>
      num_steps_walk st' = num_steps_walk st /\
      num_steps_run st' = num_steps_run st /\
      num_steps_hop st' = num_steps_hop st
  | WALK =>
      num_steps_walk st' = u32 (num_steps_walk st + n) /\
      num_steps_run st' = num_steps_run st /\
      num_steps_hop st' = num_steps_hop st
  | RUN =>
      num_steps_walk st' = num_steps_walk st /\
      num_steps_run st' = u32 (num_steps_run st + n) /\
      num_steps_hop st' = num_steps_hop st
  | HOP =>
      num_steps_walk st' = num_steps_walk st /\
      num_steps_run st' = num_steps_run st /\
      num_steps_hop st' = u32 (num_steps_hop st + n)
  end.
Proof.
  cbv zeta. split; [reflexivity|].
  unfold step_algo_run; state_proj. unfold classify.
  destruct (F64.leb _ SMALL_AMP); [destruct (F64.leb _ SLOW_FREQ)|
    destruct (F64.geb _ LARGE_AMP); destruct (F64.geb _ FAST_FREQ)];
    cbn [fst snd]; auto.
Qed.

Lemma preproc_counters st smp :
  let st' := (step_algo_preproc st smp).1 in
  step_algo_output st' = step_algo_output st /\
  num_steps_walk st' = num_steps_walk st /\
  num_steps_run st' = num_steps_run st /\
  num_steps_hop st' = num_steps_hop st.
Proof. cbv zeta. by repeat split. Qed.

Lemma run_count st : count (step_algo_run st) = count st.
Proof. reflexivity. Qed.

Lemma run_count_min_bound st : 0 <= count_min_det (run_detect st) <= 52.
Proof.
  rewrite run_detect_locals.
  destruct (counts_bounded st (Z.to_nat SAMP_BUFF_LEN)) as [_ H];
    [vm_compute; lia|].
  change (Z.of_nat (Z.to_nat SAMP_BUFF_LEN)) with 52 in H. exact H.
Qed.

(** From the initial state, no counter exceeds the number of samples
    that were in the frames processed so far. *)
Lemma counters_bounded smps :
  Z.of_nat (length smps) < 2 ^ 32 ->
  let st := run_samples init_state smps in
  let b := Z.of_nat (length smps) - count st in
  0 <= Out.step_count (step_algo_output st) <= b /\
  0 <= num_steps_walk st <= b /\
  0 <= num_steps_run st <= b /\
  0 <= num_steps_hop st <= b.
Proof.
  induction smps as [|smp smps IH] using rev_ind; intros Hlen; cbv zeta.
  { vm_compute. repeat split; congruence. }
  rewrite length_app in Hlen |- *. cbn [length] in Hlen |- *.
  rewrite run_samples_snoc.
  specialize (IH ltac:(lia)). cbv zeta in IH.
  pose proof (run_samples_valid init_state smps init_valid) as Hv.
  set (st := run_samples init_state smps) in *.
  pose proof (valid_count _ Hv) as Hc. rewrite SAMP_BUFF_LEN_val in Hc.
  rewrite (process_sample_cases st smp (valid_count _ Hv)), SAMP_BUFF_LEN_val.
  destruct (preproc_count st smp (valid_count _ Hv)) as [_ Hc'].
  rewrite SAMP_BUFF_LEN_val in Hc'.
  destruct (preproc_counters st smp) as (Eo & Ew & Er & Eh). cbv zeta in Eo, Ew, Er, Eh.
  destruct (Z.eqb_spec (count st + 1) 52) as [E|E]; cbn [fst].
  - destruct (run_counters (step_algo_preproc st smp).1) as [Es Ec].
    cbv zeta in Es, Ec.
    pose proof (run_count_min_bound (step_algo_preproc st smp).1) as Hn.
    rewrite run_count.
    rewrite Es. rewrite Hc'.
    destruct (Out.step_type _); destruct Ec as (-> & -> & ->);
      rewrite Eo, ?Ew, ?Er, ?Eh, !u32_small by (unfold is_uint; lia); lia.
  - rewrite Hc', Eo, Ew, Er, Eh. lia.
Qed.

(** C8. From the initial state, and for inputs of fewer than 2^32
    samples, no call decreases a counter: each of [step_count],
    [num_steps_walk], [num_steps_run] and [num_steps_hop] is after the
    call at least what it was before. *)
Theorem counters_monotone (smps : list sample) (smp : sample) :
  Z.of_nat (length smps) + 1 < 2 ^ 32 ->
  let st := run_samples init_state smps in
  let st' := (process_sample st smp).1 in
  Out.step_count (step_algo_output st) <= Out.step_count (step_algo_output st') /\
  num_steps_walk st <= num_steps_walk st' /\
  num_steps_run st <= num_steps_run st' /\
  num_steps_hop st <= num_steps_hop st'.
Proof.
  intros Hlen. cbv zeta.
  pose proof (counters_bounded smps ltac:(lia)) as Hb. cbv zeta in Hb.
  pose proof (run_samples_valid init_state smps init_valid) as Hv.
  set (st := run_samples init_state smps) in *.
  pose proof (valid_count _ Hv) as Hc. rewrite SAMP_BUFF_LEN_val in Hc.
  rewrite (process_sample_cases st smp (valid_count _ Hv)), SAMP_BUFF_LEN_val.
  destruct (preproc_counters st smp) as (Eo & Ew & Er & Eh). cbv zeta in Eo, Ew, Er, Eh.
  destruct (Z.eqb_spec (count st + 1) 52) as [E|E]; cbn [fst].
  - destruct (run_counters (step_algo_preproc st smp).1) as [Es Ec].
    cbv zeta in Es, Ec.
    pose proof (run_count_min_bound (step_algo_preproc st smp).1) as Hn.
    rewrite Es.
    destruct (Out.step_type _); destruct Ec as (-> & -> & ->);
      rewrite Eo, ?Ew, ?Er, ?Eh, !u32_small by (unfold is_uint; lia); lia.
  - rewrite Eo, Ew, Er, Eh. lia.
Qed.

Lemma counters_monotone_witness :
  Z.of_nat (length (main_samples F32.zero (replicate 51 (F32.of_Z 10)))) + 1 < 2 ^ 32 /\
  let st := run_samples init_state (main_samples F32.zero (replicate 51 (F32.of_Z 10))) in
  let st' := (process_sample st row_a).1 in
  Out.step_count (step_algo_output st) <= Out.step_count (step_algo_output st') /\
  num_steps_walk st <= num_steps_walk st' /\
  num_steps_run st <= num_steps_run st' /\
  num_steps_hop st <= num_steps_hop st'.
Proof.
  assert (H : Z.of_nat (length (main_samples F32.zero (replicate 51 (F32.of_Z 10)))) + 1 < 2 ^ 32)
    by (vm_compute; reflexivity).
  split; [exact H|]. exact (counters_monotone _ row_a H).
Defined.

(** ** The total and the per-class counters *)

Lemma u32_u32_add a b : u32 (u32 a + b) = u32 (a + b).
Proof. unfold u32. apply Z.add_mod_idemp_l. lia. Qed.

Lemma counters_sum smps : forall st c,
  Out.step_count (step_algo_output st) =
    u32 (num_steps_walk st + num_steps_run st + num_steps_hop st + c) ->
  let st' := run_samples st smps in
  Out.step_count (step_algo_output st') =
    u32 (num_steps_walk st' + num_steps_run st' + num_steps_hop st'
         + (c + stationary_steps st smps)).
Proof.
  induction smps as [|smp smps IH]; intros st c Hs; cbv zeta.
  { unfold stationary_steps. cbn [run_samples fold_left detector_entries foldr].
    by rewrite Z.add_0_r. }
  rewrite run_samples_cons. unfold stationary_steps.
  cbn [detector_entries]. cbv zeta.
  unfold process_sample; cbv zeta.
  destruct (preproc_counters st smp) as (Eo & Ew & Er & Eh). cbv zeta in Eo, Ew, Er, Eh.
  set (st1 := (step_algo_preproc st smp).1) in *.
  destruct ((step_algo_preproc st smp).2 =? 1); cbn [fst foldr].
  - fold (stationary_steps (step_algo_run st1) smps).
    rewrite (Z.add_assoc c). apply IH.
    destruct (run_counters st1) as [Es Ec]. cbv zeta in Es, Ec.
    rewrite Es, Eo, Hs, u32_u32_add.
    destruct (Out.step_type (step_algo_output (step_algo_run st1)));
      destruct Ec as (-> & -> & ->); rewrite Ew, Er, Eh;
      (case_decide; [|try done]); try done;
      unfold u32; Z.div_mod_to_equations; lia.
  - fold (stationary_steps st1 smps). apply IH. by rewrite Eo, Ew, Er, Eh.
Qed.

(** ** Checking the candidates of a run in one pass *)

Lemma swings_check_sound st n a :
  swings_check (batch_der st) (s_ext st) (ts_ext st) (seq a n)
               (locals_before st a) = true ->
  forall i, (a <= i < a + n)%nat -> min_candidate st i = true ->
    F64.ltb (F64.of_float (swing st i)) CLOSE_TO_ZERO = true.
Proof.
  revert a. induction n as [|n IH]; intros a Hc i Hi Hm; [lia|].
  cbn [seq swings_check] in Hc. apply andb_prop in Hc as [H1 H2].
  rewrite <- locals_before_S in H2.
  destruct (decide (i = a)) as [->|Hne].
  - unfold min_candidate, deciding in Hm. rewrite Hm in H1. exact H1.
  - apply (IH (S a) H2); [lia|exact Hm].
Qed.

Lemma small_swings_checked st smps :
  forallb (fun e => swings_check (batch_der e) (s_ext e) (ts_ext e)
                                 (seq 0 52) (init_locals e))
          (detector_entries st smps) = true ->
  forall e, e ∈ detector_entries st smps -> small_swings e.
Proof.
  intros H e He i Hi Hm. rewrite forallb_forall in H.
  apply list_elem_of_In in He.
  apply (swings_check_sound e 52 0 (H e He)); [lia|exact Hm].
Qed.

Lemma forallb_range (P : nat -> bool) a n :
  forallb P (seq a n) = true -> forall k, (a <= k < a + n)%nat -> P k = true.
Proof.
  rewrite forallb_forall. intros H k Hk. apply H, in_seq. lia.
Qed.

(** ** The claims at concrete inputs *)

Lemma amplitude_gating_witness :
  valid_state init_state /\
  (forall e, e ∈ detector_entries init_state small_dip -> small_swings e) /\
  min_candidate (entry 1 small_dip) 31 = true /\
  (forall k,
     Out.step_count (step_algo_output (run_samples init_state (take k small_dip))) =
       Out.step_count (step_algo_output init_state)).
Proof.
  assert (H : forall e, e ∈ detector_entries init_state small_dip -> small_swings e).
  { apply small_swings_checked. vm_compute. reflexivity. }
  split; [exact init_valid|]. split; [exact H|].
  split; [vm_compute; reflexivity|].
  exact (proj2 (amplitude_gating init_state small_dip init_valid H)).
Defined.

Lemma dead_time_gating_witness :
  let e := entry 0 small_dip in
  commits_max e 31 /\
  (forall k, (31 < k <= 45)%nat ->
     dead_time_passed (ts_ext e !!! k) (ts_ext e !!! 31%nat) = false) /\
  ~ commits_max e 45.
Proof.
  intros e.
  assert (Hc : commits_max e 31) by (vm_compute; discriminate).
  assert (Hw : forall k, (31 < k <= 45)%nat ->
     dead_time_passed (ts_ext e !!! k) (ts_ext e !!! 31%nat) = false).
  { intros k Hk.
    assert (Hall : forallb
              (fun k => negb (dead_time_passed (ts_ext e !!! k) (ts_ext e !!! 31%nat)))
              (seq 32 14) = true) by (vm_compute; reflexivity).
    pose proof (forallb_range _ 32 14 Hall k ltac:(lia)) as H. cbv beta in H.
    destruct (dead_time_passed (ts_ext e !!! k) (ts_ext e !!! 31%nat));
      [discriminate H|reflexivity]. }
  split; [exact Hc|]. split; [exact Hw|].
  exact (proj1 (proj2 (proj2 (dead_time_gating e))) 31%nat 45%nat Hc ltac:(lia) Hw).
Defined.

(** C1, as stated, fails: in the first run over [small_dip] the maximum
    committed at index 31 is entry 31 of the extended arrays, which
    differs from entry [K + 31] in value and in timestamp. *)
Lemma candidate_index_counterexample :
  let e := entry 0 small_dip in
  let K := Z.to_nat (TC_samples (ll_filter_y e)) in
  K = 7%nat /\ max_candidate e 31 = true /\ commits_max e 31 /\
  prev_max_val (locals_before e 32) <> s_ext e !!! (K + 31)%nat /\
  prev_max_ts (locals_before e 32) <> ts_ext e !!! (K + 31)%nat.
Proof.
  cbv zeta. split; [vm_compute; reflexivity|].
  split; [vm_compute; reflexivity|].
  split; [vm_compute; discriminate|].
  split; vm_compute; discriminate.
Qed.

Lemma candidate_index_witness :
  let e := entry 0 small_dip in
  commits_max e 31 /\ valid_state e /\
  prev_max_val (locals_before e 32) = AccBuff_CHY e !!! 24%nat /\
  prev_max_ts (locals_before e 32) = AccBuff_TS e !!! 24%nat.
Proof.
  intros e.
  assert (Hc : commits_max e 31) by (vm_compute; discriminate).
  assert (Hv : valid_state e) by (split; vm_compute; try reflexivity; split; congruence).
  destruct (candidate_index e 31) as (_ & _ & Hm & _ & Hx).
  destruct (Hm Hc) as [E1 E2]. destruct (Hx Hv ltac:(lia)) as (X1 & X2 & _).
  split; [exact Hc|]. split; [exact Hv|].
  rewrite E1, E2, X1, X2. split; reflexivity.
Defined.

(** Whatever the timestamps: from the initial state, after every
    sample, [step_count] is the sum of the three per-class counters and
    of the minima committed in the runs that ended with the label
    [STATIC], modulo 2^32; each run adds its [count_min_det] to
    [step_count] and to the one per-class counter of its label, and to
    no per-class counter when the label is [STATIC]. *)
Lemma total_and_static (smps : list sample) :
  let st := run_samples init_state smps in
  Out.step_count (step_algo_output st) =
    u32 (num_steps_walk st + num_steps_run st + num_steps_hop st
         + stationary_steps init_state smps) /\
  (forall e : state,
     let n := count_min_det (run_detect e) in
     let e' := step_algo_run e in
     Out.step_count (step_algo_output e') =
       u32 (Out.step_count (step_algo_output e) + n) /\
     match Out.step_type (step_algo_output e') with
     | STATIC =>
         num_steps_walk e' = num_steps_walk e /\
         num_steps_run e' = num_steps_run e /\
         num_steps_hop e' = num_steps_hop e
     | WALK =>
         num_steps_walk e' = u32 (num_steps_walk e + n) /\
         num_steps_run e' = num_steps_run e /\
         num_steps_hop e' = num_steps_hop e
     | RUN =>
         num_steps_walk e' = num_steps_walk e /\
         num_steps_run e' = u32 (num_steps_run e + n) /\
         num_steps_hop e' = num_steps_hop e
     | HOP =>
         num_steps_walk e' = num_steps_walk e /\
         num_steps_run e' = num_steps_run e /\
         num_steps_hop e' = u32 (num_steps_hop e + n)
     end).
Proof.
  cbv zeta. split; [|intros e; apply run_counters].
  pose proof (counters_sum smps init_state 0 eq_refl) as H. cbv zeta in H.
  rewrite Z.add_0_l in H. exact H.
Qed.

(** Timestamps that a [float] cannot resolve break the sum: with every
    row stamped 2^26 s, which [main] never does, the second run commits
    one minimum and labels the batch [STATIC], so [step_count] is 1
    while the three per-class counters are 0. *)
Lemma late_clock_static_step :
  let st := run_samples init_state late_clock in
  F32.sub (F32.of_Z (2 ^ 26)) MAX_TIME_PERIOD_SEC = F32.of_Z (2 ^ 26) /\
  batch_commits init_state late_clock = [(1, 0); (0, 1)] /\
  Out.step_type (step_algo_output st) = STATIC /\
  Out.step_count (step_algo_output st) = 1 /\
  num_steps_walk st + num_steps_run st + num_steps_hop st = 0 /\
  Out.step_count (step_algo_output st) <>
    num_steps_walk st + num_steps_run st + num_steps_hop st.
Proof.
  cbv zeta.
  split; [vm_compute; reflexivity|]. split; [vm_compute; reflexivity|].
  split; [vm_compute; reflexivity|]. split; [vm_compute; reflexivity|].
  split; [vm_compute; reflexivity|]. vm_compute; discriminate.
Qed.

(** C3 at a slow wave between -11 and -10 m/s2: over its first 8.5 s
    the detector commits two minima, in its 9th and 17th runs, and no
    maximum at all, before them or between them. *)
Theorem minima_without_maximum :
  batch_commits init_state (slow_wave 884) =
    [(0, 0); (0, 0); (0, 0); (0, 0); (0, 0); (0, 0); (0, 0); (0, 0); (0, 1);
     (0, 0); (0, 0); (0, 0); (0, 0); (0, 0); (0, 0); (0, 0); (0, 1)] /\
  Out.step_count (step_algo_output (run_samples init_state (slow_wave 884))) = 2 /\
  Out.prev_max (step_algo_output (run_samples init_state (slow_wave 884))) = F32.zero.
Proof.
  split; [vm_compute; reflexivity|]. split; vm_compute; reflexivity.
Qed.

(** C10, as stated, fails: the 5th run over the slow wave commits no
    maximum and no minimum and still moves [prev_max_ts], from 0 to the
    timestamp of the rejected candidate of index 15 less
    [MAX_TIME_PERIOD_SEC], which puts the detector in min-search mode. *)
Theorem timestamp_moves_without_commit :
  let e := entry 4 (slow_wave 260) in
  let e' := step_algo_run e in
  count_max_det (run_detect e) = 0 /\ count_min_det (run_detect e) = 0 /\
  Out.prev_max_ts (step_algo_output e) = F32.zero /\
  Out.prev_max_ts (step_algo_output e') =
    F32.sub (ts_ext e !!! 15%nat) MAX_TIME_PERIOD_SEC /\
  Out.prev_max_ts (step_algo_output e') <> Out.prev_max_ts (step_algo_output e) /\
  F32.leb (Out.prev_max_ts (step_algo_output e)) (Out.prev_min_ts (step_algo_output e)) = true /\
  F32.leb (Out.prev_max_ts (step_algo_output e')) (Out.prev_min_ts (step_algo_output e')) = false.
Proof.
  cbv zeta.
  split; [vm_compute; reflexivity|]. split; [vm_compute; reflexivity|].
  split; [vm_compute; reflexivity|]. split; [vm_compute; reflexivity|].
  split; [vm_compute; discriminate|]. split; vm_compute; reflexivity.
Qed.

(** ** Array bounds *)

(** Every state reached from the initial state is a state a C execution
    can be in, and every array index the two functions use in it lies
    inside its array: the buffer index of the front end, the indices
    [TC_samples + i] of the extended arrays, and the indices
    [SAMP_BUFF_LEN - TC_samples + i] read when the tail is saved. *)
Theorem reachable_in_bounds (smps : list sample) :
  let st := run_samples init_state smps in
  let TC := TC_samples (ll_filter_y st) in
  valid_state st /\
  (Z.to_nat (count st) < length (AccBuff_CHY st))%nat /\
  (Z.to_nat (count st) < length (AccBuff_TS st))%nat /\
  (forall i, (i < 52)%nat ->
     (i < length (AccDer st))%nat /\
     (Z.to_nat (u32 (TC + Z.of_nat i)) < length (AccFilt st))%nat /\
     (Z.to_nat (u32 (TC + Z.of_nat i)) < length (TimeStamps st))%nat) /\
  (forall i, (i < Z.to_nat TC)%nat ->
     (Z.to_nat (u32 (SAMP_BUFF_LEN - TC + Z.of_nat i)) < length (AccBuff_CHY st))%nat /\
     (i < length (AccFilt st))%nat).
Proof.
  cbv zeta.
  pose proof (run_samples_valid init_state smps init_valid) as Hv.
  destruct Hv as [Hc HTC Hs Hw Hr Hh Ha Hf Hby Hbt Hfi Hts Hd].
  split; [by constructor|].
  rewrite Hby, Hbt, Hfi, Hts, Hd.
  unfold SAMP_BUFF_LEN, SENSOR_SAMP_FREQ, BUFF_FACTOR, MAX_TC_SAMPLES in *.
  change (104 / 2) with 52 in *.
  split; [lia|]. split; [lia|]. split.
  - intros i Hi. rewrite u32_small by (unfold is_uint; lia). lia.
  - intros i Hi. rewrite u32_small by (unfold is_uint; lia). lia.
Qed.

(** ** The tail carried to the next run *)

Lemma save_index TC i :
  0 <= TC <= MAX_TC_SAMPLES -> (i < Z.to_nat TC)%nat ->
  Z.to_nat (u32 (SAMP_BUFF_LEN - TC + Z.of_nat i)) = (52 - Z.to_nat TC + i)%nat.
Proof.
  unfold MAX_TC_SAMPLES. rewrite SAMP_BUFF_LEN_val. intros HTC Hi.
  rewrite u32_small by (unfold is_uint; lia). lia.
Qed.

Lemma save_fold_ext TC by_ bts n acc :
  0 <= TC <= MAX_TC_SAMPLES -> (n <= Z.to_nat TC)%nat ->
  length acc.1 = 72%nat -> length acc.2 = 72%nat ->
  let K := Z.to_nat TC in
  let r := fold_left (save_iter TC by_ bts) (seq 0 n) acc in
  forall m,
    r.1 !!! m = (if decide (m < n)%nat then by_ !!! (52 - K + m)%nat
                 else acc.1 !!! m) /\
    r.2 !!! m = (if decide (m < n)%nat then bts !!! (52 - K + m)%nat
                 else acc.2 !!! m).
Proof.
  intros HTC Hn Hl1 Hl2 K. cbv zeta.
  induction n as [|n IH]; intros m.
  { cbn [seq fold_left]. case_decide; [lia|done]. }
  rewrite seq_S, fold_left_app. cbn [fold_left plus].
  pose proof (save_fold_lengths TC by_ bts (seq 0 n) acc) as (L1 & L2).
  cbv zeta in L1, L2.
  destruct (IH ltac:(lia) m) as [IH1 IH2].
  destruct (fold_left (save_iter TC by_ bts) (seq 0 n) acc) as [filt ts].
  cbn [fst snd] in *. cbn [save_iter]. cbv zeta. cbn [fst snd].
  rewrite (save_index TC n HTC) by lia. fold K.
  rewrite !list_lookup_total_insert, L1, L2, Hl1, Hl2, IH1, IH2.
  unfold MAX_TC_SAMPLES in HTC.
  repeat case_decide; try lia; split; try reflexivity;
    match goal with H : _ /\ _ |- _ => destruct H as [-> _] end;
    f_equal; lia.
Qed.

Lemma pushes_keep st smps :
  valid_state st ->
  let st' := pushes st smps in
  valid_state st' /\ ll_filter_y st' = ll_filter_y st /\
  AccFilt st' = AccFilt st /\ TimeStamps st' = TimeStamps st /\
  step_algo_output st' = step_algo_output st.
Proof.
  revert st. induction smps as [|smp smps IH]; intros st Hv; cbv zeta; [done|].
  cbn [pushes fold_left]. fold (pushes (step_algo_preproc st smp).1 smps).
  destruct (IH _ (preproc_valid st smp Hv)) as (? & -> & -> & -> & ->). done.
Qed.

(** After a run the first [K] entries of [AccFilt] and [TimeStamps]
    hold the last [K] samples of the frame just processed, and they are
    still there, as the first [K] entries of the extended arrays, when
    the next frame has been pushed: the candidate a run examines at an
    index [i < K] is sample [52 - K + i] of the frame before.  The
    previous derivative carried to the next run is the last derivative
    of this one. *)
Theorem tail_carry (st : state) (smps : list sample) (i : nat) :
  valid_state st ->
  (i < Z.to_nat (TC_samples (ll_filter_y st)))%nat ->
  let K := Z.to_nat (TC_samples (ll_filter_y st)) in
  let next := pushes (step_algo_run st) smps in
  AccFilt (step_algo_run st) !!! i = AccBuff_CHY st !!! (52 - K + i)%nat /\
  TimeStamps (step_algo_run st) !!! i = AccBuff_TS st !!! (52 - K + i)%nat /\
  s_ext next !!! i = AccBuff_CHY st !!! (52 - K + i)%nat /\
  ts_ext next !!! i = AccBuff_TS st !!! (52 - K + i)%nat /\
  prevAccDer (step_algo_run st) = batch_der st !!! 51%nat.
Proof.
  intros Hv Hi K next.
  pose proof (deriv_fold_lengths (TC_samples (ll_filter_y st))
                (AccBuff_CHY st) (AccBuff_TS st) frame_indices
                (ll_filter_y st, AccDer st, AccFilt st, TimeStamps st))
    as (E1 & _ & E3 & E4).
  cbv zeta in E1, E3, E4. cbn [fst snd] in E1, E3, E4.
  fold (run_deriv st) in E1, E3, E4.
  pose proof (save_fold_ext (TC_samples (ll_filter_y st)) (AccBuff_CHY st)
                (AccBuff_TS st) (Z.to_nat (TC_samples (ll_filter_y st)))
                ((run_deriv st).1.2, (run_deriv st).2)
                (valid_TC _ Hv) ltac:(lia)) as H.
  cbn [fst snd] in H. rewrite E3, E4 in H.
  specialize (H (valid_filt _ Hv) (valid_ts _ Hv)). cbv zeta in H.
  destruct (H i) as [H1 H2]. fold K in H1, H2.
  rewrite decide_True in H1, H2 by exact Hi.
  assert (A1 : AccFilt (step_algo_run st) !!! i = AccBuff_CHY st !!! (52 - K + i)%nat)
    by exact H1.
  assert (A2 : TimeStamps (step_algo_run st) !!! i = AccBuff_TS st !!! (52 - K + i)%nat)
    by exact H2.
  destruct (pushes_keep (step_algo_run st) smps (run_valid st Hv))
    as (Hvn & El & Ef & Et & _). fold next in Hvn, El, Ef, Et.
  assert (EK : Z.to_nat (TC_samples (ll_filter_y next)) = K).
  { rewrite El. unfold K. f_equal; exact E1. }
  assert (Hi52 : (i < 52)%nat).
  { pose proof (valid_TC _ Hv). unfold MAX_TC_SAMPLES in *. lia. }
  destruct (ext_arrays next i Hvn Hi52) as (X1 & X2 & _).
  rewrite EK in X1, X2. rewrite decide_True in X1, X2 by exact Hi.
  split; [exact A1|]. split; [exact A2|].
  split; [by rewrite X1, Ef|]. split; [by rewrite X2, Et|].
  reflexivity.
Qed.

Lemma tail_carry_witness :
  let e := entry 0 small_dip in
  let K := Z.to_nat (TC_samples (ll_filter_y e)) in
  let next := pushes (step_algo_run e) (drop 52 small_dip) in
  valid_state e /\ (3 < K)%nat /\
  AccFilt (step_algo_run e) !!! 3%nat = AccBuff_CHY e !!! (52 - K + 3)%nat /\
  TimeStamps (step_algo_run e) !!! 3%nat = AccBuff_TS e !!! (52 - K + 3)%nat /\
  s_ext next !!! 3%nat = AccBuff_CHY e !!! (52 - K + 3)%nat /\
  ts_ext next !!! 3%nat = AccBuff_TS e !!! (52 - K + 3)%nat /\
  prevAccDer (step_algo_run e) = batch_der e !!! 51%nat.
Proof.
  intros e K next.
  assert (Hv : valid_state e) by (split; vm_compute; try reflexivity; split; congruence).
  assert (Hi : (3 < K)%nat) by (vm_compute; lia).
  split; [exact Hv|]. split; [exact Hi|].
  exact (tail_carry e (drop 52 small_dip) 3 Hv Hi).
Defined.

(** ** The search mode and the commits of one run *)

(** An index commits at most one extremum: a maximum only when the
    detector looks for a maximum there ([prev_max_ts <= prev_min_ts]), a
    minimum only when it does not; so a run commits at most as many
    extrema as the frame has samples. *)
Theorem one_commit_per_index (st : state) (i : nat) :
  (commits_max st i ->
     max_search (deciding st i) = true /\ ~ commits_min st i) /\
  (commits_min st i ->
     max_search (deciding st i) = false /\ ~ commits_max st i) /\
  ((i <= 52)%nat ->
     0 <= count_max_det (locals_before st i) + count_min_det (locals_before st i)
       <= Z.of_nat i).
Proof.
  split; [|split].
  - unfold commits_max, commits_min.
    destruct (iteration_effect st i) as [(Hm & _ & _ & Em & _)|(_ & _ & _ & Ea & _)];
      intros Hc; [split; [exact Hm|congruence]|congruence].
  - unfold commits_max, commits_min.
    destruct (iteration_effect st i) as [(_ & _ & _ & Em & _)|(Hm & _ & _ & Ea & _)];
      intros Hc; [congruence|split; [exact Hm|congruence]].
  - induction i as [|i IH]; intros Hi.
    { unfold locals_before.
      cbn [seq fold_left init_locals count_max_det count_min_det]. lia. }
    specialize (IH ltac:(lia)).
    destruct (counts_bounded st i ltac:(lia)) as [Ba Bm].
    destruct (iteration_effect st i) as [(_ & _ & _ & Em & [(Ea & _)|(Ea & _)])
                                        |(_ & _ & _ & Ea & [(Em & _)|(Em & _)])];
      rewrite Ea, Em, ?u32_small by (unfold is_uint; lia); lia.
Qed.

(** ** Runs that commit nothing *)

Lemma count_max_zero st i :
  (i <= 52)%nat -> count_max_det (locals_before st (S i)) = 0 ->
  count_max_det (locals_before st i) = 0.
Proof.
  intros Hi H. destruct (counts_bounded st i Hi) as [Ba _].
  destruct (iteration_effect st i) as [(_ & _ & _ & _ & [(Ea & _)|(Ea & _)])
                                      |(_ & _ & _ & Ea & _)];
    rewrite Ea, ?u32_small in H by (unfold is_uint; lia); lia.
Qed.

Lemma count_min_zero st i :
  (i <= 52)%nat -> count_min_det (locals_before st (S i)) = 0 ->
  count_min_det (locals_before st i) = 0.
Proof.
  intros Hi H. destruct (counts_bounded st i Hi) as [_ Bm].
  destruct (iteration_effect st i) as [(_ & _ & _ & Em & _)
                                      |(_ & _ & _ & _ & [(Em & _)|(Em & _)])];
    rewrite Em, ?u32_small in H by (unfold is_uint; lia); lia.
Qed.

Lemma no_max_frame st i :
  (i <= 52)%nat -> count_max_det (locals_before st i) = 0 ->
  prev_max_val (locals_before st i) = Out.prev_max (step_algo_output st) /\
  (prev_max_ts (locals_before st i) = Out.prev_max_ts (step_algo_output st) \/
   exists k, (k < i)%nat /\
     prev_max_ts (locals_before st i) =
       F32.sub (ts_ext st !!! k) MAX_TIME_PERIOD_SEC).
Proof.
  induction i as [|i IH]; intros Hi H0.
  { split; [reflexivity|left; reflexivity]. }
  pose proof (count_max_zero st i ltac:(lia) H0) as Hz.
  destruct (IH ltac:(lia) Hz) as [IHv IHt].
  destruct (iteration_effect st i) as [(_ & _ & _ & _ & [(_ & Ev & Et)|(Ea & _)])
                                      |(_ & Ev & Et & _)].
  - split; [congruence|]. destruct Et as [Et|[_ Et]].
    + rewrite Et. destruct IHt as [|(k & ? & ?)]; [by left|right; exists k; split; [lia|done]].
    + right. exists i. split; [lia|exact Et].
  - rewrite Ea, Hz in H0. discriminate H0.
  - split; [congruence|]. rewrite Et.
    destruct IHt as [|(k & ? & ?)]; [by left|right; exists k; split; [lia|done]].
Qed.

Lemma no_min_frame st i :
  (i <= 52)%nat -> count_min_det (locals_before st i) = 0 ->
  prev_min_val (locals_before st i) = Out.prev_min (step_algo_output st) /\
  (prev_min_ts (locals_before st i) = Out.prev_min_ts (step_algo_output st) \/
   exists k, (k < i)%nat /\
     prev_min_ts (locals_before st i) =
       F32.sub (ts_ext st !!! k) MAX_TIME_PERIOD_SEC).
Proof.
  induction i as [|i IH]; intros Hi H0.
  { split; [reflexivity|left; reflexivity]. }
  pose proof (count_min_zero st i ltac:(lia) H0) as Hz.
  destruct (IH ltac:(lia) Hz) as [IHv IHt].
  destruct (iteration_effect st i) as [(_ & Ev & Et & _)
                                      |(_ & _ & _ & _ & [(_ & Ev & Et)|(Ea & _)])].
  - split; [congruence|]. rewrite Et.
    destruct IHt as [|(k & ? & ?)]; [by left|right; exists k; split; [lia|done]].
  - split; [congruence|]. destruct Et as [Et|[_ Et]].
    + rewrite Et. destruct IHt as [|(k & ? & ?)]; [by left|right; exists k; split; [lia|done]].
    + right. exists i. split; [lia|exact Et].
  - rewrite Ea, Hz in H0. discriminate H0.
Qed.

(** A run that commits no minimum leaves [step_count] and the three
    per-class counters as they were, whatever label it writes, and
    leaves [prev_min]; a run that commits no maximum leaves [prev_max].
    The timestamp of the kind that was not committed is either left or
    set to the timestamp of one of the run's candidates less
    [MAX_TIME_PERIOD_SEC]. *)
Theorem quiet_run_frame (st : state) :
  valid_state st ->
  (count_min_det (run_detect st) = 0 ->
     Out.step_count (step_algo_output (step_algo_run st)) =
       Out.step_count (step_algo_output st) /\
     num_steps_walk (step_algo_run st) = num_steps_walk st /\
     num_steps_run (step_algo_run st) = num_steps_run st /\
     num_steps_hop (step_algo_run st) = num_steps_hop st /\
     Out.prev_min (step_algo_output (step_algo_run st)) =
       Out.prev_min (step_algo_output st) /\
     (Out.prev_min_ts (step_algo_output (step_algo_run st)) =
        Out.prev_min_ts (step_algo_output st) \/
      exists k, (k < 52)%nat /\
        Out.prev_min_ts (step_algo_output (step_algo_run st)) =
          F32.sub (ts_ext st !!! k) MAX_TIME_PERIOD_SEC)) /\
  (count_max_det (run_detect st) = 0 ->
     Out.prev_max (step_algo_output (step_algo_run st)) =
       Out.prev_max (step_algo_output st) /\
     (Out.prev_max_ts (step_algo_output (step_algo_run st)) =
        Out.prev_max_ts (step_algo_output st) \/
      exists k, (k < 52)%nat /\
        Out.prev_max_ts (step_algo_output (step_algo_run st)) =
          F32.sub (ts_ext st !!! k) MAX_TIME_PERIOD_SEC)).
Proof.
  intros Hv. split; intros H0.
  - destruct (run_counters st) as [Es Ec]. cbv zeta in Es, Ec.
    rewrite H0, !Z.add_0_r in *.
    assert (Hw := u32_small _ (valid_walk _ Hv)).
    assert (Hr := u32_small _ (valid_run _ Hv)).
    assert (Hh := u32_small _ (valid_hop _ Hv)).
    rewrite (u32_small _ (valid_step_count _ Hv)) in Es.
    split; [exact Es|].
    assert (Hc : num_steps_walk (step_algo_run st) = num_steps_walk st /\
                 num_steps_run (step_algo_run st) = num_steps_run st /\
                 num_steps_hop (step_algo_run st) = num_steps_hop st).
    { destruct (Out.step_type _); destruct Ec as (-> & -> & ->);
        rewrite ?Hw, ?Hr, ?Hh; done. }
    destruct Hc as (? & ? & ?). do 3 (split; [assumption|]).
    rewrite run_detect_locals in H0.
    destruct (no_min_frame st (Z.to_nat SAMP_BUFF_LEN) ltac:(vm_compute; lia) H0) as [Hval Hts].
    rewrite <- run_detect_locals in Hval, Hts.
    split; [exact Hval|exact Hts].
  - rewrite run_detect_locals in H0.
    destruct (no_max_frame st (Z.to_nat SAMP_BUFF_LEN) ltac:(vm_compute; lia) H0) as [Hval Hts].
    rewrite <- run_detect_locals in Hval, Hts.
    split; [exact Hval|exact Hts].
Qed.

Lemma quiet_run_frame_witness :
  let e := entry 1 small_dip in
  valid_state e /\ count_min_det (run_detect e) = 0 /\
  Out.step_count (step_algo_output (step_algo_run e)) =
    Out.step_count (step_algo_output e) /\
  num_steps_walk (step_algo_run e) = num_steps_walk e.
Proof.
  intros e.
  assert (Hv : valid_state e) by (split; vm_compute; try reflexivity; split; congruence).
  assert (H0 : count_min_det (run_detect e) = 0) by (vm_compute; reflexivity).
  destruct (proj1 (quiet_run_frame e Hv) H0) as (Hs & Hw & _).
  split; [exact Hv|]. split; [exact H0|]. split; [exact Hs|exact Hw].
Defined.

(** ** The hold counters *)




(** ** Steps, samples and runs *)

(** From the initial state, and for inputs of fewer than 2^32 samples,
    neither the total nor a per-class counter exceeds 52 times the
    number of complete frames pushed: a frame yields at most one step
    per sample. *)
Theorem steps_at_most_samples (smps : list sample) :
  Z.of_nat (length smps) < 2 ^ 32 ->
  let st := run_samples init_state smps in
  let b := 52 * (Z.of_nat (length smps) / 52) in
  0 <= Out.step_count (step_algo_output st) <= b /\
  0 <= num_steps_walk st <= b /\
  0 <= num_steps_run st <= b /\
  0 <= num_steps_hop st <= b.
Proof.
  intros Hlen. cbv zeta.
  pose proof (counters_bounded smps Hlen) as H. cbv zeta in H.
  rewrite count_run_samples, Nat2Z.inj_mod in H.
  change (Z.of_nat 52) with 52 in H.
  replace (52 * (Z.of_nat (length smps) / 52))
    with (Z.of_nat (length smps) - Z.of_nat (length smps) mod 52)
    by (Z.div_mod_to_equations; lia).
  exact H.
Qed.

Lemma steps_at_most_samples_witness :
  Z.of_nat (length small_dip) < 2 ^ 32 /\
  let st := run_samples init_state small_dip in
  let b := 52 * (Z.of_nat (length small_dip) / 52) in
  0 <= Out.step_count (step_algo_output st) <= b /\
  0 <= num_steps_walk st <= b /\
  0 <= num_steps_run st <= b /\
  0 <= num_steps_hop st <= b.
Proof.
  assert (H : Z.of_nat (length small_dip) < 2 ^ 32) by (vm_compute; reflexivity).
  split; [exact H|]. exact (steps_at_most_samples small_dip H).
Defined.

Lemma entries_length smps : forall st,
  0 <= count st < SAMP_BUFF_LEN ->
  Z.of_nat (length (detector_entries st smps)) =
    (count st + Z.of_nat (length smps)) / 52.
Proof.
  induction smps as [|smp smps IH]; intros st Hc.
  { cbn [detector_entries length]. rewrite SAMP_BUFF_LEN_val in Hc.
    rewrite Z.add_0_r, Z.div_small by lia. reflexivity. }
  cbn [detector_entries]. cbv zeta.
  destruct (preproc_count st smp Hc) as [Hr Hc'].
  rewrite Hr. rewrite SAMP_BUFF_LEN_val in *.
  destruct (Z.eqb_spec (count st + 1) 52) as [E|E].
  - change (1 =? 1) with true. cbn [length].
    rewrite Nat2Z.inj_succ, IH by (rewrite run_count, Hc'; lia).
    rewrite run_count, Hc'. Z.div_mod_to_equations. lia.
  - change (0 =? 1) with false. cbn [length].
    rewrite IH by (rewrite Hc'; lia).
    rewrite Hc', Nat2Z.inj_succ. f_equal. lia.
Qed.

(** The detector runs once per complete frame: over [n] samples from
    the initial state it is entered [n / 52] times, and the samples
    left over stay in the frame buffer. *)
Theorem runs_per_frame (smps : list sample) :
  length (detector_entries init_state smps) = (length smps / 52)%nat /\
  count (run_samples init_state smps) = Z.of_nat (length smps mod 52).
Proof.
  split; [|apply count_run_samples].
  apply Nat2Z.inj. rewrite (entries_length smps init_state) by (vm_compute; split; congruence).
  change (count init_state) with 0. rewrite Z.add_0_l, Nat2Z.inj_div. reflexivity.
Qed.

(** ** The delay constants *)

(** Whatever the delay constant, the number of delay samples [main]
    computes is capped at [MAX_TC_SAMPLES], so that the extended arrays
    of [SAMP_BUFF_LEN + MAX_TC_SAMPLES] entries hold the tail and the
    frame; at 104 Hz it is 8 for the low-pass and 7 for the lead-lag
    filter. *)
Theorem delay_samples_capped (tau : float) :
  0 <= timeconst_samp tau <= MAX_TC_SAMPLES /\
  timeconst_samp tau + SAMP_BUFF_LEN <= SAMP_BUFF_LEN + MAX_TC_SAMPLES /\
  TC_samples lp_filter_init = 8 /\ TC_samples ll_filter_init = 7.
Proof.
  assert (H : 0 <= timeconst_samp tau <= MAX_TC_SAMPLES).
  { unfold timeconst_samp. cbv zeta.
    pose proof (u32_range (F32.to_uint (F32.mul (F32.of_Z SENSOR_SAMP_FREQ) tau) + 1)) as Hu.
    unfold is_uint in Hu. unfold MAX_TC_SAMPLES.
    destruct (Z.ltb_spec 20 (u32 (F32.to_uint (F32.mul (F32.of_Z SENSOR_SAMP_FREQ) tau) + 1))); lia. }
  split; [exact H|]. split; [lia|]. split; vm_compute; reflexivity.
Qed.

(** ** The first run *)

Lemma first_entry_keeps smps : forall st e,
  valid_state st -> detector_entries st smps !! 0%nat = Some e ->
  valid_state e /\ ll_filter_y e = ll_filter_y st /\
  TimeStamps e = TimeStamps st /\ step_algo_output e = step_algo_output st.
Proof.
  induction smps as [|smp smps IH]; intros st e Hv He; [discriminate He|].
  cbn [detector_entries] in He. cbv zeta in He.
  pose proof (preproc_valid st smp Hv) as Hv1.
  destruct (_ =? 1).
  - cbn [lookup list_lookup] in He. injection He as <-.
    split; [exact Hv1|split; [reflexivity|split; reflexivity]].
  - destruct (IH _ e Hv1 He) as (? & -> & -> & ->).
    split; [assumption|split; [reflexivity|split; reflexivity]].
Qed.

(** In the first detector run after the start, the first seven indices
    read the zero-filled tail of the extended arrays, whose timestamps
    are 0 like the initial [prev_max_ts] and [prev_min_ts]: the dead-time
    test fails there and no extremum is committed, whatever the input. *)
Theorem first_run_tail_idle (smps : list sample) (e : state) (j : nat) :
  detector_entries init_state smps !! 0%nat = Some e ->
  (j < 7)%nat ->
  ~ commits_max e j /\ ~ commits_min e j.
Proof.
  intros He Hj.
  destruct (first_entry_keeps smps init_state e init_valid He) as (Hv & El & Et & Eo).
  assert (Hts : forall k, (k <= j)%nat -> ts_ext e !!! k = F32.zero).
  { intros k Hk. destruct (ext_arrays e k Hv ltac:(lia)) as (_ & X & _).
    rewrite El in X. change (Z.to_nat (TC_samples (ll_filter_y init_state))) with 7%nat in X.
    rewrite decide_True in X by lia. rewrite X, Et.
    change (TimeStamps init_state) with (replicate 72 F32.zero).
    apply lookup_total_replicate_2. lia. }
  split; intros Hc.
  - destruct (max_window e 0 j ltac:(lia)) as [Ew _].
    { intros k Hk. rewrite Hts by lia. rewrite locals_before_0.
      cbn [init_locals prev_max_ts]. rewrite Eo. reflexivity. }
    destruct (commit_max_gate e j Hc) as (Hd & _).
    rewrite Ew, locals_before_0 in Hd. cbn [init_locals prev_max_ts] in Hd.
    rewrite Eo, Hts in Hd by lia. discriminate Hd.
  - destruct (min_window e 0 j ltac:(lia)) as [Ew _].
    { intros k Hk. rewrite Hts by lia. rewrite locals_before_0.
      cbn [init_locals prev_min_ts]. rewrite Eo. reflexivity. }
    destruct (commit_min_record e j Hc) as (Hd & _).
    rewrite Ew, locals_before_0 in Hd. cbn [init_locals prev_min_ts] in Hd.
    rewrite Eo, Hts in Hd by lia. discriminate Hd.
Qed.

Lemma first_run_tail_idle_witness :
  detector_entries init_state small_dip !! 0%nat = Some (entry 0 small_dip) /\
  (6 < 7)%nat /\
  ~ commits_max (entry 0 small_dip) 6 /\ ~ commits_min (entry 0 small_dip) 6.
Proof.
  assert (He : detector_entries init_state small_dip !! 0%nat = Some (entry 0 small_dip))
    by (vm_compute; reflexivity).
  assert (Hj : (6 < 7)%nat) by lia.
  split; [exact He|]. split; [exact Hj|].
  exact (first_run_tail_idle small_dip (entry 0 small_dip) 6 He Hj).
Defined.

(** ** The candidates of a run, in one pass *)

Lemma candidates_from_spec st n a (c : bool * float) :
  c ∈ candidates_from (batch_der st) (s_ext st) (ts_ext st) (seq a n)
                      (locals_before st a) <->
  exists i, (a <= i < a + n)%nat /\ c.2 = s_ext st !!! i /\
    (if c.1 then max_candidate st i else min_candidate st i) = true.
Proof.
  revert a. induction n as [|n IH]; intros a.
  { cbn [seq candidates_from]. split; [intros H; inversion H|intros (i & Hi & _); lia]. }
  cbn [seq candidates_from]. cbv zeta. rewrite <- locals_before_S.
  rewrite elem_of_app, IH. fold (deciding st a).
  split.
  - intros [H|(i & Hi & Hc)]; [|exists i; split; [lia|exact Hc]].
    exists a. split; [lia|].
    unfold max_candidate, min_candidate.
    destruct (max_search (deciding st a)).
    + destruct (falling_zc _ _ _ && dead_time_passed _ _) eqn:E; [|inversion H].
      apply list_elem_of_singleton in H. subst c. cbn [fst snd andb].
      split; [reflexivity|]. apply andb_prop in E as [-> ->]. reflexivity.
    + destruct (rising_zc _ _ _ && dead_time_passed _ _) eqn:E; [|inversion H].
      apply list_elem_of_singleton in H. subst c. cbn [fst snd andb negb].
      split; [reflexivity|]. apply andb_prop in E as [-> ->]. reflexivity.
  - intros (i & Hi & Hv & Hc).
    destruct (decide (i = a)) as [->|Hne]; [left|right; exists i; split; [lia|by split]].
    destruct c as [[] v]; cbn [fst snd] in Hv, Hc; subst v.
    + unfold max_candidate in Hc.
      apply andb_prop in Hc as [Hc Hd]. apply andb_prop in Hc as [Hm Hz].
      rewrite Hm, Hz, Hd. apply list_elem_of_singleton. reflexivity.
    + unfold min_candidate in Hc.
      apply andb_prop in Hc as [Hc Hd]. apply andb_prop in Hc as [Hm Hz].
      apply negb_true_iff in Hm.
      rewrite Hm, Hz, Hd. apply list_elem_of_singleton. reflexivity.
Qed.

(** [run_candidates] lists exactly the candidates of the run: the
    values examined at the indices where the detector, in the
    corresponding search mode, meets a zero crossing of the derivative
    after the dead time. *)
Lemma run_candidates_spec st (c : bool * float) :
  c ∈ run_candidates st <->
  exists i, (i < 52)%nat /\ c.2 = s_ext st !!! i /\
    (if c.1 then max_candidate st i else min_candidate st i) = true.
Proof.
  unfold run_candidates. rewrite <- locals_before_0.
  rewrite candidates_from_spec.
  split; intros (i & Hi & H); exists i; (split; [lia|exact H]).
Qed.

(** C4 at the slow wave between -11 and -10 m/s2 of [main]: over its
    first 8.5 s the detector examines four candidates, the maximum
    -10.0148 and the minimum -10.9851, each twice; every candidate
    maximum is less than [CLOSE_TO_ZERO] above every candidate minimum,
    and still [step_count] is 2 at the end, the two minima having been
    judged against a [prev_max] that stayed at its initial 0.0. *)
Theorem small_swing_counts_steps :
  let cs := input_candidates init_state (slow_wave 884) in
  let st := run_samples init_state (slow_wave 884) in
  cs = [(true, S754_finite true 10501330 (-20));
        (false, S754_finite true 11518685 (-20));
        (true, S754_finite true 10501330 (-20));
        (false, S754_finite true 11518685 (-20))] /\
  forallb (fun hi =>
    forallb (fun lo => F64.ltb (F64.of_float (F32.sub hi lo)) CLOSE_TO_ZERO)
            (minima cs)) (maxima cs) = true /\
  Out.step_count (step_algo_output st) = 2 /\
  Out.prev_max (step_algo_output st) = F32.zero.
Proof.
  cbv zeta.
  split; [vm_compute; reflexivity|]. split; [vm_compute; reflexivity|].
  split; vm_compute; reflexivity.
Qed.

(** C10, as the code has it.  A run that commits no maximum and no
    minimum leaves [prev_max], [prev_min], [step_count] and the three
    per-class counters as they were; [prev_max_ts] and [prev_min_ts] are
    each either left or set, by the clamp of a rejected candidate, to
    the timestamp of one of the run's entries less
    [MAX_TIME_PERIOD_SEC]. *)
Theorem no_commit_frame (st : state) :
  valid_state st ->
  count_max_det (run_detect st) = 0 -> count_min_det (run_detect st) = 0 ->
  let out := step_algo_output st in
  let out' := step_algo_output (step_algo_run st) in
  Out.prev_max out' = Out.prev_max out /\
  Out.prev_min out' = Out.prev_min out /\
  Out.step_count out' = Out.step_count out /\
  num_steps_walk (step_algo_run st) = num_steps_walk st /\
  num_steps_run (step_algo_run st) = num_steps_run st /\
  num_steps_hop (step_algo_run st) = num_steps_hop st /\
  (Out.prev_max_ts out' = Out.prev_max_ts out \/
   exists k, (k < 52)%nat /\
     Out.prev_max_ts out' = F32.sub (ts_ext st !!! k) MAX_TIME_PERIOD_SEC) /\
  (Out.prev_min_ts out' = Out.prev_min_ts out \/
   exists k, (k < 52)%nat /\
     Out.prev_min_ts out' = F32.sub (ts_ext st !!! k) MAX_TIME_PERIOD_SEC).
Proof.
  intros Hv Ha Hm. cbv zeta.
  destruct (run_counters st) as [Es Ec]. cbv zeta in Es, Ec.
  rewrite Hm, !Z.add_0_r in Es, Ec.
  rewrite (u32_small _ (valid_step_count _ Hv)) in Es.
  assert (Hc : num_steps_walk (step_algo_run st) = num_steps_walk st /\
               num_steps_run (step_algo_run st) = num_steps_run st /\
               num_steps_hop (step_algo_run st) = num_steps_hop st).
  { pose proof (u32_small _ (valid_walk _ Hv)) as Hw.
    pose proof (u32_small _ (valid_run _ Hv)) as Hr.
    pose proof (u32_small _ (valid_hop _ Hv)) as Hh.
    destruct (Out.step_type _); destruct Ec as (E1 & E2 & E3);
      rewrite E1, E2, E3, ?Z.add_0_r, ?Hw, ?Hr, ?Hh; done. }
  destruct Hc as (Hw & Hr & Hh).
  rewrite run_detect_locals in Ha, Hm.
  destruct (no_max_frame st (Z.to_nat SAMP_BUFF_LEN) ltac:(vm_compute; lia) Ha)
    as [Hav Hat].
  destruct (no_min_frame st (Z.to_nat SAMP_BUFF_LEN) ltac:(vm_compute; lia) Hm)
    as [Hmv Hmt].
  rewrite <- run_detect_locals in Hav, Hat, Hmv, Hmt.
  split; [exact Hav|]. split; [exact Hmv|]. split; [exact Es|].
  split; [exact Hw|]. split; [exact Hr|]. split; [exact Hh|].
  split; [exact Hat|exact Hmt].
Qed.

Lemma no_commit_frame_witness :
  let e := entry 4 (slow_wave 260) in
  valid_state e /\
  count_max_det (run_detect e) = 0 /\ count_min_det (run_detect e) = 0 /\
  Out.prev_max (step_algo_output (step_algo_run e)) =
    Out.prev_max (step_algo_output e) /\
  Out.step_count (step_algo_output (step_algo_run e)) =
    Out.step_count (step_algo_output e).
Proof.
  intros e.
  assert (Hv : valid_state e) by (split; vm_compute; try reflexivity; split; congruence).
  assert (Ha : count_max_det (run_detect e) = 0) by (vm_compute; reflexivity).
  assert (Hm : count_min_det (run_detect e) = 0) by (vm_compute; reflexivity).
  destruct (no_commit_frame e Hv Ha Hm) as (H1 & _ & H3 & _).
  split; [exact Hv|]. split; [exact Ha|]. split; [exact Hm|].
  split; [exact H1|exact H3].
Defined.

(** * Binary floating-point arithmetic: what the [spec_float]
    operations compute, in terms of the rationals the floats stand for.
    Rounding to nearest stays within half a unit in the last place of
    the exact result, and the comparisons are the order of the
    rationals. *)

(** ** Powers of two *)

Lemma pow2_pos e : (0 < pow2 e)%Q.
Proof. apply Qpower_0_lt. reflexivity. Qed.

Lemma pow2_add a b : (pow2 (a + b) == pow2 a * pow2 b)%Q.
Proof. apply Qpower_plus. discriminate. Qed.

Lemma pow2_0 : (pow2 0 == 1)%Q.
Proof. reflexivity. Qed.

Lemma pow2_1 : (pow2 1 == 2)%Q.
Proof. reflexivity. Qed.

Lemma pow2_succ e : (pow2 (e + 1) == 2 * pow2 e)%Q.
Proof. rewrite pow2_add, pow2_1. ring. Qed.

Lemma pow2_pred e : (pow2 (e - 1) == pow2 e * (1 # 2))%Q.
Proof.
  replace (e - 1) with (e + -1) by lia. rewrite pow2_add. reflexivity.
Qed.

Lemma pow2_le a b : a <= b -> (pow2 a <= pow2 b)%Q.
Proof. intros H. apply Qpower_le_compat_l; [exact H|discriminate]. Qed.

Lemma pow2_lt a b : a < b -> (pow2 a < pow2 b)%Q.
Proof. intros H. apply Qpower_lt_compat_l; [exact H|reflexivity]. Qed.

Lemma pow2_lt_inv a b : (pow2 a < pow2 b)%Q -> a < b.
Proof. intros H. apply (Qpower_lt_compat_l_inv 2); [exact H|reflexivity]. Qed.

Lemma pow2_Z n : 0 <= n -> (inject_Z (2 ^ n) == pow2 n)%Q.
Proof. intros H. apply Zpower_Qpower. exact H. Qed.

Lemma pow2_opp e : (pow2 (- e) == / pow2 e)%Q.
Proof. apply Qpower_opp. Qed.

Lemma inject_Z_lt_pow2 m d : 0 <= d -> m < 2 ^ d -> (inject_Z m < pow2 d)%Q.
Proof. intros Hd H. rewrite <- pow2_Z by exact Hd. rewrite <- Zlt_Qlt. exact H. Qed.

Lemma inject_Z_ge_pow2 m d : 0 <= d -> 2 ^ d <= m -> (pow2 d <= inject_Z m)%Q.
Proof. intros Hd H. rewrite <- pow2_Z by exact Hd. rewrite <- Zle_Qle. exact H. Qed.

(** ** Number of binary digits *)

Lemma digits2_pos_bounds p :
  2 ^ (Zpos (digits2_pos p) - 1) <= Zpos p < 2 ^ Zpos (digits2_pos p).
Proof.
  induction p as [p IH|p IH|]; cbn [digits2_pos].
  - rewrite Pos2Z.inj_succ.
    replace (Z.succ (Zpos (digits2_pos p)) - 1) with (Z.succ (Zpos (digits2_pos p) - 1)) by lia.
    rewrite !Z.pow_succ_r by lia. lia.
  - rewrite Pos2Z.inj_succ.
    replace (Z.succ (Zpos (digits2_pos p)) - 1) with (Z.succ (Zpos (digits2_pos p) - 1)) by lia.
    rewrite !Z.pow_succ_r by lia. lia.
  - cbn. lia.
Qed.

Lemma Zdigits2_bounds m :
  0 < m -> 0 < Zdigits2 m /\ 2 ^ (Zdigits2 m - 1) <= m < 2 ^ Zdigits2 m.
Proof.
  destruct m as [|p|p]; try lia. intros _. cbn [Zdigits2].
  split; [lia|apply digits2_pos_bounds].
Qed.

Lemma Zdigits2_unique m d :
  0 < m -> 2 ^ (d - 1) <= m < 2 ^ d -> Zdigits2 m = d.
Proof.
  intros Hm [Hlo Hhi]. destruct (Zdigits2_bounds m Hm) as (Hd & Blo & Bhi).
  assert (0 < d).
  { destruct (Z_lt_le_dec 0 d) as [|Hd0]; [assumption|].
    assert (2 ^ d <= 2 ^ 0) by (destruct (Z_lt_le_dec d 0);
      [rewrite Z.pow_neg_r by lia; cbn; lia|apply Z.pow_le_mono_r; lia]).
    cbn in *. lia. }
  destruct (Z_lt_le_dec (Zdigits2 m) d) as [H1|H1].
  - assert (2 ^ Zdigits2 m <= 2 ^ (d - 1)) by (apply Z.pow_le_mono_r; lia). lia.
  - destruct (Z_lt_le_dec d (Zdigits2 m)) as [H2|H2]; [|lia].
    assert (2 ^ d <= 2 ^ (Zdigits2 m - 1)) by (apply Z.pow_le_mono_r; lia). lia.
Qed.

Lemma Zdigits2_0 : Zdigits2 0 = 0.
Proof. reflexivity. Qed.

Lemma Zdigits2_mono a b : 0 < a <= b -> Zdigits2 a <= Zdigits2 b.
Proof.
  intros [Ha Hab].
  destruct (Zdigits2_bounds a Ha) as (_ & Alo & _).
  destruct (Zdigits2_bounds b ltac:(lia)) as (_ & _ & Bhi).
  destruct (Z_lt_le_dec (Zdigits2 b) (Zdigits2 a)) as [H|H]; [|exact H].
  assert (2 ^ Zdigits2 b <= 2 ^ (Zdigits2 a - 1)) by (apply Z.pow_le_mono_r; lia). lia.
Qed.

(** ** Shifts and rounding locations *)

Lemma locq_ext f g l : (f == g)%Q -> locq f l -> locq g l.
Proof. intros E. destruct l as [|[]]; cbn [locq]; intros H; lra. Qed.

Lemma locq_range f l : locq f l -> (0 <= f < 1)%Q.
Proof. destruct l as [|[]]; cbn [locq]; intros H; lra. Qed.

Lemma represents_ext y y' mrs : (y == y')%Q -> represents y mrs -> represents y' mrs.
Proof.
  intros E [H1 H2]. split; [exact H1|].
  apply (locq_ext (y - inject_Z (shr_m mrs))); [lra|exact H2].
Qed.

Lemma represents_range y mrs :
  represents y mrs -> (inject_Z (shr_m mrs) <= y < inject_Z (shr_m mrs) + 1)%Q.
Proof. intros [_ H]. apply locq_range in H. lra. Qed.

Lemma inject_Z_xO p : (inject_Z (Zpos p~0) == 2 * inject_Z (Zpos p))%Q.
Proof. rewrite Pos2Z.inj_xO, inject_Z_mult. reflexivity. Qed.

Lemma inject_Z_xI p : (inject_Z (Zpos p~1) == 2 * inject_Z (Zpos p) + 1)%Q.
Proof. rewrite Pos2Z.inj_xI, inject_Z_plus, inject_Z_mult. reflexivity. Qed.

Lemma shr_1_spec y mrs : represents y mrs -> represents (y * (1 # 2)) (shr_1 mrs).
Proof.
  destruct mrs as [m r s]. unfold represents. cbn [shr_m shr_1].
  intros [Hm H].
  destruct m as [|[p|p|]|p]; try lia;
    [|pose proof (inject_Z_xI p) as E|pose proof (inject_Z_xO p) as E|];
    destruct r, s; cbn [orb shr_m loc_of_shr_record locq] in *;
    (split; [lia|]); try change (inject_Z 0) with 0%Q in *;
    try change (inject_Z 1) with 1%Q in *; lra.
Qed.

Lemma iter_pos_shr_spec p : forall y mrs,
  represents y mrs -> represents (y * pow2 (- Zpos p)) (SpecFloat.iter_pos shr_1 p mrs).
Proof.
  induction p as [p IH|p IH|]; intros y mrs H; cbn [SpecFloat.iter_pos].
  - apply (represents_ext (y * (1 # 2) * pow2 (- Zpos p) * pow2 (- Zpos p))).
    + replace (- Zpos p~1) with (-1 + (- Zpos p + - Zpos p)) by lia.
      rewrite !pow2_add. change (pow2 (-1)) with (1 # 2)%Q.
      generalize (pow2 (- Zpos p)). intros q. ring.
    + apply IH, IH, shr_1_spec, H.
  - apply (represents_ext (y * pow2 (- Zpos p) * pow2 (- Zpos p))).
    + replace (- Zpos p~0) with (- Zpos p + - Zpos p) by lia.
      rewrite !pow2_add. generalize (pow2 (- Zpos p)). intros q. ring.
    + apply IH, IH, H.
  - apply (represents_ext (y * (1 # 2))).
    + change (pow2 (Z.opp (Zpos xH))) with (1 # 2)%Q. ring.
    + apply shr_1_spec, H.
Qed.

Lemma shr_spec y mrs e n :
  0 <= n -> represents y mrs ->
  represents (y * pow2 (- n)) (fst (shr mrs e n)) /\ snd (shr mrs e n) = e + n.
Proof.
  intros Hn H. destruct n as [|p|p]; try lia; cbn [shr fst snd].
  - split; [|lia]. apply (represents_ext y); [|exact H].
    change (pow2 (-0)) with 1%Q. ring.
  - split; [|reflexivity]. apply iter_pos_shr_spec, H.
Qed.

Lemma loc_of_shr_record_of_loc m l :
  loc_of_shr_record (shr_record_of_loc m l) = l /\
  shr_m (shr_record_of_loc m l) = m.
Proof. destruct l as [|[]]; split; reflexivity. Qed.

Lemma represents_of_loc y m l :
  0 <= m -> locq (y - inject_Z m) l -> represents y (shr_record_of_loc m l).
Proof.
  intros Hm H. unfold represents.
  destruct (loc_of_shr_record_of_loc m l) as [-> ->]. split; [exact Hm|exact H].
Qed.

(** Rounding to nearest, ties to even, moves by at most one half. *)
Lemma round_nearest_even_spec y mrs :
  represents y mrs ->
  let m1 := round_nearest_even (shr_m mrs) (loc_of_shr_record mrs) in
  shr_m mrs <= m1 <= shr_m mrs + 1 /\
  (- (1 # 2) <= inject_Z m1 - y <= 1 # 2)%Q /\
  (loc_of_shr_record mrs = loc_Exact -> (inject_Z m1 == y)%Q).
Proof.
  intros [Hm H]. cbv zeta.
  destruct (loc_of_shr_record mrs) as [|[]]; cbn [round_nearest_even locq] in *.
  - split; [lia|]. split; [lra|]. intros _. lra.
  - destruct (Z.even (shr_m mrs)); (split; [lia|]); (split; [|discriminate]);
      rewrite ?inject_Z_plus; change (inject_Z 1) with 1%Q; lra.
  - split; [lia|]. split; [lra|discriminate].
  - split; [lia|]. split; [|discriminate].
    rewrite inject_Z_plus. change (inject_Z 1) with 1%Q. lra.
Qed.

(** ** Rounding to nearest *)

Lemma Qscale_le a b p : (0 < p)%Q -> (a <= b)%Q -> (a * p <= b * p)%Q.
Proof. intros Hp H. apply Qmult_le_compat_r; [exact H|lra]. Qed.

Lemma Qscale_lt a b p : (0 < p)%Q -> (a < b)%Q -> (a * p < b * p)%Q.
Proof. intros Hp H. apply Qmult_lt_compat_r; [exact Hp|exact H]. Qed.

Lemma pow2_cancel x e : (x * pow2 (- e) * pow2 e == x)%Q.
Proof.
  rewrite <- Qmult_assoc, <- pow2_add. replace (- e + e) with 0 by lia.
  rewrite pow2_0. ring.
Qed.

Lemma pow2_shift x a b : (x * pow2 a * pow2 b == x * pow2 (a + b))%Q.
Proof. rewrite <- Qmult_assoc, <- pow2_add. reflexivity. Qed.

Lemma inject_Z_lt_inv a b : (inject_Z a < inject_Z b)%Q -> a < b.
Proof. rewrite <- Zlt_Qlt. auto. Qed.

Lemma inject_Z_le_inv a b : (inject_Z a <= inject_Z b)%Q -> a <= b.
Proof. rewrite <- Zle_Qle. auto. Qed.

Lemma shr_nonpos mrs e n : n <= 0 -> shr mrs e n = (mrs, e).
Proof. destruct n; [reflexivity|lia|reflexivity]. Qed.

Section Shifts.

Variables prec emax : Z.
Hypothesis Hprec : 0 < prec.
Hypothesis Hemax : prec < emax.

Local Abbreviation fexp := (fexp prec emax).
Local Abbreviation emin := (emin prec emax).

Lemma fexp_ge_emin e : emin <= fexp e.
Proof. unfold SpecFloat.fexp. lia. Qed.

Lemma fexp_mono a b : a <= b -> fexp a <= fexp b.
Proof. unfold SpecFloat.fexp. lia. Qed.

Lemma fexp_cases e :
  (fexp e = emin /\ e - prec <= emin) \/ (fexp e = e - prec /\ emin < e - prec).
Proof. unfold SpecFloat.fexp. lia. Qed.

(** The first shift of [binary_round_aux] brings the number to the
    exponent of its format. *)
Lemma shr_fexp_first m e l x :
  0 < m -> locq (x * pow2 (- e) - inject_Z m) l ->
  e <= fexp (Zdigits2 m + e) ->
  let r := shr_fexp prec emax m e l in
  let e1 := fexp (Zdigits2 m + e) in
  represents (x * pow2 (- e1)) (fst r) /\ snd r = e1 /\
  shr_m (fst r) < 2 ^ prec /\
  (emin < e1 -> 2 ^ (prec - 1) <= shr_m (fst r)) /\
  (forall k, (x < pow2 k)%Q -> e1 <= fexp k) /\
  (e = e1 -> fst r = shr_record_of_loc m l).
Proof.
  intros Hm Hl He. cbv zeta. unfold shr_fexp.
  destruct (Zdigits2_bounds m Hm) as (Hd & Hlo & Hhi).
  set (d := Zdigits2 m) in *. set (e1 := fexp (d + e)) in *.
  pose proof (represents_of_loc _ m l ltac:(lia) Hl) as H0.
  destruct (shr_spec _ _ e (e1 - e) ltac:(lia) H0) as [Hrep He1].
  set (r := shr (shr_record_of_loc m l) e (e1 - e)) in *.
  assert (Hrep1 : represents (x * pow2 (- e1)) (fst r)).
  { apply (represents_ext _ _ _ (pow2_shift x (- e) (- (e1 - e)))) in Hrep.
    replace (- e + - (e1 - e)) with (- e1) in Hrep by lia. exact Hrep. }
  pose proof (represents_range _ _ Hrep1) as Hrange.
  pose proof (locq_range _ _ Hl) as Hf.
  (* y0 = x / 2^e lies in [2^(d-1), 2^d) *)
  assert (Hy0lo : (pow2 (d - 1) <= x * pow2 (- e))%Q).
  { pose proof (inject_Z_ge_pow2 m (d - 1) ltac:(lia) Hlo). lra. }
  assert (Hy0hi : (x * pow2 (- e) < pow2 d)%Q).
  { pose proof (inject_Z_ge_pow2 (2 ^ d) d ltac:(lia) ltac:(lia)) as H1.
    assert (H2 : (inject_Z (m + 1) <= pow2 d)%Q).
    { rewrite <- pow2_Z by lia. rewrite <- Zle_Qle. lia. }
    rewrite inject_Z_plus in H2. change (inject_Z 1) with 1%Q in H2. lra. }
  (* y1 = x / 2^e1 lies in [2^(d-1+e-e1), 2^(d+e-e1)) *)
  assert (Hy1 : (x * pow2 (- e1) == x * pow2 (- e) * pow2 (e - e1))%Q).
  { rewrite pow2_shift. replace (- e + (e - e1)) with (- e1) by lia. reflexivity. }
  assert (Hy1lo : (pow2 (d - 1 + e - e1) <= x * pow2 (- e1))%Q).
  { rewrite Hy1. replace (d - 1 + e - e1) with (d - 1 + (e - e1)) by lia.
    rewrite pow2_add. apply Qscale_le; [apply pow2_pos|exact Hy0lo]. }
  assert (Hy1hi : (x * pow2 (- e1) < pow2 (d + e - e1))%Q).
  { rewrite Hy1. replace (d + e - e1) with (d + (e - e1)) by lia.
    rewrite pow2_add. apply Qscale_lt; [apply pow2_pos|exact Hy0hi]. }
  split; [exact Hrep1|]. split; [lia|].
  destruct Hrep1 as [Hm1 _].
  split; [|split; [|split]].
  - apply inject_Z_lt_inv. rewrite pow2_Z by lia.
    assert (pow2 (d + e - e1) <= pow2 prec)%Q.
    { apply pow2_le. destruct (fexp_cases (d + e)) as [[E ?]|[E ?]]; fold e1 in E; lia. }
    lra.
  - intros Hnorm.
    destruct (fexp_cases (d + e)) as [[E ?]|[E ?]]; fold e1 in E; [lia|].
    replace (d - 1 + e - e1) with (prec - 1) in Hy1lo by lia.
    rewrite <- pow2_Z in Hy1lo by lia.
    assert (H2 : (inject_Z (2 ^ (prec - 1)) < inject_Z (shr_m (fst r) + 1))%Q).
    { rewrite inject_Z_plus. change (inject_Z 1) with 1%Q. lra. }
    apply inject_Z_lt_inv in H2. lia.
  - intros k Hk. apply fexp_mono.
    assert (H2 : (pow2 (d - 1) < pow2 (k - e))%Q).
    { assert (x * pow2 (- e) < pow2 k * pow2 (- e))%Q
        by (apply Qscale_lt; [apply pow2_pos|exact Hk]).
      rewrite <- pow2_add in H. replace (k + - e) with (k - e) in H by lia. lra. }
    apply pow2_lt_inv in H2. lia.
  - intros E. unfold r. rewrite shr_nonpos by lia. reflexivity.
Qed.

(** The second shift only renormalises a mantissa that rounding made a
    power of two. *)
Lemma shr_fexp_second m1 e1 :
  0 <= m1 <= 2 ^ prec -> emin <= e1 ->
  (emin < e1 -> 2 ^ (prec - 1) <= m1) ->
  let r := shr_fexp prec emax m1 e1 loc_Exact in
  (m1 = 0 /\ shr_m (fst r) = 0) \/
  (0 < shr_m (fst r) /\
   (inject_Z (shr_m (fst r)) * pow2 (snd r) == inject_Z m1 * pow2 e1)%Q /\
   fexp (Zdigits2 (shr_m (fst r)) + snd r) = snd r /\
   snd r <= e1 + 1 /\ (m1 < 2 ^ prec -> snd r = e1)).
Proof.
  intros [Hlo Hhi] He Hnorm. cbv zeta. unfold shr_fexp.
  destruct (Z.eq_dec m1 0) as [->|Hne].
  { left. split; [reflexivity|]. rewrite shr_nonpos; [reflexivity|].
    cbn [Zdigits2]. unfold SpecFloat.fexp. lia. }
  right.
  destruct (Zdigits2_bounds m1 ltac:(lia)) as (Hd & Dlo & Dhi).
  destruct (Z.eq_dec m1 (2 ^ prec)) as [E|Hlt].
  - assert (Hdig : Zdigits2 m1 = prec + 1).
    { apply Zdigits2_unique; [lia|]. replace (prec + 1 - 1) with prec by lia.
      rewrite Z.pow_add_r by lia. lia. }
    rewrite Hdig.
    assert (Hn : fexp (prec + 1 + e1) - e1 = 1) by (unfold SpecFloat.fexp; lia).
    rewrite Hn.
    pose proof (represents_of_loc (inject_Z m1) m1 loc_Exact ltac:(lia)) as H0.
    cbn [locq] in H0. specialize (H0 ltac:(lra)).
    destruct (shr_spec _ _ e1 1 ltac:(lia) H0) as [Hrep He1'].
    set (r := shr (shr_record_of_loc m1 loc_Exact) e1 1) in *.
    pose proof (represents_range _ _ Hrep) as Hr.
    change (pow2 (-1)) with (1 # 2)%Q in Hr.
    assert (Hhalf : (inject_Z m1 * (1 # 2) == inject_Z (2 ^ (prec - 1)))%Q).
    { rewrite E. replace prec with (prec - 1 + 1) at 1 by lia.
      rewrite Z.pow_add_r by lia. rewrite inject_Z_mult.
      change (inject_Z (2 ^ 1)) with 2%Q. ring. }
    assert (Hm2 : shr_m (fst r) = 2 ^ (prec - 1)).
    { rewrite Hhalf in Hr. destruct Hr as [R1 R2].
      apply inject_Z_le_inv in R1.
      assert (R3 : (inject_Z (2 ^ (prec - 1)) < inject_Z (shr_m (fst r) + 1))%Q).
      { rewrite inject_Z_plus. change (inject_Z 1) with 1%Q. exact R2. }
      apply inject_Z_lt_inv in R3. lia. }
    assert (Hp : 0 < 2 ^ (prec - 1)) by (apply Z.pow_pos_nonneg; lia).
    split; [lia|]. split; [|split; [|split]].
    + rewrite Hm2, He1', pow2_add. rewrite <- Hhalf.
      change (pow2 1) with 2%Q. ring.
    + rewrite Hm2, He1'.
      rewrite (Zdigits2_unique (2 ^ (prec - 1)) prec Hp).
      * unfold SpecFloat.fexp. lia.
      * split; [lia|]. apply Z.pow_lt_mono_r; lia.
    + lia.
    + lia.
  - assert (Hdig : Zdigits2 m1 <= prec).
    { destruct (Z_lt_le_dec prec (Zdigits2 m1)) as [H|H]; [|exact H].
      assert (2 ^ prec <= 2 ^ (Zdigits2 m1 - 1)) by (apply Z.pow_le_mono_r; lia). lia. }
    assert (Hcanon : fexp (Zdigits2 m1 + e1) = e1).
    { destruct (Z.eq_dec e1 emin) as [E|E]; [unfold SpecFloat.fexp; lia|].
      specialize (Hnorm ltac:(lia)).
      assert (Zdigits2 m1 = prec).
      { apply Zdigits2_unique; lia. }
      unfold SpecFloat.fexp; lia. }
    rewrite Hcanon, shr_nonpos by lia. cbn [fst snd shr_record_of_loc shr_m].
    split; [lia|]. split; [reflexivity|]. split; [exact Hcanon|]. split; lia.
Qed.

End Shifts.

Lemma signed_0 s : (signed s 0 == 0)%Q.
Proof. destruct s; reflexivity. Qed.

Section Nearest.

Variables prec emax : Z.
Hypothesis Hprec : 0 < prec.
Hypothesis Hemax : prec < emax.

Local Abbreviation fexp := (fexp prec emax).
Local Abbreviation emin := (emin prec emax).

(** [binary_round_aux] on a positive number [x] below [2^k], given by
    its integer part at exponent [e] and the location of the rest:
    the result is a valid finite float of the given sign whose
    magnitude is within half a unit in the last place of [x]. *)
Lemma binary_round_aux_spec s m e l x k :
  0 < m -> locq (x * pow2 (- e) - inject_Z m) l ->
  e <= fexp (Zdigits2 m + e) ->
  (x < pow2 k)%Q -> k < emax ->
  exists r,
    valid_binary prec emax (binary_round_aux prec emax s m e l) = true /\
    is_finite (binary_round_aux prec emax s m e l) = true /\
    (valq (binary_round_aux prec emax s m e l) == signed s r)%Q /\
    (0 <= r)%Q /\
    (x - pow2 (fexp k - 1) <= r <= x + pow2 (fexp k - 1))%Q /\
    (l = loc_Exact -> e = fexp (Zdigits2 m + e) -> (r == x)%Q).
Proof.
  intros Hm Hl He Hx Hk.
  destruct (shr_fexp_first prec emax Hprec m e l x Hm Hl He)
    as (Hrep & He1 & Hhi & Hnorm & Hbound & Hsame).
  specialize (Hbound k Hx).
  unfold binary_round_aux.
  destruct (shr_fexp prec emax m e l) as [mrs1 e1'] eqn:E1. cbn [fst snd] in *.
  subst e1'. set (e1 := fexp (Zdigits2 m + e)) in *.
  destruct (round_nearest_even_spec _ _ Hrep) as (Hm1 & Herr & Hexact).
  set (m1 := round_nearest_even (shr_m mrs1) (loc_of_shr_record mrs1)) in *.
  destruct Hrep as [Hm0 Hloc0].
  pose proof (fexp_ge_emin prec emax (Zdigits2 m + e)) as Hemin. fold e1 in Hemin.
  assert (Hxpos : (0 < x)%Q).
  { pose proof (locq_range _ _ Hl) as Hf.
    assert (H1 : (0 < inject_Z m)%Q) by (change 0%Q with (inject_Z 0); rewrite <- Zlt_Qlt; lia).
    assert (H2 : (0 < x * pow2 (- e))%Q) by lra.
    pose proof (Qscale_lt _ _ (pow2 e) (pow2_pos e) H2) as H3.
    rewrite pow2_cancel in H3. lra. }
  pose proof (pow2_pos e1) as Hp1.
  pose proof (pow2_cancel x e1) as Hc.
  pose proof (pow2_pred e1) as Hhalf.
  assert (Hulp : (pow2 (e1 - 1) <= pow2 (fexp k - 1))%Q) by (apply pow2_le; lia).
  assert (Herr' : (x - pow2 (e1 - 1) <= inject_Z m1 * pow2 e1 <= x + pow2 (e1 - 1))%Q).
  { destruct Herr as [Ha Hb].
    pose proof (Qscale_le _ _ (pow2 e1) Hp1 Ha) as Ha'.
    pose proof (Qscale_le _ _ (pow2 e1) Hp1 Hb) as Hb'.
    assert (Hd : ((inject_Z m1 - x * pow2 (- e1)) * pow2 e1 ==
                  inject_Z m1 * pow2 e1 - x * pow2 (- e1) * pow2 e1)%Q) by ring.
    rewrite Hd, Hc in Ha', Hb'. lra. }
  assert (Hfexpk : fexp k + 1 <= emax - prec).
  { unfold SpecFloat.fexp, SpecFloat.emin. lia. }
  destruct (shr_fexp_second prec emax Hprec m1 e1 ltac:(lia) Hemin ltac:(lia))
    as [[Hz Hz2]|(Hpos & Hval & Hcanon & Hle & _)];
    destruct (shr_fexp prec emax m1 e1 loc_Exact) as [mrs2 e2] eqn:E2;
    cbn [fst snd] in *.
  - rewrite Hz2. exists 0%Q. cbn [valid_binary is_finite valq].
    split; [reflexivity|]. split; [reflexivity|].
    split; [symmetry; apply signed_0|]. split; [lra|].
    rewrite Hz in Herr'. change (inject_Z 0) with 0%Q in Herr'.
    split; [lra|].
    intros -> E. specialize (Hsame E). subst mrs1.
    cbn [shr_record_of_loc shr_m loc_of_shr_record round_nearest_even] in m1.
    subst m1. lia.
  - destruct (shr_m mrs2) as [|p|p] eqn:Ep; try lia.
    assert (He2 : (e2 <=? emax - prec) = true) by (apply Z.leb_le; lia).
    rewrite He2. exists (inject_Z (Zpos p) * pow2 e2)%Q.
    cbn [valid_binary is_finite valq].
    split.
    { unfold bounded, canonical_mantissa. rewrite He2, andb_true_r.
      apply Z.eqb_eq. exact Hcanon. }
    split; [reflexivity|]. split; [destruct s; reflexivity|].
    rewrite Hval.
    split.
    { apply Qmult_le_0_compat; [|lra].
      change 0%Q with (inject_Z 0). rewrite <- Zle_Qle. lia. }
    split; [lra|].
    intros -> E. specialize (Hsame E). subst mrs1.
    cbn [shr_record_of_loc shr_m loc_of_shr_record round_nearest_even] in m1.
    subst m1. fold e1 in E. rewrite <- E.
    pose proof (pow2_cancel x e) as Hce. cbn [locq] in Hl.
    assert (Hxe : (x * pow2 (- e) == inject_Z m)%Q) by lra.
    rewrite <- Hxe. exact Hce.
Qed.

End Nearest.

Lemma iter_xO_spec d m :
  Zpos (Pos.iter xO m d) = Zpos m * 2 ^ Zpos d /\
  Zpos (digits2_pos (Pos.iter xO m d)) = Zpos (digits2_pos m) + Zpos d.
Proof.
  induction d as [|d IH] using Pos.peano_ind.
  - cbn [Pos.iter digits2_pos]. split; lia.
  - rewrite Pos.iter_succ. cbn [digits2_pos]. destruct IH as [IH1 IH2].
    rewrite Pos2Z.inj_xO, IH1, !Pos2Z.inj_succ, IH2, Z.pow_succ_r by lia.
    split; lia.
Qed.

Lemma shl_align_spec mx ex ex' :
  let r := shl_align mx ex ex' in
  (inject_Z (Zpos (fst r)) * pow2 (snd r) == inject_Z (Zpos mx) * pow2 ex)%Q /\
  Zpos (digits2_pos (fst r)) + snd r = Zpos (digits2_pos mx) + ex /\
  snd r = Z.min ex ex'.
Proof.
  cbv zeta. unfold shl_align.
  destruct (ex' - ex) as [|d|d] eqn:E; cbn [fst snd].
  - split; [reflexivity|]. split; lia.
  - split; [reflexivity|]. split; lia.
  - destruct (iter_xO_spec d mx) as [H1 H2].
    split; [|split; lia].
    rewrite H1, inject_Z_mult, pow2_Z by lia.
    rewrite <- Qmult_assoc, <- pow2_add.
    replace (Zpos d + ex') with ex by lia. reflexivity.
Qed.

Section Normalize.

Variables prec emax : Z.
Hypothesis Hprec : 0 < prec.
Hypothesis Hemax : prec < emax.

Local Abbreviation fexp := (fexp prec emax).
Local Abbreviation emin := (emin prec emax).

(** Rounding of the positive number [mx * 2^ex], below [2^k]. *)
Lemma binary_round_spec s mx ex k :
  (inject_Z (Zpos mx) * pow2 ex < pow2 k)%Q -> k < emax ->
  exists r,
    valid_binary prec emax (binary_round prec emax s mx ex) = true /\
    is_finite (binary_round prec emax s mx ex) = true /\
    (valq (binary_round prec emax s mx ex) == signed s r)%Q /\
    (0 <= r)%Q /\
    (inject_Z (Zpos mx) * pow2 ex - pow2 (fexp k - 1) <= r
       <= inject_Z (Zpos mx) * pow2 ex + pow2 (fexp k - 1))%Q /\
    (fexp (Zpos (digits2_pos mx) + ex) <= ex ->
     (r == inject_Z (Zpos mx) * pow2 ex)%Q).
Proof.
  intros Hx Hk. unfold binary_round.
  destruct (shl_align_spec mx ex (fexp (Zpos (digits2_pos mx) + ex)))
    as (Hv & Hd & He).
  destruct (shl_align mx ex (fexp (Zpos (digits2_pos mx) + ex))) as [mz ez] eqn:E.
  cbn [fst snd] in *.
  set (x := (inject_Z (Zpos mx) * pow2 ex)%Q) in *.
  assert (Hl : locq (x * pow2 (- ez) - inject_Z (Zpos mz)) loc_Exact).
  { cbn [locq]. rewrite <- Hv.
    rewrite <- Qmult_assoc, <- pow2_add. replace (ez + - ez) with 0 by lia.
    rewrite pow2_0. ring. }
  assert (He' : ez <= fexp (Zdigits2 (Zpos mz) + ez)).
  { cbn [Zdigits2]. rewrite Hd. lia. }
  destruct (binary_round_aux_spec prec emax Hprec Hemax s (Zpos mz) ez loc_Exact x k
              ltac:(lia) Hl He' Hx Hk) as (r & H1 & H2 & H3 & H4 & H5 & H6).
  exists r. do 5 (split; [assumption|]).
  intros Hrep. apply H6; [reflexivity|]. cbn [Zdigits2]. rewrite Hd. lia.
Qed.

(** Rounding of the integer multiple [m * 2^e], of magnitude below [2^k];
    the result has the sign of [m] and is exact when [m] fits the format
    at exponent [e]. *)
Lemma binary_normalize_spec m e sz k :
  (- pow2 k < inject_Z m * pow2 e < pow2 k)%Q -> k < emax ->
  valid_binary prec emax (binary_normalize prec emax m e sz) = true /\
  is_finite (binary_normalize prec emax m e sz) = true /\
  (inject_Z m * pow2 e - pow2 (fexp k - 1)
     <= valq (binary_normalize prec emax m e sz)
     <= inject_Z m * pow2 e + pow2 (fexp k - 1))%Q /\
  (fexp (Zdigits2 m + e) <= e ->
   (valq (binary_normalize prec emax m e sz) == inject_Z m * pow2 e)%Q) /\
  (0 <= m -> (0 <= valq (binary_normalize prec emax m e sz))%Q) /\
  (m <= 0 -> (valq (binary_normalize prec emax m e sz) <= 0)%Q).
Proof.
  intros Hx Hk. pose proof (pow2_pos (fexp k - 1)) as Hh.
  destruct m as [|p|p]; cbn [binary_normalize Zdigits2].
  - cbn [valid_binary is_finite valq]. change (inject_Z 0) with 0%Q.
    split; [reflexivity|]. split; [reflexivity|]. split; [lra|].
    split; [intros _; ring|]. split; intros _; lra.
  - destruct (binary_round_spec false p e k ltac:(lra) Hk)
      as (r & H1 & H2 & H3 & H4 & H5 & H6).
    cbn [signed] in H3.
    split; [exact H1|]. split; [exact H2|]. split; [lra|].
    split; [intros H; rewrite H3; apply H6, H|].
    split; [intros _; lra|lia].
  - assert (Hn : (inject_Z (Zneg p) == - inject_Z (Zpos p))%Q).
    { change (Zneg p) with (- Zpos p). rewrite inject_Z_opp. reflexivity. }
    rewrite Hn in Hx |- *.
    destruct (binary_round_spec true p e k ltac:(lra) Hk)
      as (r & H1 & H2 & H3 & H4 & H5 & H6).
    cbn [signed] in H3.
    split; [exact H1|]. split; [exact H2|]. split; [lra|].
    split; [intros H; rewrite H3, (H6 H); ring|].
    split; [lia|intros _; lra].
Qed.

End Normalize.

(** ** Addition and subtraction *)

Lemma inject_Z_cond_Zopp s z :
  (inject_Z (cond_Zopp s z) == signed s (inject_Z z))%Q.
Proof. destruct s; cbn [cond_Zopp signed]; [rewrite inject_Z_opp|]; reflexivity. Qed.

Lemma valq_finite s m e :
  (valq (S754_finite s m e) == signed s (inject_Z (Zpos m) * pow2 e))%Q.
Proof. destruct s; reflexivity. Qed.

Lemma signed_mult s a b : (signed s a * b == signed s (a * b))%Q.
Proof. destruct s; cbn [signed]; ring. Qed.

Section AddSub.

Variables prec emax : Z.
Hypothesis Hprec : 0 < prec.
Hypothesis Hemax : prec < emax.

Local Abbreviation fexp := (fexp prec emax).
Local Abbreviation emin := (emin prec emax).
Local Abbreviation fin := (fin prec emax).

Lemma aligned_value sx mx ex ez :
  ez <= ex ->
  (inject_Z (cond_Zopp sx (Zpos (fst (shl_align mx ex ez)))) * pow2 ez ==
   valq (S754_finite sx mx ex))%Q.
Proof.
  intros H. destruct (shl_align_spec mx ex ez) as (Hv & _ & He).
  rewrite Z.min_r in He by lia. rewrite He in Hv.
  rewrite inject_Z_cond_Zopp, signed_mult, valq_finite.
  destruct sx; cbn [signed]; rewrite Hv; reflexivity.
Qed.

(** Addition of two finite floats whose exact sum is below [2^k] in
    magnitude: a finite float within half a unit in the last place of
    the exact sum, and not negative when the exact sum is not. *)
Lemma SFadd_spec x y k :
  fin x -> fin y ->
  (- pow2 k < valq x + valq y < pow2 k)%Q -> k < emax ->
  fin (SFadd prec emax x y) /\
  (valq x + valq y - pow2 (fexp k - 1) <= valq (SFadd prec emax x y)
     <= valq x + valq y + pow2 (fexp k - 1))%Q /\
  ((0 <= valq x + valq y)%Q -> (0 <= valq (SFadd prec emax x y))%Q).
Proof.
  intros [Vx Fx] [Vy Fy] Hs Hk. pose proof (pow2_pos (fexp k - 1)) as Hh.
  destruct x as [sx|sx| |sx mx ex]; try discriminate Fx;
    destruct y as [sy|sy| |sy my ey]; try discriminate Fy.
  - assert (E : SFadd prec emax (S754_zero sx) (S754_zero sy) = S754_zero sx \/
                SFadd prec emax (S754_zero sx) (S754_zero sy) = S754_zero false)
      by (destruct sx, sy; auto).
    destruct E as [-> | ->]; (split; [split; reflexivity|]); cbn [valq] in *;
      (split; [lra|intros _; lra]).
  - cbn [SFadd]. split; [split; assumption|]. cbn [valq] in *.
    split; [lra|intros H; lra].
  - cbn [SFadd]. split; [split; assumption|]. cbn [valq] in *.
    split; [lra|intros H; lra].
  - cbn [SFadd]. cbv zeta.
    set (ez := Z.min ex ey).
    set (M := cond_Zopp sx (Zpos (fst (shl_align mx ex ez)))
              + cond_Zopp sy (Zpos (fst (shl_align my ey ez)))).
    assert (HM : (inject_Z M * pow2 ez ==
                  valq (S754_finite sx mx ex) + valq (S754_finite sy my ey))%Q).
    { unfold M. rewrite inject_Z_plus, Qmult_plus_distr_l.
      rewrite !aligned_value by (unfold ez; lia). reflexivity. }
    destruct (binary_normalize_spec prec emax Hprec Hemax M ez false k)
      as (H1 & H2 & H3 & _ & H5 & _);
      [rewrite HM; exact Hs|exact Hk|].
    split; [split; assumption|]. rewrite <- HM. split; [exact H3|].
    intros Hpos. apply H5. apply inject_Z_le_inv.
    change (inject_Z 0) with 0%Q. pose proof (pow2_pos ez). nra.
Qed.

(** Subtraction, likewise. *)
Lemma SFsub_spec x y k :
  fin x -> fin y ->
  (- pow2 k < valq x - valq y < pow2 k)%Q -> k < emax ->
  fin (SFsub prec emax x y) /\
  (valq x - valq y - pow2 (fexp k - 1) <= valq (SFsub prec emax x y)
     <= valq x - valq y + pow2 (fexp k - 1))%Q.
Proof.
  intros [Vx Fx] [Vy Fy] Hs Hk. pose proof (pow2_pos (fexp k - 1)) as Hh.
  destruct x as [sx|sx| |sx mx ex]; try discriminate Fx;
    destruct y as [sy|sy| |sy my ey]; try discriminate Fy.
  - assert (E : SFsub prec emax (S754_zero sx) (S754_zero sy) = S754_zero sx \/
                SFsub prec emax (S754_zero sx) (S754_zero sy) = S754_zero false)
      by (destruct sx, sy; auto).
    destruct E as [-> | ->]; (split; [split; reflexivity|]); cbn [valq] in *; lra.
  - cbn [SFsub]. split; [split; assumption|].
    rewrite !valq_finite. cbn [valq]. destruct sy; cbn [negb signed]; lra.
  - cbn [SFsub]. split; [split; assumption|]. cbn [valq] in *. lra.
  - cbn [SFsub]. cbv zeta.
    set (ez := Z.min ex ey).
    set (M := cond_Zopp sx (Zpos (fst (shl_align mx ex ez)))
              - cond_Zopp sy (Zpos (fst (shl_align my ey ez)))).
    assert (HM : (inject_Z M * pow2 ez ==
                  valq (S754_finite sx mx ex) - valq (S754_finite sy my ey))%Q).
    { unfold M. unfold Z.sub. rewrite inject_Z_plus, inject_Z_opp.
      setoid_replace ((inject_Z (cond_Zopp sx (Zpos (fst (shl_align mx ex ez)))) +
                       - inject_Z (cond_Zopp sy (Zpos (fst (shl_align my ey ez))))) * pow2 ez)%Q
        with (inject_Z (cond_Zopp sx (Zpos (fst (shl_align mx ex ez)))) * pow2 ez -
              inject_Z (cond_Zopp sy (Zpos (fst (shl_align my ey ez)))) * pow2 ez)%Q using relation Qeq by ring.
      rewrite !aligned_value by (unfold ez; lia). reflexivity. }
    destruct (binary_normalize_spec prec emax Hprec Hemax M ez false k) as (H1 & H2 & H3 & _);
      [rewrite HM; exact Hs|exact Hk|].
    split; [split; assumption|]. rewrite <- HM. exact H3.
Qed.

End AddSub.

(** ** Comparison *)

Lemma Qcompare_lt a b : (a < b)%Q -> (a ?= b)%Q = Lt.
Proof. intros H. apply Qlt_alt. exact H. Qed.

Lemma Qcompare_gt a b : (b < a)%Q -> (a ?= b)%Q = Gt.
Proof. intros H. apply Qgt_alt. exact H. Qed.

Lemma Qcompare_eq a b : (a == b)%Q -> (a ?= b)%Q = Eq.
Proof. intros H. apply Qeq_alt. exact H. Qed.

Section Order.

Variables prec emax : Z.
Hypothesis Hprec : 0 < prec.
Hypothesis Hemax : prec < emax.

Local Abbreviation fexp := (fexp prec emax).
Local Abbreviation emin := (emin prec emax).
Local Abbreviation fin := (fin prec emax).

Lemma bounded_canonical m e :
  bounded prec emax m e = true ->
  fexp (Zpos (digits2_pos m) + e) = e /\ e <= emax - prec /\
  Zpos m < 2 ^ prec /\ emin <= e /\ (emin < e -> 2 ^ (prec - 1) <= Zpos m).
Proof.
  unfold bounded, canonical_mantissa. intros H.
  apply andb_prop in H as [H1 H2]. apply Z.eqb_eq in H1. apply Z.leb_le in H2.
  pose proof (digits2_pos_bounds m) as [Dlo Dhi].
  split; [exact H1|]. split; [exact H2|].
  assert (Hd : Zpos (digits2_pos m) <= prec) by (unfold SpecFloat.fexp in H1; lia).
  split; [|split].
  - assert (2 ^ Zpos (digits2_pos m) <= 2 ^ prec) by (apply Z.pow_le_mono_r; lia). lia.
  - unfold SpecFloat.fexp in H1. lia.
  - intros He. assert (Zpos (digits2_pos m) = prec) by (unfold SpecFloat.fexp in H1; lia).
    replace (prec - 1) with (Zpos (digits2_pos m) - 1) by lia. exact Dlo.
Qed.

(** Among the floats of the format, a smaller exponent is a smaller
    magnitude. *)
Lemma magnitude_order m1 e1 m2 e2 :
  bounded prec emax m1 e1 = true -> bounded prec emax m2 e2 = true ->
  e1 < e2 ->
  (inject_Z (Zpos m1) * pow2 e1 < inject_Z (Zpos m2) * pow2 e2)%Q.
Proof.
  intros B1 B2 He.
  destruct (bounded_canonical _ _ B1) as (_ & _ & H1 & Hmin & _).
  destruct (bounded_canonical _ _ B2) as (_ & _ & _ & _ & H2).
  specialize (H2 ltac:(lia)).
  pose proof (inject_Z_lt_pow2 _ prec ltac:(lia) H1) as Q1.
  pose proof (inject_Z_ge_pow2 _ (prec - 1) ltac:(lia) H2) as Q2.
  pose proof (Qscale_lt _ _ _ (pow2_pos e1) Q1) as Q3.
  pose proof (Qscale_le _ _ _ (pow2_pos e2) Q2) as Q4.
  rewrite <- pow2_add in Q3, Q4.
  assert (pow2 (prec + e1) <= pow2 (prec - 1 + e2))%Q by (apply pow2_le; lia).
  lra.
Qed.

Lemma mantissa_order m1 m2 e :
  ((inject_Z (Zpos m1) * pow2 e ?= inject_Z (Zpos m2) * pow2 e)%Q
   = Pos.compare_cont Eq m1 m2).
Proof.
  change (Pos.compare_cont Eq m1 m2) with (Zpos m1 ?= Zpos m2).
  pose proof (pow2_pos e) as Hp.
  destruct (Z.compare_spec (Zpos m1) (Zpos m2)) as [E|L|G].
  - apply Qcompare_eq. rewrite E. reflexivity.
  - apply Qcompare_lt, Qscale_lt; [exact Hp|]. rewrite <- Zlt_Qlt. exact L.
  - apply Qcompare_gt, Qscale_lt; [exact Hp|]. rewrite <- Zlt_Qlt. exact G.
Qed.

Lemma magnitude_pos m e : (0 < inject_Z (Zpos m) * pow2 e)%Q.
Proof.
  apply Qmult_lt_0_compat; [|apply pow2_pos].
  change 0%Q with (inject_Z 0). rewrite <- Zlt_Qlt. lia.
Qed.

(** On the finite floats of the format the comparison is the order of
    the rationals they stand for. *)
Lemma SFcompare_spec x y :
  fin x -> fin y -> SFcompare x y = Some (valq x ?= valq y)%Q.
Proof.
  intros [Vx Fx] [Vy Fy].
  destruct x as [sx|sx| |sx mx ex]; try discriminate Fx;
    destruct y as [sy|sy| |sy my ey]; try discriminate Fy;
    cbn [SFcompare valid_binary] in *.
  - reflexivity.
  - pose proof (magnitude_pos my ey) as Hy. f_equal. symmetry.
    destruct sy; cbn [valq]; [apply Qcompare_gt|apply Qcompare_lt]; lra.
  - pose proof (magnitude_pos mx ex) as Hx. f_equal. symmetry.
    destruct sx; cbn [valq]; [apply Qcompare_lt|apply Qcompare_gt]; lra.
  - pose proof (magnitude_pos mx ex) as Hx.
    pose proof (magnitude_pos my ey) as Hy. f_equal. symmetry.
    destruct sx, sy; cbn [valq].
    + destruct (Z.compare_spec ex ey) as [E|L|G].
      * subst ey. rewrite <- (mantissa_order mx my ex).
        destruct (Qcompare_spec (inject_Z (Zpos mx) * pow2 ex) (inject_Z (Zpos my) * pow2 ex))
          as [E|L|G]; cbn [CompOpp].
        -- apply Qcompare_eq. lra.
        -- apply Qcompare_gt. lra.
        -- apply Qcompare_lt. lra.
      * pose proof (magnitude_order _ _ _ _ Vx Vy L). apply Qcompare_gt. lra.
      * pose proof (magnitude_order _ _ _ _ Vy Vx G). apply Qcompare_lt. lra.
    + apply Qcompare_lt. lra.
    + apply Qcompare_gt. lra.
    + destruct (Z.compare_spec ex ey) as [E|L|G].
      * subst ey. apply mantissa_order.
      * pose proof (magnitude_order _ _ _ _ Vx Vy L). apply Qcompare_lt. lra.
      * pose proof (magnitude_order _ _ _ _ Vy Vx G). apply Qcompare_gt. lra.
Qed.

Lemma SFltb_spec x y :
  fin x -> fin y -> (SFltb x y = true <-> (valq x < valq y)%Q).
Proof.
  intros Hx Hy. unfold SFltb. rewrite (SFcompare_spec x y Hx Hy).
  rewrite Qlt_alt. destruct (valq x ?= valq y)%Q; split; congruence.
Qed.

Lemma SFleb_spec x y :
  fin x -> fin y -> (SFleb x y = true <-> (valq x <= valq y)%Q).
Proof.
  intros Hx Hy. unfold SFleb. rewrite (SFcompare_spec x y Hx Hy).
  rewrite Qle_alt. destruct (valq x ?= valq y)%Q; split; congruence.
Qed.

Lemma SFltb_false x y :
  fin x -> fin y -> SFltb x y = false -> (valq y <= valq x)%Q.
Proof.
  intros Hx Hy H. destruct (Qlt_le_dec (valq x) (valq y)) as [L|L]; [|exact L].
  apply (SFltb_spec x y Hx Hy) in L. congruence.
Qed.

Lemma SFleb_false x y :
  fin x -> fin y -> SFleb x y = false -> (valq y < valq x)%Q.
Proof.
  intros Hx Hy H. destruct (Qlt_le_dec (valq y) (valq x)) as [L|L]; [exact L|].
  apply (SFleb_spec x y Hx Hy) in L. congruence.
Qed.

End Order.

(** ** Division *)

(** The location that the division computes from the remainder [k] of a
    division by [nb] is the position of [k / nb] in the unit interval. *)
Lemma new_location_spec nb k f :
  0 < nb -> 0 <= k < nb -> (f * inject_Z nb == inject_Z k)%Q ->
  locq f (new_location nb k).
Proof.
  intros Hnb Hk Hf.
  assert (Hn : (0 < inject_Z nb)%Q)
    by (change 0%Q with (inject_Z 0); rewrite <- Zlt_Qlt; lia).
  assert (Hcmp : forall c, (2 * k ?= nb) = c ->
            match c with
            | Lt => (f < 1 # 2)%Q | Eq => (f == 1 # 2)%Q | Gt => ((1 # 2) < f)%Q
            end).
  { intros c Hc.
    assert (H2 : (2 * f * inject_Z nb == inject_Z (2 * k))%Q).
    { rewrite inject_Z_mult. change (inject_Z 2) with 2%Q. rewrite <- Hf. ring. }
    destruct c.
    - apply Z.compare_eq in Hc. rewrite Hc in H2. nra.
    - assert (inject_Z (2 * k) < inject_Z nb)%Q
        by (rewrite <- Zlt_Qlt; apply Z.compare_lt_iff; exact Hc). nra.
    - assert (inject_Z nb < inject_Z (2 * k))%Q
        by (rewrite <- Zlt_Qlt; apply Z.compare_gt_iff; exact Hc). nra. }
  assert (Hf0 : k = 0 -> (f == 0)%Q).
  { intros ->. change (inject_Z 0) with 0%Q in Hf. nra. }
  assert (Hfpos : k <> 0 -> (0 < f)%Q).
  { intros Hne. assert (0 < inject_Z k)%Q
      by (change 0%Q with (inject_Z 0); rewrite <- Zlt_Qlt; lia). nra. }
  assert (Hf1 : (f < 1)%Q).
  { assert (inject_Z k < inject_Z nb)%Q by (rewrite <- Zlt_Qlt; lia). nra. }
  unfold new_location.
  destruct (Z.even nb) eqn:Ev.
  - unfold new_location_even. destruct (Z.eqb_spec k 0) as [E|E].
    + cbn [locq]. exact (Hf0 E).
    + specialize (Hfpos E). pose proof (Hcmp _ eq_refl) as H.
      destruct (2 * k ?= nb); cbn [locq]; lra.
  - unfold new_location_odd. destruct (Z.eqb_spec k 0) as [E|E].
    + cbn [locq]. exact (Hf0 E).
    + specialize (Hfpos E). pose proof (Hcmp _ eq_refl) as H.
      assert (Hodd : Z.odd nb = true) by (rewrite <- Z.negb_even, Ev; reflexivity).
      apply Z.odd_spec in Hodd as [h Hh].
      destruct (Z.compare_spec (2 * k + 1) nb) as [C|C|C];
        destruct (Z.compare_spec (2 * k) nb) as [C'|C'|C']; try lia;
        cbn [locq]; lra.
Qed.

Section Division.

Variables prec emax : Z.
Hypothesis Hprec : 0 < prec.
Hypothesis Hemax : prec < emax.

Local Abbreviation fexp := (fexp prec emax).
Local Abbreviation emin := (emin prec emax).
Local Abbreviation fin := (fin prec emax).

(** Division of two finite non-zero floats whose exact quotient has a
    magnitude [t] in the normal range, between [2^klo] and [2^k]: a
    finite float whose magnitude is within half a unit in the last
    place of [t]. *)
Lemma SFdiv_spec sx mx ex sy my ey t k klo :
  (t * (inject_Z (Zpos my) * pow2 ey) == inject_Z (Zpos mx) * pow2 ex)%Q ->
  (pow2 klo <= t < pow2 k)%Q -> emin + prec <= klo -> k < emax ->
  exists r,
    fin (SFdiv prec emax (S754_finite sx mx ex) (S754_finite sy my ey)) /\
    (valq (SFdiv prec emax (S754_finite sx mx ex) (S754_finite sy my ey))
       == signed (xorb sx sy) r)%Q /\
    (t - pow2 (fexp k - 1) <= r <= t + pow2 (fexp k - 1))%Q.
Proof.
  intros Ht [Hlo Hhi] Hklo Hk.
  cbn [SFdiv]. unfold SFdiv_core_binary. cbv zeta.
  set (m1 := Zpos mx). set (m2 := Zpos my).
  destruct (Zdigits2_bounds m1 ltac:(unfold m1; lia)) as (Hd1 & L1 & U1).
  destruct (Zdigits2_bounds m2 ltac:(unfold m2; lia)) as (Hd2 & L2 & U2).
  set (d1 := Zdigits2 m1) in *. set (d2 := Zdigits2 m2) in *.
  set (D := d1 + ex - (d2 + ey)).
  set (e' := Z.min (fexp D) (ex - ey)).
  set (s := ex - ey - e').
  pose proof (pow2_pos klo) as Hpk.
  (* the magnitude of the quotient *)
  assert (HD : klo <= D).
  { assert (HA : (pow2 (d2 - 1 + ey) <= inject_Z m2 * pow2 ey)%Q).
    { rewrite pow2_add. apply Qscale_le; [apply pow2_pos|].
      apply inject_Z_ge_pow2; [lia|exact L2]. }
    assert (HB : (inject_Z m1 * pow2 ex < pow2 (d1 + ex))%Q).
    { rewrite pow2_add. apply Qscale_lt; [apply pow2_pos|].
      apply inject_Z_lt_pow2; [lia|exact U1]. }
    pose proof (pow2_pos (d2 - 1 + ey)) as HA0.
    assert (HC : (pow2 klo * pow2 (d2 - 1 + ey) < pow2 (d1 + ex))%Q).
    { fold m1 m2 in Ht. nra. }
    rewrite <- pow2_add in HC. apply pow2_lt_inv in HC. unfold D. lia. }
  assert (HfD : fexp D = D - prec) by (unfold SpecFloat.fexp; lia).
  assert (He' : e' <= D - prec) by (unfold e'; lia).
  assert (Hs : 0 <= s /\ d2 - d1 + prec <= s) by (unfold s, e', D in *; lia).
  set (m' := m1 * 2 ^ s).
  assert (Hm' : match s with Zpos _ => Z.shiftl m1 s | Z0 => m1 | Zneg _ => 0 end = m').
  { unfold m'. destruct s as [|p|p] eqn:Es; [cbn; lia| |lia].
    rewrite Z.shiftl_mul_pow2; lia. }
  rewrite Hm'.
  pose proof (Z_div_mod m' m2 ltac:(unfold m2; lia)) as Hdiv.
  destruct (Z.div_eucl m' m2) as [q r]. destruct Hdiv as [Hqr Hr].
  assert (Hps : 0 < 2 ^ s) by (apply Z.pow_pos_nonneg; lia).
  (* the quotient has enough digits *)
  set (n0 := d1 - 1 + s - d2).
  assert (Hq : 2 ^ n0 <= q).
  { assert (Hm'lo : 2 ^ (d1 - 1) * 2 ^ s <= m') by (unfold m'; nia).
    rewrite <- Z.pow_add_r in Hm'lo by lia.
    assert (Hn0 : 2 ^ (d1 - 1 + s) = 2 ^ n0 * 2 ^ d2).
    { rewrite <- Z.pow_add_r by (unfold n0; lia). f_equal. unfold n0. lia. }
    assert (0 < 2 ^ n0) by (apply Z.pow_pos_nonneg; unfold n0; lia).
    nia. }
  assert (Hqpos : 0 < q).
  { assert (0 < 2 ^ n0) by (apply Z.pow_pos_nonneg; unfold n0; lia). lia. }
  assert (Hdq : D <= Zdigits2 q + e').
  { destruct (Zdigits2_bounds q Hqpos) as (_ & _ & Uq).
    assert (n0 < Zdigits2 q).
    { destruct (Z_lt_le_dec n0 (Zdigits2 q)) as [H|H]; [exact H|].
      assert (2 ^ Zdigits2 q <= 2 ^ n0) by (apply Z.pow_le_mono_r; lia). lia. }
    unfold n0, s, D in *. lia. }
  assert (Hfexp : e' <= fexp (Zdigits2 q + e')).
  { pose proof (fexp_mono prec emax D (Zdigits2 q + e') Hdq). lia. }
  (* the location of the rest *)
  assert (Hloc : locq (t * pow2 (- e') - inject_Z q) (new_location m2 r)).
  { apply new_location_spec; [unfold m2; lia|exact Hr|].
    assert (Hm2 : (0 < inject_Z m2)%Q)
      by (change 0%Q with (inject_Z 0); rewrite <- Zlt_Qlt; unfold m2; lia).
    assert (E1 : (t * pow2 (- e') * inject_Z m2 == inject_Z m')%Q).
    { unfold m'. rewrite inject_Z_mult, pow2_Z by lia.
      assert (E2 : (t * inject_Z m2 == inject_Z m1 * pow2 (ex - ey))%Q).
      { replace (ex - ey) with (ex + - ey) by lia. rewrite pow2_add.
        pose proof (pow2_cancel (t * inject_Z m2) (- ey)) as Hc.
        replace (- - ey) with ey in Hc by lia.
        rewrite <- Hc.
        setoid_replace (t * inject_Z m2 * pow2 ey)%Q
          with (t * (inject_Z m2 * pow2 ey))%Q using relation Qeq by ring.
        fold m1 m2 in Ht. rewrite Ht. ring. }
      setoid_replace (t * pow2 (- e') * inject_Z m2)%Q
        with (t * inject_Z m2 * pow2 (- e'))%Q using relation Qeq by ring.
      rewrite E2, <- Qmult_assoc, <- pow2_add.
      replace (ex - ey + - e') with s by (unfold s; lia). reflexivity. }
    rewrite Hqr in E1. rewrite inject_Z_plus, inject_Z_mult in E1.
    setoid_replace ((t * pow2 (- e') - inject_Z q) * inject_Z m2)%Q
      with (t * pow2 (- e') * inject_Z m2 - inject_Z m2 * inject_Z q)%Q using relation Qeq by ring.
    rewrite E1. ring. }
  destruct (binary_round_aux_spec prec emax Hprec Hemax (xorb sx sy) q e'
              (new_location m2 r) t k Hqpos Hloc Hfexp Hhi Hk)
    as (rr & H1 & H2 & H3 & _ & H5 & _).
  exists rr. split; [split; assumption|]. split; assumption.
Qed.

End Division.

(** * The period estimate over the clock's range *)

(** ** Binary32 and binary64 *)

Ltac eval_pow2 :=
  repeat match goal with
  | |- context [pow2 ?k] =>
      let v := eval vm_compute in (pow2 k) in change (pow2 k) with v
  | H : context [pow2 ?k] |- _ =>
      let v := eval vm_compute in (pow2 k) in change (pow2 k) with v in H
  end.

Lemma prec32 : 0 < F32.prec.
Proof. reflexivity. Qed.

Lemma emax32 : F32.prec < F32.emax.
Proof. reflexivity. Qed.

Lemma prec64 : 0 < F64.prec.
Proof. reflexivity. Qed.

Lemma emax64 : F64.prec < F64.emax.
Proof. reflexivity. Qed.

Lemma F32_sub_spec x y k :
  fin32 x -> fin32 y ->
  (- pow2 k < valq x - valq y < pow2 k)%Q -> k < F32.emax ->
  fin32 (F32.sub x y) /\
  (valq x - valq y - pow2 (SpecFloat.fexp F32.prec F32.emax k - 1)
     <= valq (F32.sub x y)
     <= valq x - valq y + pow2 (SpecFloat.fexp F32.prec F32.emax k - 1))%Q.
Proof. apply (SFsub_spec F32.prec F32.emax prec32 emax32). Qed.

Lemma F32_add_spec x y k :
  fin32 x -> fin32 y ->
  (- pow2 k < valq x + valq y < pow2 k)%Q -> k < F32.emax ->
  fin32 (F32.add x y) /\
  (valq x + valq y - pow2 (SpecFloat.fexp F32.prec F32.emax k - 1)
     <= valq (F32.add x y)
     <= valq x + valq y + pow2 (SpecFloat.fexp F32.prec F32.emax k - 1))%Q /\
  ((0 <= valq x + valq y)%Q -> (0 <= valq (F32.add x y))%Q).
Proof. apply (SFadd_spec F32.prec F32.emax prec32 emax32). Qed.

Lemma F32_gtb_true x y : fin32 x -> fin32 y -> F32.gtb x y = true -> (valq y < valq x)%Q.
Proof. intros Hx Hy H. apply (SFltb_spec F32.prec F32.emax prec32 y x Hy Hx), H. Qed.

Lemma F32_gtb_false x y : fin32 x -> fin32 y -> F32.gtb x y = false -> (valq x <= valq y)%Q.
Proof. intros Hx Hy H. apply (SFltb_false F32.prec F32.emax prec32 y x Hy Hx), H. Qed.

Lemma F32_leb_true x y : fin32 x -> fin32 y -> F32.leb x y = true -> (valq x <= valq y)%Q.
Proof. intros Hx Hy H. apply (SFleb_spec F32.prec F32.emax prec32 x y Hx Hy), H. Qed.

Lemma fin32_MAX_TIME_PERIOD_SEC :
  fin32 MAX_TIME_PERIOD_SEC /\ (valq MAX_TIME_PERIOD_SEC == 3 # 2)%Q.
Proof. split; [split; vm_compute; reflexivity|vm_compute; reflexivity]. Qed.

Lemma fin32_NO_DETECT_DUR_SEC :
  fin32 NO_DETECT_DUR_SEC /\ ((1 # 5) <= valq NO_DETECT_DUR_SEC)%Q.
Proof. split; [split; vm_compute; reflexivity|vm_compute; discriminate]. Qed.

Lemma in_range_ok t : in_range t = true -> clock_ok t.
Proof.
  unfold in_range. intros H.
  apply andb_prop in H as [H H4]. apply andb_prop in H as [H H3].
  apply andb_prop in H as [H1 H2].
  assert (Hf : fin32 t) by (split; assumption).
  split; [exact Hf|].
  assert (Hz : fin32 F32.zero) by (split; reflexivity).
  assert (Hm : fin32 (F32.of_Z (2 ^ 20))) by (split; vm_compute; reflexivity).
  apply (F32_leb_true _ _ Hz Hf) in H3. apply (F32_leb_true _ _ Hf Hm) in H4.
  assert (E : (valq (F32.of_Z (2 ^ 20)) == 1048576)%Q) by (vm_compute; reflexivity).
  rewrite E in H4. change (valq F32.zero) with 0%Q in H3. split; assumption.
Qed.

Lemma clock_recorded t : clock_ok t -> recorded_ok t.
Proof. intros [H1 H2]. split; [exact H1|lra]. Qed.

(** The clamp of lines 305-306 and 328-329 records a timestamp 1.5 s
    before the candidate's, up to a sixteenth of a second. *)
Lemma clamp_ok t :
  clock_ok t ->
  recorded_ok (F32.sub t MAX_TIME_PERIOD_SEC) /\
  (valq t - (25 # 16) <= valq (F32.sub t MAX_TIME_PERIOD_SEC) <= valq t - (23 # 16))%Q.
Proof.
  intros [Hf Hr]. destruct fin32_MAX_TIME_PERIOD_SEC as [Hm Em].
  destruct (F32_sub_spec t MAX_TIME_PERIOD_SEC 21 Hf Hm) as [H1 H2].
  - rewrite Em. eval_pow2. lra.
  - reflexivity.
  - rewrite Em in H2. eval_pow2.
    split; [split; [exact H1|lra]|lra].
Qed.

(** The period term committed after the clamp is 1.5 s, up to a
    sixteenth of a second. *)
Lemma clamped_term t :
  clock_ok t ->
  fin32 (F32.sub t (F32.sub t MAX_TIME_PERIOD_SEC)) /\
  ((11 # 8) <= valq (F32.sub t (F32.sub t MAX_TIME_PERIOD_SEC)) <= (51 # 32))%Q.
Proof.
  intros Ht. destruct (clamp_ok t Ht) as [[Hp _] Hv]. destruct Ht as [Hf Hr].
  destruct (F32_sub_spec t (F32.sub t MAX_TIME_PERIOD_SEC) 1 Hf Hp) as [H1 H2].
  - eval_pow2. lra.
  - reflexivity.
  - eval_pow2. split; [exact H1|lra].
Qed.

(** The period term committed without the clamp: the dead time has
    passed, so it exceeds 0.2 s, and the clamp did not fire, so it is
    at most 1.5 s, up to a sixteenth of a second. *)
Lemma plain_term t p :
  clock_ok t -> recorded_ok p ->
  F32.gtb t (F32.add p MAX_TIME_PERIOD_SEC) = false ->
  dead_time_passed t p = true ->
  fin32 (F32.sub t p) /\ ((1 # 5) <= valq (F32.sub t p) <= (51 # 32))%Q.
Proof.
  intros [Hf Hr] [Hpf Hpr] Hclamp Hdead.
  destruct fin32_MAX_TIME_PERIOD_SEC as [Hm Em].
  destruct fin32_NO_DETECT_DUR_SEC as [Hn En].
  destruct (F32_add_spec p MAX_TIME_PERIOD_SEC 21 Hpf Hm) as (Ha1 & Ha2 & _);
    [rewrite Em; eval_pow2; lra|reflexivity|].
  rewrite Em in Ha2. eval_pow2.
  apply (F32_gtb_false _ _ Hf Ha1) in Hclamp.
  destruct (F32_sub_spec t p 21 Hf Hpf) as [Hs1 Hs2];
    [eval_pow2; lra|reflexivity|].
  eval_pow2.
  unfold dead_time_passed in Hdead.
  apply (F32_gtb_true _ _ Hs1 Hn) in Hdead.
  destruct (F32_sub_spec t p 1 Hf Hpf) as [_ Hs3];
    [eval_pow2; lra|reflexivity|].
  eval_pow2. split; [exact Hs1|lra].
Qed.

(** Adding a period term to the period sum. *)
Lemma accumulate n s tau :
  0 <= n < 52 -> period_ok n s -> fin32 tau ->
  ((1 # 5) <= valq tau <= (51 # 32))%Q ->
  period_ok (n + 1) (F32.add s tau).
Proof.
  intros Hn [Hs Hv] Ht Hb.
  assert (Hn1 : (0 <= inject_Z n)%Q) by (change 0%Q with (inject_Z 0); rewrite <- Zle_Qle; lia).
  assert (Hn2 : (inject_Z n <= 51)%Q) by (change 51%Q with (inject_Z 51); rewrite <- Zle_Qle; lia).
  destruct (F32_add_spec s tau 7 Hs Ht) as (H1 & H2 & _);
    [eval_pow2; lra|reflexivity|].
  eval_pow2. unfold period_ok. rewrite inject_Z_plus. change (inject_Z 1) with 1%Q.
  split; [exact H1|lra].
Qed.

Lemma fin_pos prec emax x :
  fin prec emax x -> (0 < valq x)%Q ->
  exists m e, x = S754_finite false m e /\ bounded prec emax m e = true.
Proof.
  intros [V F] H. destruct x as [s|s| |s m e]; try discriminate F.
  - cbn [valq] in H. lra.
  - destruct s.
    + pose proof (magnitude_pos m e). cbn [valq] in H. lra.
    + exists m, e. split; [reflexivity|exact V].
Qed.

(** Conversion of a small positive integer to [float] is exact. *)
Lemma of_Z_spec n :
  0 < n < 2 ^ 24 -> fin32 (F32.of_Z n) /\ (valq (F32.of_Z n) == inject_Z n)%Q.
Proof.
  intros Hn.
  assert (Hq : (0 < inject_Z n < 16777216)%Q).
  { change 0%Q with (inject_Z 0). change 16777216%Q with (inject_Z (2 ^ 24)).
    rewrite <- !Zlt_Qlt. exact Hn. }
  destruct (binary_normalize_spec F32.prec F32.emax prec32 emax32 n 0 false 24)
    as (H1 & H2 & _ & H4 & _).
  - change (pow2 0) with 1%Q. eval_pow2. lra.
  - reflexivity.
  - split; [split; assumption|].
    unfold F32.of_Z. rewrite H4.
    + change (pow2 0) with 1%Q. ring.
    + destruct (Zdigits2_bounds n ltac:(lia)) as (Hd & Hlo & _).
      assert (Zdigits2 n <= 24).
      { destruct (Z_lt_le_dec 24 (Zdigits2 n)) as [H|H]; [|exact H].
        assert (2 ^ 24 <= 2 ^ (Zdigits2 n - 1)) by (apply Z.pow_le_mono_r; lia). lia. }
      unfold SpecFloat.fexp, SpecFloat.emin, F32.prec, F32.emax. lia.
Qed.

(** Conversion of a finite [float] to [double] is exact. *)
Lemma of_float_spec x :
  fin32 x -> fin64 (F64.of_float x) /\ (valq (F64.of_float x) == valq x)%Q.
Proof.
  intros [V F]. destruct x as [s|s| |s m e]; try discriminate F.
  { split; [split; reflexivity|reflexivity]. }
  cbn [F64.of_float valid_binary] in *.
  destruct (bounded_canonical F32.prec F32.emax prec32 m e V)
    as (Hc & He & Hm & Hemin & _).
  assert (Hval : (inject_Z (cond_Zopp s (Zpos m)) * pow2 e ==
                  valq (S754_finite s m e))%Q).
  { rewrite inject_Z_cond_Zopp, signed_mult, valq_finite. reflexivity. }
  assert (Hmag : (inject_Z (Zpos m) * pow2 e < pow2 128)%Q).
  { pose proof (inject_Z_lt_pow2 _ 24 ltac:(lia) Hm) as Q1.
    pose proof (Qscale_lt _ _ _ (pow2_pos e) Q1) as Q2.
    rewrite <- pow2_add in Q2.
    assert (pow2 (24 + e) <= pow2 128)%Q
      by (apply pow2_le; unfold F32.prec, F32.emax in He; lia).
    lra. }
  pose proof (magnitude_pos m e) as Hpos.
  destruct (binary_normalize_spec F64.prec F64.emax prec64 emax64
              (cond_Zopp s (Zpos m)) e s 128) as (H1 & H2 & _ & H4 & _).
  - rewrite Hval. destruct s; cbn [valq]; lra.
  - reflexivity.
  - split; [split; assumption|]. rewrite H4; [exact Hval|].
    assert (Hd : Zdigits2 (cond_Zopp s (Zpos m)) <= 24).
    { assert (Zdigits2 (cond_Zopp s (Zpos m)) = Zpos (digits2_pos m))
        by (destruct s; reflexivity).
      unfold SpecFloat.fexp, F32.prec in Hc. lia. }
    unfold SpecFloat.emin, F32.prec, F32.emax in Hemin.
    unfold SpecFloat.fexp, SpecFloat.emin, F64.prec, F64.emax. lia.
Qed.

(** Division of two positive finite [float]s whose exact quotient [t]
    is between [2^klo] and [2^k]. *)
Lemma F32_div_spec x y t k klo :
  fin32 x -> fin32 y -> (0 < valq x)%Q -> (0 < valq y)%Q ->
  (t * valq y == valq x)%Q ->
  (pow2 klo <= t < pow2 k)%Q -> -125 <= klo -> k < F32.emax ->
  fin32 (F32.div x y) /\
  (t - pow2 (SpecFloat.fexp F32.prec F32.emax k - 1) <= valq (F32.div x y)
     <= t + pow2 (SpecFloat.fexp F32.prec F32.emax k - 1))%Q.
Proof.
  intros Hx Hy Px Py Ht Hb Hklo Hk.
  destruct (fin_pos _ _ x Hx Px) as (mx & ex & -> & _).
  destruct (fin_pos _ _ y Hy Py) as (my & ey & -> & _).
  cbn [valq] in Ht.
  destruct (SFdiv_spec F32.prec F32.emax prec32 emax32 false mx ex false my ey t k klo
              Ht Hb ltac:(exact Hklo) Hk) as (r & H1 & H2 & H3).
  cbn [xorb signed] in H2. split; [exact H1|].
  unfold F32.div. rewrite H2. exact H3.
Qed.

Lemma fin64_EPSILON : fin64 EPSILON /\ (valq EPSILON <= 1 # 100)%Q.
Proof. split; [split; vm_compute; reflexivity|vm_compute; discriminate]. Qed.

Lemma fin64_SLOW_FREQ : fin64 SLOW_FREQ /\ (valq SLOW_FREQ == 1 # 2)%Q.
Proof. split; [split; vm_compute; reflexivity|vm_compute; reflexivity]. Qed.

(** A run that committed [n] extrema, 1 to 52 of them, has a period
    estimate above [EPSILON] and a frequency estimate above
    [SLOW_FREQ]. *)
Lemma frequency_above n s :
  1 <= n <= 52 -> period_ok n s ->
  let period := F32.div s (F32.of_Z n) in
  F64.gtb (F64.of_float period) EPSILON = true /\
  F64.leb (F64.of_float (F32.div (F32.of_Z 1) period)) SLOW_FREQ = false.
Proof.
  intros Hn [Hs Hv]. cbv zeta.
  destruct (of_Z_spec n ltac:(lia)) as [Hnf Hnv].
  assert (Hn1 : (1 <= inject_Z n <= 52)%Q).
  { change 1%Q with (inject_Z 1). change 52%Q with (inject_Z 52).
    rewrite <- !Zle_Qle. exact Hn. }
  set (t := (valq s / inject_Z n)%Q).
  assert (Ht : (t * inject_Z n == valq s)%Q).
  { unfold t. field. lra. }
  assert (Htb : ((19 # 100) <= t <= (8 # 5))%Q) by nra.
  destruct (F32_div_spec s (F32.of_Z n) t 1 (-3) Hs Hnf) as [Hp Hpv].
  - nra.
  - rewrite Hnv. lra.
  - rewrite Hnv. exact Ht.
  - eval_pow2. lra.
  - lia.
  - reflexivity.
  - eval_pow2.
    set (period := F32.div s (F32.of_Z n)) in *.
    destruct (of_float_spec period Hp) as [Hp64 Hpe].
    destruct fin64_EPSILON as [He Hev].
    split.
    { apply (SFltb_spec F64.prec F64.emax prec64 _ _ He Hp64). rewrite Hpe. lra. }
    destruct (of_Z_spec 1 ltac:(lia)) as [H1f H1v].
    change (inject_Z 1) with 1%Q in H1v.
    set (t2 := (/ valq period)%Q).
    assert (Hpp : (0 < valq period)%Q) by lra.
    assert (Ht2 : (t2 * valq period == 1)%Q).
    { unfold t2. field. lra. }
    assert (Ht2p : (0 < t2)%Q) by (unfold t2; apply Qinv_lt_0_compat; exact Hpp).
    assert (Ht2b : ((3 # 5) <= t2 < 8)%Q) by nra.
    destruct (F32_div_spec (F32.of_Z 1) period t2 3 (-1) H1f Hp) as [Hf Hfv].
    + rewrite H1v. lra.
    + exact Hpp.
    + rewrite H1v. exact Ht2.
    + eval_pow2. lra.
    + lia.
    + reflexivity.
    + eval_pow2.
      destruct (of_float_spec _ Hf) as [Hf64 Hfe].
      destruct fin64_SLOW_FREQ as [Hsl Hslv].
      destruct (F64.leb _ SLOW_FREQ) eqn:E; [|reflexivity].
      apply (SFleb_spec F64.prec F64.emax prec64 _ _ Hf64 Hsl) in E.
      rewrite Hfe, Hslv in E. lra.
Qed.

(** ** The period sum of a run *)

Lemma loop_ok_weaken i l : loop_ok i l -> loop_ok (i + 1) l.
Proof.
  intros (H1 & H2 & H3 & H4 & H5 & H6).
  split; [exact H1|]. split; [exact H2|]. split; [exact H3|].
  split; [exact H4|]. split; [lia|exact H6].
Qed.

Lemma search_max_ok der filt ts i n l :
  clock_ok (ts !!! i) -> loop_ok n l -> n < 52 ->
  loop_ok (n + 1) (search_max der filt ts i l).
Proof.
  intros Ht Hl Hn. pose proof (loop_ok_weaken _ _ Hl) as Hw.
  destruct Hl as (Ha & Hm & Hca & Hcm & Hc & Hp).
  unfold search_max.
  destruct (falling_zc der i l); [|exact Hw].
  destruct (dead_time_passed (ts !!! i) (prev_max_ts l)) eqn:Hd; [|exact Hw].
  locals_proj.
  destruct (F64.gtb (F64.fabs (F64.of_float (filt !!! i))) CLOSE_TO_ZERO);
    [|locals_proj; exact Hw].
  assert (Hu : u32 (count_max_det l + 1) = count_max_det l + 1)
    by (apply u32_small; unfold is_uint; lia).
  destruct (F32.gtb (ts !!! i) (F32.add (prev_max_ts l) MAX_TIME_PERIOD_SEC)) eqn:Hclamp;
    locals_proj;
    (destruct (separated (filt !!! i) (prev_min_val l)); locals_proj;
     unfold loop_ok; locals_proj).
  - destruct (clamped_term _ Ht) as [Hf Hv].
    rewrite Hu.
    replace (count_max_det l + 1 + count_min_det l)
      with (count_max_det l + count_min_det l + 1) by lia.
    split; [apply clock_recorded, Ht|]. split; [exact Hm|].
    split; [lia|]. split; [lia|]. split; [lia|].
    apply accumulate; [lia|exact Hp|exact Hf|lra].
  - split; [apply clamp_ok, Ht|]. split; [exact Hm|].
    split; [lia|]. split; [lia|]. split; [lia|exact Hp].
  - destruct (plain_term _ _ Ht Ha Hclamp Hd) as [Hf Hv].
    rewrite Hu.
    replace (count_max_det l + 1 + count_min_det l)
      with (count_max_det l + count_min_det l + 1) by lia.
    split; [apply clock_recorded, Ht|]. split; [exact Hm|].
    split; [lia|]. split; [lia|]. split; [lia|].
    apply accumulate; [lia|exact Hp|exact Hf|exact Hv].
  - split; [exact Ha|]. split; [exact Hm|].
    split; [lia|]. split; [lia|]. split; [lia|exact Hp].
Qed.

Lemma search_min_ok der filt ts i n l :
  clock_ok (ts !!! i) -> loop_ok n l -> n < 52 ->
  loop_ok (n + 1) (search_min der filt ts i l).
Proof.
  intros Ht Hl Hn. pose proof (loop_ok_weaken _ _ Hl) as Hw.
  destruct Hl as (Ha & Hm & Hca & Hcm & Hc & Hp).
  unfold search_min.
  destruct (rising_zc der i l); [|exact Hw].
  destruct (dead_time_passed (ts !!! i) (prev_min_ts l)) eqn:Hd; [|exact Hw].
  locals_proj.
  assert (Hu : u32 (count_min_det l + 1) = count_min_det l + 1)
    by (apply u32_small; unfold is_uint; lia).
  destruct (F32.gtb (ts !!! i) (F32.add (prev_min_ts l) MAX_TIME_PERIOD_SEC)) eqn:Hclamp;
    locals_proj;
    (destruct (separated (prev_max_val l) (filt !!! i)); locals_proj;
     unfold loop_ok; locals_proj).
  - destruct (clamped_term _ Ht) as [Hf Hv].
    rewrite Hu, Z.add_assoc.
    split; [exact Ha|]. split; [apply clock_recorded, Ht|].
    split; [lia|]. split; [lia|]. split; [lia|].
    apply accumulate; [lia|exact Hp|exact Hf|lra].
  - split; [exact Ha|]. split; [apply clamp_ok, Ht|].
    split; [lia|]. split; [lia|]. split; [lia|exact Hp].
  - destruct (plain_term _ _ Ht Hm Hclamp Hd) as [Hf Hv].
    rewrite Hu, Z.add_assoc.
    split; [exact Ha|]. split; [apply clock_recorded, Ht|].
    split; [lia|]. split; [lia|]. split; [lia|].
    apply accumulate; [lia|exact Hp|exact Hf|exact Hv].
  - split; [exact Ha|]. split; [exact Hm|].
    split; [lia|]. split; [lia|]. split; [lia|exact Hp].
Qed.

Lemma at_index_ok der i n l : loop_ok n l -> loop_ok n (at_index der i l).
Proof. unfold at_index. destruct (delta <=? i)%nat; [|done]. intros H. exact H. Qed.

Lemma detect_iter_ok der filt ts i n l :
  clock_ok (ts !!! i) -> loop_ok n l -> n < 52 ->
  loop_ok (n + 1) (detect_iter der filt ts l i).
Proof.
  intros Ht Hl Hn. rewrite detect_iter_at_index.
  pose proof (at_index_ok der i n l Hl) as Hl'.
  destruct (max_search (at_index der i l));
    [apply search_max_ok|apply search_min_ok]; assumption.
Qed.

(** The timestamps of the arrays. *)
Lemma lookup_clock_ok (l : list float) i : Forall clock_ok l -> clock_ok (l !!! i).
Proof.
  intros H. destruct (decide (i < length l)%nat) as [Hi|Hi].
  - apply Forall_lookup_total_1; assumption.
  - rewrite list_lookup_total_alt, lookup_ge_None_2 by lia.
    split; [split; reflexivity|]. cbn. lra.
Qed.

Lemma deriv_fold_clock TC by_ bts idx acc :
  Forall clock_ok bts -> Forall clock_ok acc.2 ->
  Forall clock_ok (fold_left (deriv_iter TC by_ bts) idx acc).2.
Proof.
  intros Hb. revert acc. induction idx as [|i idx IH]; intros acc Ha; cbn [fold_left]; [done|].
  apply IH. destruct acc as [[[ll der] filt] ts]. cbn [deriv_iter fst snd] in *.
  apply Forall_insert; [exact Ha|apply lookup_clock_ok, Hb].
Qed.

Lemma save_fold_clock TC by_ bts idx acc :
  Forall clock_ok bts -> Forall clock_ok acc.2 ->
  Forall clock_ok (fold_left (save_iter TC by_ bts) idx acc).2.
Proof.
  intros Hb. revert acc. induction idx as [|i idx IH]; intros acc Ha; cbn [fold_left]; [done|].
  apply IH. destruct acc as [filt ts]. cbn [save_iter fst snd] in *.
  apply Forall_insert; [exact Ha|apply lookup_clock_ok, Hb].
Qed.

Lemma ts_ext_clock st : state_ok st -> Forall clock_ok (ts_ext st).
Proof.
  intros (_ & _ & Hb & Ht). unfold ts_ext, run_deriv.
  apply deriv_fold_clock; [exact Hb|exact Ht].
Qed.

Lemma loop_invariant st i :
  state_ok st -> (i <= 52)%nat -> loop_ok (Z.of_nat i) (locals_before st i).
Proof.
  intros Hs. induction i as [|i IH]; intros Hi.
  - destruct Hs as (Ha & Hm & _).
    unfold locals_before. cbn [seq fold_left]. unfold loop_ok, init_locals. locals_proj.
    split; [exact Ha|]. split; [exact Hm|]. split; [lia|]. split; [lia|]. split; [lia|].
    split; [split; reflexivity|].
    change (valq F32.zero) with 0%Q. change (inject_Z (0 + 0)) with 0%Q. lra.
  - rewrite locals_before_S. rewrite Nat2Z.inj_succ, <- Z.add_1_r.
    apply detect_iter_ok; [|apply IH; lia|lia].
    apply lookup_clock_ok, ts_ext_clock, Hs.
Qed.

(** ** A run that commits is not labelled STATIC *)

Lemma init_state_ok : state_ok init_state.
Proof.
  assert (Hz : clock_ok F32.zero) by (split; [split; reflexivity|cbn; lra]).
  split; [apply clock_recorded, Hz|]. split; [apply clock_recorded, Hz|].
  split; apply Forall_replicate, Hz.
Qed.

Lemma preproc_state_ok st smp :
  state_ok st -> clock_ok (timestamp smp) -> state_ok (step_algo_preproc st smp).1.
Proof.
  intros (Ha & Hm & Hb & Ht) Hs. unfold state_ok, step_algo_preproc; state_proj.
  split; [exact Ha|]. split; [exact Hm|]. split; [|exact Ht].
  apply Forall_insert; assumption.
Qed.

Lemma run_state_ok st : state_ok st -> state_ok (step_algo_run st).
Proof.
  intros Hs.
  pose proof (loop_invariant st (Z.to_nat SAMP_BUFF_LEN) Hs ltac:(vm_compute; lia))
    as (Ha & Hm & _).
  rewrite <- run_detect_locals in Ha, Hm.
  pose proof (ts_ext_clock st Hs) as He.
  destruct Hs as (_ & _ & Hb & Ht).
  unfold state_ok, step_algo_run; state_proj.
  split; [exact Ha|]. split; [exact Hm|]. split; [exact Hb|].
  apply save_fold_clock; [exact Hb|exact He].
Qed.

Lemma freq_update_committing l p h :
  loop_ok 52 l -> 0 < count_min_det l ->
  F64.leb (F64.of_float (freq_update l p h).1) SLOW_FREQ = false.
Proof.
  intros (_ & _ & Hca & Hcm & Hc & Hp) Hpos.
  unfold freq_update. cbv zeta.
  rewrite (u32_small (count_max_det l + count_min_det l)) by (unfold is_uint; lia).
  destruct (frequency_above (count_max_det l + count_min_det l) (avg_time_period l)
              ltac:(lia) Hp) as [H1 H2]. cbv zeta in H1, H2.
  assert (E : (0 <? count_max_det l + count_min_det l) = true) by (apply Z.ltb_lt; lia).
  rewrite E, H1. cbn [fst snd].
  change (BUFF_FACTOR <? 0) with false. cbn [fst]. exact H2.
Qed.

Lemma classify_moving amp freq n w r h :
  F64.leb (F64.of_float freq) SLOW_FREQ = false ->
  (classify amp freq n w r h).1.1.1 <> STATIC.
Proof.
  intros H. unfold classify. rewrite H.
  destruct (F64.leb _ SMALL_AMP); [cbn [fst]; discriminate|].
  destruct (F64.geb _ LARGE_AMP); destruct (F64.geb _ FAST_FREQ);
    cbn [fst]; discriminate.
Qed.

(** With timestamps of the clock, a run that commits a minimum has a
    frequency estimate above [SLOW_FREQ], and so is not labelled
    [STATIC]. *)
Lemma committing_run_moving st :
  state_ok st -> 0 < count_min_det (run_detect st) ->
  Out.step_type (step_algo_output (step_algo_run st)) <> STATIC.
Proof.
  intros Hs Hpos.
  pose proof (loop_invariant st (Z.to_nat SAMP_BUFF_LEN) Hs ltac:(vm_compute; lia)) as Hl.
  rewrite <- run_detect_locals in Hl.
  change (Z.of_nat (Z.to_nat SAMP_BUFF_LEN)) with 52 in Hl.
  unfold step_algo_run; state_proj.
  apply classify_moving, freq_update_committing; assumption.
Qed.

Lemma run_samples_ok smps : forall st,
  state_ok st -> Forall (fun s => clock_ok (timestamp s)) smps ->
  state_ok (run_samples st smps).
Proof.
  induction smps as [|smp smps IH]; intros st Hs Hf; [exact Hs|].
  rewrite run_samples_cons. apply Forall_cons in Hf as [H1 H2].
  apply IH; [|exact H2].
  pose proof (preproc_state_ok st smp Hs H1) as Hp.
  unfold process_sample; cbv zeta.
  destruct ((step_algo_preproc st smp).2 =? 1); cbn [fst];
    [apply run_state_ok, Hp|exact Hp].
Qed.

Lemma entries_ok smps : forall st,
  state_ok st -> Forall (fun s => clock_ok (timestamp s)) smps ->
  Forall state_ok (detector_entries st smps).
Proof.
  induction smps as [|smp smps IH]; intros st Hs Hf; [constructor|].
  apply Forall_cons in Hf as [H1 H2].
  pose proof (preproc_state_ok st smp Hs H1) as Hp.
  cbn [detector_entries]. cbv zeta.
  destruct ((step_algo_preproc st smp).2 =? 1).
  - constructor; [exact Hp|]. apply IH; [apply run_state_ok, Hp|exact H2].
  - apply IH; [exact Hp|exact H2].
Qed.

Lemma in_range_all smps :
  forallb (fun s => in_range (timestamp s)) smps = true ->
  Forall (fun s => clock_ok (timestamp s)) smps.
Proof.
  intros H. apply Forall_forall. intros s Hs.
  rewrite forallb_forall in H. apply in_range_ok, H.
  apply list_elem_of_In, Hs.
Qed.

(** From the initial state, over timestamps of the clock and fewer than
    2^32 samples, the total is the sum of the three per-class
    counters. *)
Lemma total_sum smps :
  Forall (fun s => clock_ok (timestamp s)) smps ->
  Z.of_nat (length smps) < 2 ^ 32 ->
  let st := run_samples init_state smps in
  Out.step_count (step_algo_output st) =
    num_steps_walk st + num_steps_run st + num_steps_hop st.
Proof.
  induction smps as [|smp smps IH] using rev_ind; intros Hf Hlen; cbv zeta.
  { reflexivity. }
  apply Forall_app in Hf as [Hf1 Hf2]. rewrite Forall_singleton in Hf2.
  rewrite length_app in Hlen. cbn [length] in Hlen.
  specialize (IH Hf1 ltac:(lia)). cbv zeta in IH.
  pose proof (counters_bounded smps ltac:(lia)) as Hb. cbv zeta in Hb.
  pose proof (run_samples_valid init_state smps init_valid) as Hv.
  pose proof (run_samples_ok smps init_state init_state_ok Hf1) as Hok.
  rewrite run_samples_snoc.
  set (st := run_samples init_state smps) in *.
  pose proof (valid_count _ Hv) as Hc. rewrite SAMP_BUFF_LEN_val in Hc.
  rewrite (process_sample_cases st smp (valid_count _ Hv)), SAMP_BUFF_LEN_val.
  destruct (preproc_counters st smp) as (Eo & Ew & Er & Eh). cbv zeta in Eo, Ew, Er, Eh.
  destruct (Z.eqb_spec (count st + 1) 52) as [E|E]; cbn [fst].
  - pose proof (preproc_state_ok st smp Hok Hf2) as Hp.
    destruct (run_counters (step_algo_preproc st smp).1) as [Es Ec].
    cbv zeta in Es, Ec.
    pose proof (run_count_min_bound (step_algo_preproc st smp).1) as Hn.
    pose proof (committing_run_moving _ Hp) as Hmove.
    rewrite Es.
    destruct (Out.step_type (step_algo_output (step_algo_run (step_algo_preproc st smp).1)));
      destruct Ec as (-> & -> & ->);
      rewrite Eo, ?Ew, ?Er, ?Eh, !u32_small by (unfold is_uint; lia);
      try lia.
    assert (count_min_det (run_detect (step_algo_preproc st smp).1) = 0)
      by (destruct (Z.eq_dec (count_min_det (run_detect (step_algo_preproc st smp).1)) 0)
            as [H0|H0]; [exact H0|exfalso; apply Hmove; [lia|reflexivity]]).
    lia.
  - rewrite Eo, Ew, Er, Eh. exact IH.
Qed.

(** ** The clock of main *)

Lemma clock_ok_in_range t : clock_ok t -> in_range t = true.
Proof.
  intros [[V F] [H0 H1]]. unfold in_range. rewrite V, F. cbn [andb].
  assert (Hf : fin32 t) by (split; assumption).
  assert (Hz : fin32 F32.zero) by (split; reflexivity).
  assert (Hm : fin32 (F32.of_Z (2 ^ 20))) by (split; vm_compute; reflexivity).
  assert (E : (valq (F32.of_Z (2 ^ 20)) == 1048576)%Q) by (vm_compute; reflexivity).
  apply andb_true_intro. split.
  - apply (SFleb_spec F32.prec F32.emax prec32 _ _ Hz Hf). exact H0.
  - apply (SFleb_spec F32.prec F32.emax prec32 _ _ Hf Hm). rewrite E. exact H1.
Qed.

Lemma fin32_SENSOR_SAMP_INTVL :
  fin32 SENSOR_SAMP_INTVL /\ (0 <= valq SENSOR_SAMP_INTVL <= 1 # 100)%Q.
Proof.
  split; [split; vm_compute; reflexivity|].
  split; vm_compute; discriminate.
Qed.

(** Above 2^18 the [float]s are a thirty-second apart. *)
Lemma float_grid x :
  fin32 x -> (262144 < valq x)%Q -> (262144 + (1 # 32) <= valq x)%Q.
Proof.
  intros Hf Hx.
  destruct (fin_pos _ _ x Hf ltac:(lra)) as (m & e & -> & Hb).
  destruct (bounded_canonical F32.prec F32.emax prec32 m e Hb) as (_ & _ & Hm & _ & _).
  cbn [valq] in *.
  assert (He : -5 <= e).
  { pose proof (inject_Z_lt_pow2 _ 24 ltac:(lia) Hm) as Q1.
    pose proof (Qscale_lt _ _ _ (pow2_pos e) Q1) as Q2.
    rewrite <- pow2_add in Q2.
    assert (Q3 : (pow2 18 < pow2 (24 + e))%Q) by (change (pow2 18) with 262144%Q; lra).
    apply pow2_lt_inv in Q3. lia. }
  assert (E : (inject_Z (Zpos m) * pow2 e ==
               inject_Z (Zpos m * 2 ^ (e + 5)) * (1 # 32))%Q).
  { rewrite inject_Z_mult, pow2_Z by lia.
    replace e with (e + 5 + -5) at 1 by lia. rewrite pow2_add.
    change (pow2 (-5)) with (1 # 32)%Q. ring. }
  rewrite E in Hx |- *.
  assert (H1 : (inject_Z 8388608 < inject_Z (Zpos m * 2 ^ (e + 5)))%Q)
    by (change (inject_Z 8388608) with 8388608%Q; lra).
  apply inject_Z_lt_inv in H1.
  assert (H2 : (inject_Z 8388609 <= inject_Z (Zpos m * 2 ^ (e + 5)))%Q)
    by (rewrite <- Zle_Qle; lia).
  change (inject_Z 8388609) with 8388609%Q in H2. lra.
Qed.

(** The timestamps [main] synthesises stay in the clock's range: they
    grow from 0 by the sampling interval and stop growing at 2^18 s,
    where the interval is less than half the distance to the next
    [float]. *)
Lemma main_clock_from arys : forall t,
  fin32 t -> (0 <= valq t <= 262144)%Q ->
  forallb (fun s => in_range (timestamp s)) (main_samples t arys) = true.
Proof.
  induction arys as [|y arys IH]; intros t Hf Hv; [reflexivity|].
  cbn [main_samples]. cbv zeta. cbn [forallb timestamp].
  destruct fin32_SENSOR_SAMP_INTVL as [Hd Hdv].
  destruct (F32_add_spec t SENSOR_SAMP_INTVL 19 Hf Hd) as (H1 & H2 & H3);
    [eval_pow2; lra|reflexivity|].
  eval_pow2. specialize (H3 ltac:(lra)).
  assert (Hnext : (valq (F32.add t SENSOR_SAMP_INTVL) <= 262144)%Q).
  { destruct (Qlt_le_dec 262144 (valq (F32.add t SENSOR_SAMP_INTVL))) as [L|L];
      [|exact L].
    pose proof (float_grid _ H1 L). lra. }
  apply andb_true_intro. split.
  - apply clock_ok_in_range. split; [exact H1|]. split; [exact H3|lra].
  - apply IH; [exact H1|split; [exact H3|exact Hnext]].
Qed.

Lemma main_clock arys :
  forallb (fun s => in_range (timestamp s)) (main_samples F32.zero arys) = true.
Proof.
  apply main_clock_from.
  - split; reflexivity.
  - change (valq F32.zero) with 0%Q. lra.
Qed.

(** ** The total is the sum of the classes *)

(** C2.  From the initial state, over fewer than 2^32 samples whose
    timestamps are finite and between 0 and 2^20 s, as those of [main]
    are, after every sample [step_count] is the sum of
    [num_steps_walk], [num_steps_run] and [num_steps_hop]; a run
    labelled [STATIC] has committed no minimum; and every run adds its
    [count_min_det] to [step_count] and to the per-class counter of its
    label, and to no other. *)
Theorem total_is_class_sum (smps : list sample) :
  forallb (fun s => in_range (timestamp s)) smps = true ->
  Z.of_nat (length smps) < 2 ^ 32 ->
  (forall k,
     let st := run_samples init_state (take k smps) in
     Out.step_count (step_algo_output st) =
       num_steps_walk st + num_steps_run st + num_steps_hop st) /\
  (forall e, e ∈ detector_entries init_state smps ->
     Out.step_type (step_algo_output (step_algo_run e)) = STATIC ->
     count_min_det (run_detect e) = 0) /\
  (forall e : state,
     let n := count_min_det (run_detect e) in
     let e' := step_algo_run e in
     Out.step_count (step_algo_output e') =
       u32 (Out.step_count (step_algo_output e) + n) /\
     match Out.step_type (step_algo_output e') with
     | STATIC =>
         num_steps_walk e' = num_steps_walk e /\
         num_steps_run e' = num_steps_run e /\
         num_steps_hop e' = num_steps_hop e
     | WALK =>
         num_steps_walk e' = u32 (num_steps_walk e + n) /\
         num_steps_run e' = num_steps_run e /\
         num_steps_hop e' = num_steps_hop e
     | RUN =>
         num_steps_walk e' = num_steps_walk e /\
         num_steps_run e' = u32 (num_steps_run e + n) /\
         num_steps_hop e' = num_steps_hop e
     | HOP =>
         num_steps_walk e' = num_steps_walk e /\
         num_steps_run e' = num_steps_run e /\
         num_steps_hop e' = u32 (num_steps_hop e + n)
     end).
Proof.
  intros Hr Hlen. apply in_range_all in Hr.
  split; [|split].
  - intros k. apply total_sum.
    + apply Forall_take, Hr.
    + rewrite length_take. lia.
  - intros e He Hs.
    pose proof (entries_ok smps init_state init_state_ok Hr) as Hok.
    rewrite Forall_forall in Hok. specialize (Hok e He).
    pose proof (run_count_min_bound e) as Hn.
    destruct (Z.eq_dec (count_min_det (run_detect e)) 0) as [H0|H0]; [exact H0|].
    exfalso. apply (committing_run_moving e Hok); [lia|exact Hs].
  - intros e. apply run_counters.
Qed.

Lemma main_samples_length arys : forall t,
  length (main_samples t arys) = length arys.
Proof.
  induction arys as [|y arys IH]; intros t; [reflexivity|].
  cbn [main_samples]. cbv zeta. cbn [length]. by rewrite IH.
Qed.

(** In particular over the rows of [main], whatever their number below
    2^32 and whatever they hold: [main]'s clock never leaves the range. *)
Lemma main_total_sum (arys : list float) (k : nat) :
  Z.of_nat (length arys) < 2 ^ 32 ->
  let st := run_samples init_state (take k (main_samples F32.zero arys)) in
  Out.step_count (step_algo_output st) =
    num_steps_walk st + num_steps_run st + num_steps_hop st.
Proof.
  intros Hlen. apply total_sum.
  - apply Forall_take, in_range_all, main_clock.
  - rewrite length_take.
    rewrite main_samples_length. lia.
Qed.

Lemma total_is_class_sum_witness :
  forallb (fun s => in_range (timestamp s)) (slow_wave 884) = true /\
  Z.of_nat (length (slow_wave 884)) < 2 ^ 32 /\
  let st := run_samples init_state (take 884 (slow_wave 884)) in
  Out.step_count (step_algo_output st) =
    num_steps_walk st + num_steps_run st + num_steps_hop st.
Proof.
  assert (H1 : forallb (fun s => in_range (timestamp s)) (slow_wave 884) = true)
    by (vm_compute; reflexivity).
  assert (H2 : Z.of_nat (length (slow_wave 884)) < 2 ^ 32)
    by (vm_compute; reflexivity).
  split; [exact H1|]. split; [exact H2|].
  exact (proj1 (total_is_class_sum (slow_wave 884) H1 H2) 884%nat).
Defined.
